(** * LLM4Backport: patch matching and repair engine

    A shallow embedding of [src/tools/utils.py] (fuzzy alignment, patch
    repair, patch splitting) and of the code viewer, the symbol lookup
    and the hunk relocation, compile and validation stages of
    [src/tools/project.py], with the properties the design document
    states about them and further properties read off the code.

    Python values are modelled as follows.
    - [str] is [string]; a character is a code point below 256 and the
      character classes ([str.isspace], the [\s], [\d] and [\w] classes
      of [re]) are the ones Python uses on that range.
    - [int] is [Z] wherever the source can produce a negative number
      (list indices, offsets, sentinels such as [-1]); list indexing and
      slicing follow Python, negative positions included.
    - [float("inf")] as a distance is the constructor [Inf] of [dist].
    - an exception is the [Raise] constructor of [result]; [try]/[except]
      is a [match] on it.
    - the repository, the file system and the scripts a stage runs are
      parameters of the functions that use them: what [git] prints,
      what a file holds, how a script ends.
    - the text sent to the logger is left out, except for the entry by
      which [split_patch] records that it failed. *)

From Stdlib Require Import ZArith List String Ascii Bool Arith Lia.
From Stdlib Require Import DecimalString Sorted Permutation.
Import ListNotations.

Open Scope string_scope.
Open Scope list_scope.
Open Scope Z_scope.

(* ================================================================== *)
(** * Python primitives *)
(* ================================================================== *)

Module Py.

(** Exceptions the modelled code can raise. *)
Inductive exn : Type :=
| IndexError
| AssertionError
| RecursionError
| SystemExit.

Inductive result (A : Type) : Type :=
| Ok (a : A)
| Raise (e : exn).
Arguments Ok {A} a.
Arguments Raise {A} e.

Definition bind {A B} (m : result A) (k : A -> result B) : result B :=
  match m with
  | Ok a => k a
  | Raise e => Raise e
  end.

(** [xs[i]] as an expression that raises [IndexError]. *)
Definition of_option {A} (o : option A) : result A :=
  match o with
  | Some a => Ok a
  | None => Raise IndexError
  end.

(** A [for] loop without [break] whose body may raise. *)
Fixpoint foldM {S A} (f : S -> A -> result S) (l : list A) (s : S)
  : result S :=
  match l with
  | [] => Ok s
  | x :: l' => bind (f s x) (foldM f l')
  end.

(** ** Lists *)

Definition len {A} (l : list A) : Z := Z.of_nat (List.length l).

(** [range(n)] and [range(a, b)]. *)
Definition range (n : Z) : list Z := map Z.of_nat (seq 0 (Z.to_nat n)).
Definition range2 (a b : Z) : list Z :=
  map (fun k => a + Z.of_nat k) (seq 0 (Z.to_nat (b - a))).

(** [l[i]]: a negative [i] counts from the end. *)
Definition index {A} (l : list A) (i : Z) : option A :=
  if (0 <=? i) && (i <? len l) then nth_error l (Z.to_nat i)
  else if (- len l <=? i) && (i <? 0) then nth_error l (Z.to_nat (i + len l))
  else None.

(** Bound of a slice: negative bounds count from the end, and every
    bound is clamped to [0 .. len]. *)
Definition clamp (n i : Z) : Z :=
  if i <? 0 then Z.max 0 (i + n) else Z.min i n.

(** [l[lo:hi]], [l[lo:]] and [l[:hi]]. *)
Definition slice {A} (l : list A) (lo hi : Z) : list A :=
  let a := clamp (len l) lo in
  let b := clamp (len l) hi in
  firstn (Z.to_nat (b - a)) (skipn (Z.to_nat a) l).
Definition slice_from {A} (l : list A) (lo : Z) : list A :=
  skipn (Z.to_nat (clamp (len l) lo)) l.
Definition slice_to {A} (l : list A) (hi : Z) : list A :=
  firstn (Z.to_nat (clamp (len l) hi)) l.

(** [l[i] = x]; raises when [i] is out of range. *)
Fixpoint set_nth {A} (l : list A) (n : nat) (x : A) : list A :=
  match l, n with
  | [], _ => []
  | _ :: t, O => x :: t
  | h :: t, S n' => h :: set_nth t n' x
  end.
Definition assign {A} (l : list A) (i : Z) (x : A) : result (list A) :=
  if (0 <=? i) && (i <? len l) then Ok (set_nth l (Z.to_nat i) x)
  else if (- len l <=? i) && (i <? 0)
       then Ok (set_nth l (Z.to_nat (i + len l)) x)
  else Raise IndexError.

(** ** Characters *)

Definition nl : ascii := ascii_of_nat 10.
Definition cr : ascii := ascii_of_nat 13.
Definition tab : ascii := ascii_of_nat 9.

Definition between (lo hi : nat) (c : ascii) : bool :=
  let n := nat_of_ascii c in (lo <=? n)%nat && (n <=? hi)%nat.

(** [str.isspace] and the class [\s]. *)
Definition isspace (c : ascii) : bool :=
  between 9 13 c || between 28 32 c || between 133 133 c
  || between 160 160 c.

(** The class [\d]. *)
Definition isdigit (c : ascii) : bool := between 48 57 c.

(** The class [\w]: alphanumeric characters and the underscore. *)
Definition isword (c : ascii) : bool :=
  between 48 57 c || between 65 90 c || between 97 122 c
  || between 95 95 c
  || between 170 170 c || between 178 179 c || between 181 181 c
  || between 185 186 c || between 188 190 c
  || between 192 214 c || between 216 246 c || between 248 255 c.

(** Line boundaries of [str.splitlines]. *)
Definition islinebreak (c : ascii) : bool :=
  between 10 13 c || between 28 30 c || between 133 133 c.

(** ** Strings *)

Definition slen (s : string) : Z := Z.of_nat (String.length s).

Definition startswith (s p : string) : bool := String.prefix p s.

Fixpoint contains (sub s : string) : bool :=
  String.prefix sub s ||
  match s with
  | EmptyString => false
  | String _ s' => contains sub s'
  end.

Definition srev (s : string) : string :=
  string_of_list_ascii (rev (list_ascii_of_string s)).

Definition endswith (s p : string) : bool := String.prefix (srev p) (srev s).

(** [s[1:]]. *)
Definition tail (s : string) : string :=
  match s with
  | EmptyString => EmptyString
  | String _ s' => s'
  end.

Fixpoint lstrip_by (p : ascii -> bool) (s : string) : string :=
  match s with
  | EmptyString => EmptyString
  | String c s' => if p c then lstrip_by p s' else s
  end.

Fixpoint rstrip_by (p : ascii -> bool) (s : string) : string :=
  match s with
  | EmptyString => EmptyString
  | String c s' =>
      match rstrip_by p s' with
      | EmptyString => if p c then EmptyString else String c EmptyString
      | r => String c r
      end
  end.

(** [s.strip()] and [s.strip("\n")], [s.rstrip("\n")]. *)
Definition strip (s : string) : string := rstrip_by isspace (lstrip_by isspace s).
Definition strip_nl (s : string) : string :=
  rstrip_by (Ascii.eqb nl) (lstrip_by (Ascii.eqb nl) s).
Definition rstrip_nl (s : string) : string := rstrip_by (Ascii.eqb nl) s.

(** [re.sub(r"\s+", "", s)]. *)
Fixpoint remove_spaces (s : string) : string :=
  match s with
  | EmptyString => EmptyString
  | String c s' =>
      if isspace c then remove_spaces s' else String c (remove_spaces s')
  end.

(** [s.replace("'s ", "->")]. *)
Fixpoint replace_apos_s (s : string) : string :=
  match s with
  | String "'" (String "s" (String " " rest)) =>
      String "-" (String ">" (replace_apos_s rest))
  | String c s' => String c (replace_apos_s s')
  | EmptyString => EmptyString
  end.

(** [sep.join(l)]. *)
Definition join (sep : string) (l : list string) : string :=
  String.concat sep l.
Definition join_nl : list string -> string := join (String nl EmptyString).

(** [s.split(sep)] for a one-character separator. *)
Fixpoint split (sep : ascii) (s : string) : list string :=
  match s with
  | EmptyString => [EmptyString]
  | String c s' =>
      if Ascii.eqb c sep then EmptyString :: split sep s'
      else match split sep s' with
           | h :: t => String c h :: t
           | [] => [String c EmptyString]
           end
  end.

(** [s.splitlines()]: [after_cr] is set right after a carriage return,
    whose following line feed belongs to the same boundary. *)
Fixpoint splitlines_from (after_cr : bool) (s : string) : list string :=
  match s with
  | EmptyString => []
  | String c s' =>
      if after_cr && Ascii.eqb c nl then splitlines_from false s'
      else if islinebreak c
      then EmptyString :: splitlines_from (Ascii.eqb c cr) s'
      else match splitlines_from false s' with
           | h :: t => String c h :: t
           | [] => [String c EmptyString]
           end
  end.
Definition splitlines (s : string) : list string := splitlines_from false s.

(** [str(n)] for a non-negative count. *)
Definition str_of_nat (n : nat) : string :=
  NilEmpty.string_of_uint (Nat.to_uint n).

End Py.

Import Py.

Declare Scope py_scope.
Notation "x <- m ;; k" := (bind m (fun x => k))
  (at level 61, m at next level, right associativity) : py_scope.
Notation "' p <- m ;; k" := (bind m (fun x => match x with p => k end))
  (at level 61, p pattern, m at next level, right associativity) : py_scope.
Open Scope py_scope.

(* ================================================================== *)
(** * The edit distance of the [Levenshtein] package *)
(* ================================================================== *)

Module Levenshtein.

(** The least number of one-character insertions, deletions and
    substitutions that turn [s] into [t], by the textbook recurrence. *)
Fixpoint edit_distance (s t : string) {struct s} : nat :=
  match s with
  | EmptyString => String.length t
  | String a s' =>
      (fix inner (t : string) : nat :=
         match t with
         | EmptyString => S (String.length s')
         | String b t' =>
             Nat.min (Nat.min (S (edit_distance s' t)) (S (inner t')))
                     ((if Ascii.eqb a b then 0 else 1) + edit_distance s' t')%nat
         end) t
  end.

(** The same number computed row by row, as the package does.  A row
    holds the distances from one suffix of [s] to every suffix of [t],
    longest suffix of [t] first. *)
Fixpoint first_row (t : string) : list nat :=
  match t with
  | EmptyString => [0%nat]
  | String _ t' => let row := first_row t' in S (hd 0%nat row) :: row
  end.

Fixpoint next_row (a : ascii) (len_s : nat) (t : string) (row : list nat)
  : list nat :=
  match t, row with
  | EmptyString, _ => [len_s]
  | String b t', r0 :: row' =>
      let next := next_row a len_s t' row' in
      Nat.min (Nat.min (S r0) (S (hd 0%nat next)))
              ((if Ascii.eqb a b then 0 else 1) + hd 0%nat row')%nat
      :: next
  | String _ _, [] => []
  end.

Fixpoint rows (s t : string) : list nat :=
  match s with
  | EmptyString => first_row t
  | String a s' => next_row a (S (String.length s')) t (rows s' t)
  end.

(** [Levenshtein.distance(s, t)] *)
Definition distance (s t : string) : nat := hd 0%nat (rows s t).

End Levenshtein.

(* ================================================================== *)
(** * [src/tools/utils.py] *)
(* ================================================================== *)

Module Utils.

(** A distance, or [float("inf")]. *)
Inductive dist : Type :=
| Fin (n : nat)
| Inf.

(** [distance < min_distance]. *)
Definition dist_ltb (d : nat) (m : dist) : bool :=
  match m with
  | Inf => true
  | Fin n => (d <? n)%nat
  end.

(** ** [find_most_similar_block] *)

(** The [+]/[-] test on the first line of a window. *)
Definition mutated (line : string) : bool :=
  startswith line "+" || startswith line "-".

(** Body of the window loop (source lines 87-95); the state is
    [(best_start_index, min_distance)].  [main[i]] is evaluated only when
    the distance improves and [dline_flag] is set. *)
Definition scan_step (pattern main : list string) (p_len : Z)
  (dline_flag : bool) (st : Z * dist) (i : Z) : result (Z * dist) :=
  let distance :=
    Levenshtein.distance (join_nl (slice main i (i + p_len)))
                         (join_nl pattern) in
  if dist_ltb distance (snd st) then
    if dline_flag then
      m <- of_option (index main i) ;;
      if mutated m then Ok st else Ok (i + 1, Fin distance)
    else Ok (i + 1, Fin distance)
  else Ok st.

Definition scan (pattern main : list string) (p_len : Z) (dline_flag : bool)
  : result (Z * dist) :=
  foldM (scan_step pattern main p_len dline_flag)
        (range (len main - p_len + 1)) (1, Inf).

(** [abs(j - i) < abs(offset)], where [None] is the initial
    [float("inf")]. *)
Definition closer (d : Z) (offset : option Z) : bool :=
  match offset with
  | None => true
  | Some o => Z.abs d <? Z.abs o
  end.

(** Body of the [j] loop (source lines 106-112); the state is
    [(offset_flag, offset)].  An [IndexError] of [main[...]] is swallowed
    by the bare [except]. *)
Definition offset_step (p : string) (main : list string) (lineno i : Z)
  (st : bool * option Z) (j : Z) : bool * option Z :=
  match index main (lineno - 1 + j) with
  | None => st
  | Some m =>
      if String.eqb (strip p) (strip m)
      then (true, if closer (j - i) (snd st) then Some (j - i) else snd st)
      else st
  end.

(** The [i] loop (source lines 102-115) with its [break].  When
    [offset_flag] is set, [offset] is a number. *)
Fixpoint offset_loop (pattern main : list string) (lineno : Z)
  (idxs : list Z) (st : bool * option Z) (best_start_index : Z) : result Z :=
  match idxs with
  | [] => Ok best_start_index
  | i :: rest =>
      p <- of_option (index pattern i) ;;
      if (String.length (strip p) <? 3)%nat
      then offset_loop pattern main lineno rest st best_start_index
      else
        let st' := fold_left (offset_step p main lineno i) (range2 (-5) 6) st in
        if fst st'
        then Ok (best_start_index + match snd st' with Some o => o | None => 0 end)
        else offset_loop pattern main lineno rest st' best_start_index
  end.

(** Source lines 98-115, from the window the scan chose. *)
Definition fix_offset (pattern main : list string) (p_len : Z)
  (best_start_index : Z) : result Z :=
  offset_loop pattern main best_start_index (range p_len) (false, None)
              best_start_index.

Definition find_most_similar_block (pattern main : list string) (p_len : Z)
  (dline_flag : bool) : result (Z * dist) :=
  '(best_start_index, min_distance) <- scan pattern main p_len dline_flag ;;
  if negb dline_flag then
    best_start_index <- fix_offset pattern main p_len best_start_index ;;
    Ok (best_start_index, min_distance)
  else Ok (best_start_index, min_distance).

(** ** [extract_context] *)

(** The lines of the old file ([ ] and [-] lines without their tag) and
    the added lines, with their counts. *)
Fixpoint extract_lines (lines : list string) : list string * list string :=
  match lines with
  | [] => ([], [])
  | line :: rest =>
      let '(processed_lines, add_lines) := extract_lines rest in
      if startswith line " " then (tail line :: processed_lines, add_lines)
      else if startswith line "-" then (tail line :: processed_lines, add_lines)
      else if startswith line "+" then (processed_lines, tail line :: add_lines)
      else (processed_lines, add_lines)
  end.

Definition extract_context (lines : list string)
  : list string * Z * list string * Z :=
  let '(processed_lines, add_lines) := extract_lines lines in
  (processed_lines, len processed_lines, add_lines, len add_lines).

(** ** [revise_patch]: the nested [revise_hunk] *)

(** A hunk as [revise_hunk] rebuilds it: the two start fields and the
    trailer are copied from the original header as text, the counts are
    recomputed, and [body] is the list of rewritten lines. *)
Record hunk : Type := mk_hunk {
  old_start : string;
  old_count : nat;
  new_start : string;
  new_count : nat;
  trailing_hint : string;
  body : list string
}.

(** The f-string of source line 230 followed by the joined body. *)
Definition render (h : hunk) : string :=
  ("@@ -" ++ old_start h ++ "," ++ str_of_nat (old_count h)
   ++ " +" ++ new_start h ++ "," ++ str_of_nat (new_count h)
   ++ " @@" ++ trailing_hint h ++ String nl EmptyString
   ++ join_nl (body h))%string.

(** Pieces of the regular expressions of the source.  A literal, the
    greedy class [\d+] (followed in every use by a character that is
    not a digit, so the longest run is the only candidate) and the final
    capture group, which takes the rest of the text up to a line feed. *)
Fixpoint drop (n : nat) (s : string) : string :=
  match n, s with
  | O, _ => s
  | S n', String _ s' => drop n' s'
  | S _, EmptyString => EmptyString
  end.

Definition lit (p s : string) : result string :=
  if String.prefix p s then Ok (drop (String.length p) s)
  else Raise IndexError.

Fixpoint take_digits (s : string) : string * string :=
  match s with
  | EmptyString => (EmptyString, EmptyString)
  | String c s' =>
      if isdigit c
      then let '(d, r) := take_digits s' in (String c d, r)
      else (EmptyString, s)
  end.

Definition digits1 (s : string) : result (string * string) :=
  let '(d, r) := take_digits s in
  if String.eqb d EmptyString then Raise IndexError else Ok (d, r).

Fixpoint upto_nl (s : string) : string :=
  match s with
  | EmptyString => EmptyString
  | String c s' => if Ascii.eqb c nl then EmptyString else String c (upto_nl s')
  end.

(** The header expression of source line 227 matched at the head of
    [s]: the four numbers and the trailer. *)
Definition match_header (s : string)
  : result (string * string * string * string * string) :=
  r <- lit "@@ -" s ;;
  '(c0, r) <- digits1 r ;;
  r <- lit "," r ;;
  '(c1, r) <- digits1 r ;;
  r <- lit " +" r ;;
  '(c2, r) <- digits1 r ;;
  r <- lit "," r ;;
  '(c3, r) <- digits1 r ;;
  r <- lit " @@" r ;;
  Ok (c0, c1, c2, c3, upto_nl r).

(** [re.findall(pattern, s)[0]]: the leftmost match, [IndexError] when
    there is none. *)
Fixpoint first_match {A} (m : string -> result A) (s : string) : result A :=
  match m s with
  | Ok a => Ok a
  | Raise e =>
      match s with
      | EmptyString => Raise IndexError
      | String _ s' => first_match m s'
      end
  end.

Definition find_header : string -> result (string * string * string * string * string) :=
  first_match match_header.

(** [re.findall(...)[0]] for a literal [marker] followed by a capture
    group that takes the rest of the line. *)
Definition find_after (marker : string) : string -> result string :=
  first_match (fun s => r <- lit marker s ;; Ok (upto_nl r)).

(** Source lines 170-174: a line without a tag becomes a context line. *)
Definition fix_prefix (line : string) : string :=
  if startswith line "+" || startswith line "-" || startswith line " "
  then line else (" " ++ line)%string.

(** [line[0]] of a non-empty line, as a string. *)
Definition sign_of (line : string) : string := String.substring 0 1 line.

(** [sum(1 for line in l if not p(line))] *)
Definition count_not (p : string -> bool) (l : list string) : nat :=
  List.length (filter (fun line => negb (p line)) l).

(** Source lines 165-166: an empty last line, or the marker of a
    missing final newline, is dropped. *)
Definition strip_trailer (lines : list string) : result (list string) :=
  last <- of_option (index lines (-1)) ;;
  Ok (if (String.length last =? 0)%nat
         || contains "\ No newline at end of file" last
      then slice_to lines (-1) else lines).

Section ReviseHunk.

Variable revise_context : bool.

(** Body of the rewrite loop (source lines 186-198); the state is
    [(i, revised_lines)]. *)
Definition rewrite_step (target_file_lines : list string) (lineno : Z)
  (st : Z * list string) (line : string) : result (Z * list string) :=
  let '(i, revised_lines) := st in
  if startswith line " " || startswith line "-" then
    let sign := sign_of line in
    new_line <- of_option (index target_file_lines (lineno - 1 + i)) ;;
    if revise_context
    then Ok (i + 1, revised_lines ++ [(" " ++ strip_nl new_line)%string])
    else if String.eqb (remove_spaces (tail line)) (remove_spaces new_line)
    then Ok (i + 1, revised_lines ++ [(sign ++ strip_nl new_line)%string])
    else Ok (i + 1, revised_lines ++ [line])
  else Ok (i, revised_lines ++ [replace_apos_s line]).

(** Body of the loop that marks the removed lines again (source lines
    203-213); the state is [(last_line, revised_lines)]. *)
Definition mark_step (st : Z * list string) (line : string)
  : result (Z * list string) :=
  let '(last_line, revised_lines) := st in
  if negb (startswith line "-") then Ok st
  else
    let dline := [tail line] in
    '(dlineno, _) <-
      find_most_similar_block dline (slice_from revised_lines last_line) 1 true ;;
    let dlineno := dlineno + last_line in
    old <- of_option (index revised_lines (dlineno - 1)) ;;
    revised_lines <- assign revised_lines (dlineno - 1) ("-" ++ tail old)%string ;;
    Ok (dlineno, revised_lines).

(** Source lines 200-218. *)
Definition force_phase (tmp_lines target_file_lines : list string)
  (lineno i : Z) (revised_lines : list string) : result (list string) :=
  '(_, revised_lines) <- foldM mark_step tmp_lines (0, revised_lines) ;;
  last <- of_option (index revised_lines (-1)) ;;
  if negb (startswith last " ") then
    new_line <- of_option (index target_file_lines (lineno - 1 + i)) ;;
    Ok (revised_lines ++ [(" " ++ strip_nl new_line)%string])
  else Ok revised_lines.

(** Source lines 164-198 and 200-218: the rewritten body of the hunk
    and the original header line. *)
Definition revise_body (lines target_file_lines : list string)
  : result (string * list string) :=
  lines <- strip_trailer lines ;;
  let tmp_lines := map fix_prefix (slice_from lines 1) in
  let '(contexts, num_context, _, _) := extract_context tmp_lines in
  '(lineno, _) <-
    find_most_similar_block contexts target_file_lines num_context false ;;
  '(i, revised_lines) <-
    foldM (rewrite_step target_file_lines lineno) tmp_lines (0, []) ;;
  revised_lines <-
    (if revise_context
     then force_phase tmp_lines target_file_lines lineno i revised_lines
     else Ok revised_lines) ;;
  header <- of_option (index lines 0) ;;
  Ok (header, revised_lines).

(** Source lines 220-232 on top of [revise_body]. *)
Definition revise_hunk_parts (lines target_file_lines : list string)
  : result (hunk * bool) :=
  '(header, revised_lines) <- revise_body lines target_file_lines ;;
  let orignal_line_number :=
    count_not (fun line => startswith line "+") revised_lines in
  let patched_line_number :=
    count_not (fun line => startswith line "-") revised_lines in
  '(c0, _, c2, _, c4) <- find_header header ;;
  let fixed := negb (String.eqb c0 c2) in
  Ok (mk_hunk c0 orignal_line_number c2 patched_line_number c4 revised_lines,
      fixed).

Definition revise_hunk (lines target_file_lines : list string)
  : result (string * bool) :=
  '(h, fixed) <- revise_hunk_parts lines target_file_lines ;;
  Ok (render h, fixed).

End ReviseHunk.

(** ** [os.path.normpath] (POSIX) *)

(** One component of the path; [new_comps] is kept with its last
    element first. *)
Definition norm_step (initial_slashes : nat) (new_comps : list string)
  (comp : string) : list string :=
  if String.eqb comp "" || String.eqb comp "." then new_comps
  else if negb (String.eqb comp "..")
          || (Nat.eqb initial_slashes 0 && match new_comps with [] => true | _ => false end)
          || match new_comps with last :: _ => String.eqb last ".." | [] => false end
  then comp :: new_comps
  else match new_comps with
       | _ :: rest => rest
       | [] => new_comps
       end.

Fixpoint slashes (n : nat) : string :=
  match n with
  | O => EmptyString
  | S n' => String "/" (slashes n')
  end.

Definition normpath (path : string) : string :=
  if String.eqb path "" then "."
  else
    let initial_slashes :=
      if startswith path "/"
      then if startswith path "//" && negb (startswith path "///")
           then 2%nat else 1%nat
      else 0%nat in
    let comps := split "/" path in
    let new_comps := fold_left (norm_step initial_slashes) comps [] in
    let path := (slashes initial_slashes ++ join "/" (rev new_comps))%string in
    if String.eqb path "" then "." else path.

(** ** [revise_patch]: the nested [revise_block] and the driver *)

(** [s.replace("a/--- ", "")] and [s.replace("b/--- ", "")]. *)
Fixpoint remove_dashes_after (side : ascii) (s : string) : string :=
  match s with
  | String c ((String "/" (String "-" (String "-" (String "-" (String " " rest))))) as s') =>
      if Ascii.eqb c side then remove_dashes_after side rest
      else String c (remove_dashes_after side s')
  | String c s' => String c (remove_dashes_after side s')
  | EmptyString => EmptyString
  end.

Section RevisePatch.

(** [read_file p] is the text of the file [os.path.join(project_path, p)],
    and [None] when opening or reading it raises. *)
Variable read_file : string -> option string.
Variable revise_context : bool.

(** Source lines 236-246: the path of a header line and its normal
    form; when the expression does not match, both are the line. *)
Definition header_path (marker : string) (lines : list string) (k : Z)
  : result (string * string) :=
  match (line <- of_option (index lines k) ;; find_after marker line) with
  | Ok file_path => Ok (file_path, normpath file_path)
  | Raise _ => line <- of_option (index lines k) ;; Ok (line, line)
  end.

(** Body of the hunk loop of [revise_block] (source lines 270-278); the
    state is [(last_line, fixed_lines, block_fixed)]. *)
Definition block_step (lines file_content : list string)
  (st : Z * list string * bool) (line_no : Z)
  : result (Z * list string * bool) :=
  let '(last_line, fixed_lines, block_fixed) := st in
  line <- of_option (index lines line_no) ;;
  if startswith line "@@" then
    if negb (last_line =? -1) then
      '(hunk_lines, hunk_fixed) <-
        revise_hunk revise_context (slice lines last_line line_no) file_content ;;
      Ok (line_no, fixed_lines ++ [hunk_lines], block_fixed || hunk_fixed)
    else Ok (line_no, fixed_lines, block_fixed)
  else Ok st.

Definition revise_block (lines : list string) : result (list string * bool) :=
  '(file_path_a, fixed_file_path_a) <- header_path "--- a/" lines 0 ;;
  '(file_path_b, fixed_file_path_b) <- header_path "+++ b/" lines 1 ;;
  let block_fixed :=
    negb (String.eqb file_path_a fixed_file_path_a)
    || negb (String.eqb file_path_b fixed_file_path_b) in
  if negb ((String.eqb file_path_a file_path_b
            && String.eqb fixed_file_path_a fixed_file_path_b)
           || String.eqb fixed_file_path_a "--- /dev/null"
           || String.eqb fixed_file_path_b "--- /dev/null")
  then Raise AssertionError
  else
    let fixed_lines :=
      [ remove_dashes_after "a" ("--- a/" ++ fixed_file_path_a)%string;
        remove_dashes_after "b" ("+++ b/" ++ fixed_file_path_b)%string ] in
    match read_file file_path_a with
    | None => Ok (lines, false)
    | Some content =>
        let file_content := map rstrip_nl (splitlines content) in
        '(last_line, fixed_lines, block_fixed) <-
          foldM (block_step lines file_content) (range2 2 (len lines))
                (-1, fixed_lines, block_fixed) ;;
        if negb (last_line =? -1) then
          '(hunk_lines, hunk_fixed) <-
            revise_hunk revise_context (slice_from lines last_line) file_content ;;
          Ok (fixed_lines ++ [hunk_lines], block_fixed || hunk_fixed)
        else Ok (fixed_lines, block_fixed)
    end.

(** A line that opens a file block. *)
Definition block_start (line : string) : bool :=
  startswith line "--- a/" || startswith line "--- /dev/null".

(** Body of the block loop of [revise_patch] (source lines 292-300);
    the state is [(last_line, fixed_lines, fixed)]. *)
Definition patch_step (lines : list string) (st : Z * list string * bool)
  (line_no : Z) : result (Z * list string * bool) :=
  let '(last_line, fixed_lines, fixed) := st in
  line <- of_option (index lines line_no) ;;
  if block_start line then
    if negb (last_line =? -1) then
      '(block_lines, block_fixed) <- revise_block (slice lines last_line line_no) ;;
      Ok (line_no, fixed_lines ++ block_lines, fixed || block_fixed)
    else Ok (line_no, fixed_lines, fixed)
  else Ok st.

(** After the block loop (source lines 301-306): the last block, and
    the text that is returned. *)
Definition patch_finish (lines : list string) (st : Z * list string * bool)
  : result (string * bool) :=
  let '(last_line, fixed_lines, fixed) := st in
  '(fixed_lines, fixed) <-
    (if negb (last_line =? -1) then
       '(block_lines, block_fixed) <- revise_block (slice_from lines last_line) ;;
       Ok (fixed_lines ++ block_lines, fixed || block_fixed)
     else Ok (fixed_lines, fixed)) ;;
  Ok ((join_nl fixed_lines ++ String nl EmptyString)%string, fixed).

(** The [try] part of [revise_patch] (source lines 287-306). *)
Definition revise_patch_try (patch : string) : result (string * bool) :=
  let lines := splitlines patch in
  st <- foldM (patch_step lines) (range (len lines)) (-1, [], false) ;;
  patch_finish lines st.

(** [revise_patch]: any exception gives the patch back with [False]. *)
Definition revise_patch (patch : string) : string * bool :=
  match revise_patch_try patch with
  | Ok r => r
  | Raise _ => (patch, false)
  end.

End RevisePatch.

(** ** [split_patch] *)

Definition blacklist : list string :=
  [ ".rst"; ".yaml"; ".yml"; ".md"; ".tcl"; "CHANGES"; "ANNOUNCE"; "NEWS";
    ".pem"; ".js"; ".sha1"; ".sha256"; ".uuid"; ".test"; "manifest"; ".xml";
    "_test.go"; ".json"; ".golden"; ".txt"; ".mdx" ].

Definition blacklisted (line : string) : bool :=
  existsb (endswith line) blacklist.

(** A generator body: the units yielded so far are threaded through,
    and they stay yielded when the body raises. *)
Definition gen (A : Type) : Type := list string -> list string * result A.

Definition gret {A} (a : A) : gen A := fun ys => (ys, Ok a).
Definition gbind {A B} (g : gen A) (k : A -> gen B) : gen B :=
  fun ys =>
    match g ys with
    | (ys', Ok a) => k a ys'
    | (ys', Raise e) => (ys', Raise e)
    end.
Definition glift {A} (r : result A) : gen A := fun ys => (ys, r).
Definition yield_all (xs : list string) : gen unit :=
  fun ys => (ys ++ xs, Ok tt).

Fixpoint gfold {S A} (f : S -> A -> gen S) (l : list A) (s : S) : gen S :=
  match l with
  | [] => gret s
  | x :: l' => gbind (f s x) (gfold f l')
  end.

(** The nested generator [split_block].  It can only raise on its first
    two statements, before any unit is yielded, so it is a list or an
    exception.  The loop state is [(last_line, yielded)]. *)
Definition split_block_step (file_path_line_a file_path_line_b : string)
  (lines : list string) (st : Z * list string) (line_no : Z)
  : Z * list string :=
  let '(last_line, out) := st in
  match index lines line_no with
  | Some line =>
      if startswith line "@@" then
        (line_no,
         if negb (last_line =? -1)
         then out ++ [(file_path_line_a ++ String nl EmptyString
                       ++ file_path_line_b ++ String nl EmptyString
                       ++ join_nl (slice lines last_line line_no))%string]
         else out)
      else st
  | None => st
  end.

Definition split_block (lines : list string) : result (list string) :=
  file_path_line_a <- of_option (index lines 0) ;;
  file_path_line_b <- of_option (index lines 1) ;;
  let '(last_line, out) :=
    fold_left (split_block_step file_path_line_a file_path_line_b lines)
              (range2 2 (len lines)) (-1, []) in
  if negb (last_line =? -1)
  then Ok (out ++ [(file_path_line_a ++ String nl EmptyString
                    ++ file_path_line_b ++ String nl EmptyString
                    ++ join_nl (slice_from lines last_line))%string])
  else Ok out.

Section SplitPatch.

Variable flag_commit : bool.

(** [for x in split_block(block): yield message + x] *)
Definition yield_block (message : string) (block : list string) : gen unit :=
  gbind (glift (split_block block))
        (fun xs => yield_all (map (String.append message) xs)).

(** One of the two [if] statements of the loop body (source lines
    360-376 and 377-393): [back] is 2 or 3 and [look] is 0 or 1.  The
    state is [(message, last_line)]. *)
Definition marker_step (lines : list string) (back look : Z)
  (st : string * Z) (line_no : Z) : gen (string * Z) :=
  let '(message, last_line) := st in
  gbind (if 0 <=? last_line
         then yield_block message
                (if flag_commit then slice lines last_line (line_no - back)
                 else slice lines last_line line_no)
         else gret tt)
    (fun _ =>
       let message :=
         if (last_line =? -1) && flag_commit
         then join_nl (slice_to lines (Z.max (line_no - back) 0))
         else message in
       gbind (glift (of_option (index lines (line_no + look))))
         (fun name =>
            gret (message, if blacklisted name then -2 else line_no))).

Definition split_step (lines : list string) (st : string * Z) (line_no : Z)
  : gen (string * Z) :=
  gbind (glift (of_option (index lines line_no)))
    (fun line =>
       gbind (if startswith line "--- a/"
              then marker_step lines 2 0 st line_no else gret st)
         (fun st =>
            if startswith line "--- /dev/null"
            then marker_step lines 3 1 st line_no else gret st)).

(** The [try] part of [split_patch] (source lines 356-396). *)
Definition split_patch_try (patch : string) : gen unit :=
  let lines := splitlines patch in
  gbind (gfold (split_step lines) (range (len lines)) ("", -1))
    (fun '(message, last_line) =>
       if 0 <=? last_line
       then yield_block message (slice_from lines last_line)
       else gret tt).

(** What the caller of the generator observes: the units it yields,
    how it ends, and what it writes to the log. *)
Record generated : Type := mk_generated {
  units : list string;
  ending : result unit;
  logged : list string
}.

(** [split_patch]: the [except] clause logs the failure and returns. *)
Definition split_patch (patch : string) : generated :=
  match split_patch_try patch [] with
  | (ys, Ok _) => mk_generated ys (Ok tt) []
  | (ys, Raise _) => mk_generated ys (Ok tt) ["Failed to split patch"]
  end.

End SplitPatch.

(** ** [find_most_similar_files] *)

(** Stable insertion sort on the distance, as [list.sort(key=...)]. *)
Fixpoint insert_by_distance (x : nat * string) (l : list (nat * string))
  : list (nat * string) :=
  match l with
  | [] => [x]
  | y :: l' =>
      if (fst x <=? fst y)%nat then x :: l
      else y :: insert_by_distance x l'
  end.

Definition sort_by_distance (l : list (nat * string)) : list (nat * string) :=
  fold_right insert_by_distance [] l.

(** [path.split("/")[-1]] *)
Definition basename (path : string) : string :=
  last (split "/" path) EmptyString.

(** [walk] lists the files below the search directory, as paths
    relative to it, in the order [os.walk] visits them. *)
Definition find_most_similar_files (target_filename : string)
  (walk : list string) : list string :=
  let similarity_list :=
    map (fun relative_path =>
           (Levenshtein.distance target_filename (basename relative_path),
            relative_path)) walk in
  map snd (firstn 5 (sort_by_distance similarity_list)).

End Utils.

Import Utils.

(* ================================================================== *)
(** * [src/tools/project.py] *)
(* ================================================================== *)

Module Project.

Definition NL : string := String nl EmptyString.

(** The fields of [Project] that the hunk and validation stages read or
    write.  What the stages send to the logger is left out.  So is the
    cache [symbol_map]: [_locate_symbol] fills it with the index of a
    ref on the first use of that ref and only reads it afterwards, and
    the index is the parameter [locate_symbol] of the stages that look
    a symbol up. *)
Record Project : Type := mk_project {
  err_msg : string;
  new_patch_parent : string;
  target_release : string;
  succeeded_patches : list string;
  context_mismatch_times : Z;
  round_succeeded : bool;
  all_hunks_applied_succeeded : bool;
  compile_succeeded : bool;
  testcase_succeeded : bool;
  poc_succeeded : bool
}.

Definition set_succeeded_patches (v : list string) (p : Project) : Project :=
  mk_project (err_msg p) (new_patch_parent p) (target_release p) v
    (context_mismatch_times p) (round_succeeded p)
    (all_hunks_applied_succeeded p) (compile_succeeded p)
    (testcase_succeeded p) (poc_succeeded p).
Definition set_context_mismatch_times (v : Z) (p : Project) : Project :=
  mk_project (err_msg p) (new_patch_parent p) (target_release p)
    (succeeded_patches p) v (round_succeeded p)
    (all_hunks_applied_succeeded p) (compile_succeeded p)
    (testcase_succeeded p) (poc_succeeded p).
Definition set_round_succeeded (v : bool) (p : Project) : Project :=
  mk_project (err_msg p) (new_patch_parent p) (target_release p)
    (succeeded_patches p) (context_mismatch_times p) v
    (all_hunks_applied_succeeded p) (compile_succeeded p)
    (testcase_succeeded p) (poc_succeeded p).
Definition set_compile_succeeded (v : bool) (p : Project) : Project :=
  mk_project (err_msg p) (new_patch_parent p) (target_release p)
    (succeeded_patches p) (context_mismatch_times p) (round_succeeded p)
    (all_hunks_applied_succeeded p) v
    (testcase_succeeded p) (poc_succeeded p).
Definition set_testcase_succeeded (v : bool) (p : Project) : Project :=
  mk_project (err_msg p) (new_patch_parent p) (target_release p)
    (succeeded_patches p) (context_mismatch_times p) (round_succeeded p)
    (all_hunks_applied_succeeded p) (compile_succeeded p)
    v (poc_succeeded p).
Definition set_poc_succeeded (v : bool) (p : Project) : Project :=
  mk_project (err_msg p) (new_patch_parent p) (target_release p)
    (succeeded_patches p) (context_mismatch_times p) (round_succeeded p)
    (all_hunks_applied_succeeded p) (compile_succeeded p)
    (testcase_succeeded p) v.

(** How a script run by [subprocess.Popen(...).communicate(timeout=...)]
    ends: the timeout expires, or the process exits with a return code
    and the text it wrote to its standard error.  The text it wrote to
    its standard output is not part of the outcome: every caller binds
    it to [_] and reads the second component only. *)
Inductive completed : Type :=
| TimeoutExpired
| Exited (returncode : Z) (stderr : string).

(** ** [_run_testcase] and [_run_poc] *)

Definition revise_advice : string :=
  ("Please revise the patch with above error message. "
   ++ "Or use tools `locate_symbol` and `viewcode` to re-check patch-related code snippet. "
   ++ "Please DO NOT send the same patch to me, repeated patches will harm the lives of others."
   ++ NL)%string.

Definition testcase_pass : string :=
  ("The patched source code could pass TESTCASE! I really thank you for your great efforts."
   ++ NL)%string.

Definition testcase_timeout : string :=
  "The TESTCASE process of the patched source code is timeout. ".

Definition testcase_failed (testcase_result : string) : string :=
  ("The patched program could not pass the testcase. "
   ++ "Next I'll give you the error message during running the testcase, and you should modify the previous error patch according to this section. "
   ++ "Here is the error message:" ++ NL ++ testcase_result ++ NL
   ++ revise_advice)%string.

(** [test_sh] is [None] when the project directory has no [test.sh],
    and otherwise tells how [bash test.sh] ends. *)
Definition _run_testcase (test_sh : option completed) (self : Project)
  : string * Project :=
  match test_sh with
  | None =>
      let self := set_testcase_succeeded true self in
      (testcase_pass, self)
  | Some TimeoutExpired => (testcase_timeout, self)
  | Some (Exited returncode testcase_result) =>
      if negb (returncode =? 0) then
        (testcase_failed testcase_result, set_compile_succeeded false self)
      else
        (testcase_pass, set_testcase_succeeded true self)
  end.

Definition poc_pass : string :=
  ("Existing PoC could NOT TRIGGER the bug, which means your patch successfully fix the bug! I really thank you for your great efforts."
   ++ NL)%string.

Definition poc_failed (poc_result : string) : string :=
  ("Existing PoC could still trigger the bug, which means your patch fail to fix the bug. "
   ++ "Next I'll give you the error message during running the PoC, and you should modify the previous error patch according to this section. "
   ++ "Here is the error message:" ++ NL ++ poc_result ++ NL
   ++ revise_advice)%string.

Definition _run_poc (poc_sh : option completed) (self : Project)
  (complete_patch : string) : string * Project :=
  match poc_sh with
  | None =>
      let self := set_poc_succeeded true self in
      (poc_pass, set_succeeded_patches [complete_patch] self)
  | Some TimeoutExpired => (testcase_timeout, self)
  | Some (Exited returncode poc_result) =>
      if contains (err_msg self) poc_result then
        (poc_failed poc_result,
         set_testcase_succeeded false (set_compile_succeeded false self))
      else
        (poc_pass,
         set_poc_succeeded true (set_succeeded_patches [complete_patch] self))
  end.

(** ** [_apply_file_move_handling] and [_apply_hunk] *)

(** [s.replace(old, new)]: [skip] counts the characters of a replaced
    occurrence that are still to be dropped. *)
Fixpoint replace_from (old new : string) (skip : nat) (s : string) : string :=
  match s with
  | EmptyString => EmptyString
  | String c s' =>
      match skip with
      | S k => replace_from old new k s'
      | O =>
          if String.prefix old s
          then (new ++ replace_from old new (String.length old - 1) s')%string
          else String c (replace_from old new 0 s')
      end
  end.

Fixpoint insert_around (new s : string) : string :=
  match s with
  | EmptyString => new
  | String c s' => (new ++ String c (insert_around new s'))%string
  end.

Definition replace (old new s : string) : string :=
  if String.eqb old "" then insert_around new s
  else replace_from old new 0 s.

(** The expression [\b\w+(?=\s*[{\(])]: a whole word that is followed,
    after optional white space, by a brace or a parenthesis. *)
Fixpoint take_word (s : string) : string * string :=
  match s with
  | EmptyString => (EmptyString, EmptyString)
  | String c s' =>
      if isword c
      then let '(w, r) := take_word s' in (String c w, r)
      else (EmptyString, s)
  end.

Definition opens_scope (r : string) : bool :=
  match lstrip_by isspace r with
  | String c _ => Ascii.eqb c "{" || Ascii.eqb c "("
  | EmptyString => false
  end.

(** [re.findall(...)[0]] for that expression; [after_word] tells whether
    the previous character is a word character. *)
Fixpoint find_symbol_from (after_word : bool) (s : string) : result string :=
  match s with
  | EmptyString => Raise IndexError
  | String c s' =>
      if isword c && negb after_word then
        let '(w, r) := take_word s in
        if opens_scope r then Ok w else find_symbol_from true s'
      else find_symbol_from (isword c) s'
  end.
Definition find_symbol : string -> result string := find_symbol_from false.

Definition moved_to (missing_file_path file_path : string) : string :=
  (missing_file_path ++ " has been moved to " ++ file_path
   ++ ". Please use --- a/" ++ file_path ++ " in your patch." ++ NL)%string.

Definition applied : string := ("Patch applied successfully" ++ NL)%string.

Definition corrupt_patch : string :=
  ("Unexpected corrupt patch, Please carefully check your answer, especially in your call tools arguments."
   ++ NL)%string.

Definition context_mismatch : string :=
  ("This patch does not apply because of CONTEXT MISMATCH. Context are patch lines that already exist in the file, that is, lines starting with ` ` and `-`. You should modify the error patch according to the context of older version."
   ++ NL)%string.

Section Repository.

(** The repository and the tools around it.
    - [git_diff_renamed a b path]: the output of [git diff
      --diff-filter=R --name-status --follow a b -- path];
    - [locate_symbol ref symbol]: the entry of [symbol] in the index that
      [ctags] builds for [ref];
    - [walk]: the files below the project directory, in [os.walk] order;
    - [read_file ref path]: the text of [path] in the checkout of [ref];
    - [git_apply ref patch]: [None] when [git apply] accepts the patch on
      a clean checkout of [ref], else the standard error of the command;
    - [repr_paths]: the text Python prints for a list of strings;
    - [_apply_error_handling]: the diagnostic of a context mismatch. *)
Variable git_diff_renamed : string -> string -> string -> string.
Variable locate_symbol : string -> string -> option (list (string * Z)).
Variable walk : list string.
Variable read_file : string -> string -> option string.
Variable git_apply : string -> string -> option string.
Variable repr_paths : list string -> string.
Variable _apply_error_handling : string -> string -> result (string * string).

(** Source lines 372-387: the path the file has at the target release,
    when [git diff] reports a rename. *)
Definition renamed_path (self : Project) (missing_file_path : string)
  : result (list string) :=
  let file_diff :=
    git_diff_renamed (target_release self) (new_patch_parent self)
                     missing_file_path in
  if negb (String.eqb file_diff "")
  then file_path <- of_option (index (split tab file_diff) 1) ;; Ok [file_path]
  else Ok [].

(** Source lines 395-396: the symbol named on the third line of the
    patch, which is the [@@] line of a single hunk. *)
Definition trailer_symbol (old_patch : string) : result string :=
  at_line <- of_option (index (split nl old_patch) 2) ;;
  find_symbol at_line.

(** Source lines 367-412: the paths to try, in order. *)
Definition candidate_paths (self : Project) (ref old_patch missing_file_path : string)
  : result (list string) :=
  file_paths <- renamed_path self missing_file_path ;;
  match file_paths with
  | [] =>
      match trailer_symbol old_patch with
      | Ok symbol_name =>
          match locate_symbol ref symbol_name with
          | Some ((_ :: _) as symbol_locations) => Ok (map fst symbol_locations)
          | _ => Ok (find_most_similar_files (basename missing_file_path) walk)
          end
      | Raise _ =>
          Ok (find_most_similar_files (basename missing_file_path) walk)
      end
  | _ => Ok file_paths
  end.

Section OpenRecursion.

(** [self._apply_hunk], as [_apply_file_move_handling] calls it. *)
Variable apply_hunk : Project -> string -> string -> bool -> result (string * Project).

(** Source lines 415-427; [ret] collects the outcomes of the failed
    attempts. *)
Fixpoint try_paths (self : Project) (ref old_patch missing_file_path : string)
  (all_paths file_paths : list string) (ret : string)
  : result (string * Project) :=
  match file_paths with
  | [] =>
      Ok (("The target file has been moved, here is possible file paths:"
           ++ repr_paths all_paths ++ NL ++ ret)%string, self)
  | file_path :: rest =>
      let new_patch := replace missing_file_path file_path old_patch in
      '(apply_ret, self) <- apply_hunk self ref new_patch false ;;
      if contains "successfully" apply_ret
      then Ok (moved_to missing_file_path file_path, self)
      else try_paths self ref old_patch missing_file_path all_paths rest
                     (ret ++ apply_ret)%string
  end.

Definition _apply_file_move_handling (self : Project) (ref old_patch : string)
  : result (string * Project) :=
  missing_file_path <- find_after "--- a/" old_patch ;;
  file_paths <- candidate_paths self ref old_patch missing_file_path ;;
  try_paths self ref old_patch missing_file_path file_paths file_paths "".

(** Source lines 444-476, with the call of [_apply_file_move_handling]
    going through [apply_hunk]. *)
Definition apply_hunk_body (self : Project) (ref patch : string)
  (revise_context : bool) : result (string * Project) :=
  let '(revised_patch, fixed) :=
    revise_patch (read_file ref) revise_context patch in
  match git_apply ref revised_patch with
  | None =>
      Ok (applied,
          set_round_succeeded true
            (set_succeeded_patches (succeeded_patches self ++ [revised_patch]) self))
  | Some stderr =>
      if contains "No such file" stderr then
        _apply_file_move_handling self ref revised_patch
      else if contains "corrupt patch" stderr then Ok (corrupt_patch, self)
      else
        '(block, differ) <- _apply_error_handling ref revised_patch ;;
        Ok ((context_mismatch ++ block
             ++ "Besides, here is detailed info about how the context differs between the patch and the old version."
             ++ NL ++ differ)%string, self)
  end.

End OpenRecursion.

(** [_apply_hunk] and [_apply_file_move_handling] call each other;
    [depth] is the number of nested calls the interpreter still allows,
    after which it raises [RecursionError]. *)
Fixpoint _apply_hunk (depth : nat) (self : Project) (ref patch : string)
  (revise_context : bool) : result (string * Project) :=
  match depth with
  | O => Raise RecursionError
  | S d => apply_hunk_body (_apply_hunk d) self ref patch revise_context
  end.

(** ** [_validate] *)

(** [_compile_patch] is the stage before the ones modelled here; it may
    end the process ([exit(0)] on a compile timeout). *)
Variable _compile_patch :
  Project -> string -> string -> bool -> result (string * Project).
Variable test_sh : option completed.
Variable poc_sh : option completed.
Variable depth : nat.

Definition _validate (self : Project) (ref patch : string)
  : result (string * Project) :=
  if all_hunks_applied_succeeded self then
    '(ret, self) <-
      (if negb (compile_succeeded self) then
         '(r, self) <-
           _compile_patch self ref patch (1 <=? context_mismatch_times self) ;;
         Ok (r, set_context_mismatch_times (context_mismatch_times self + 1) self)
       else Ok ("", self)) ;;
    let '(ret, self) :=
      if compile_succeeded self && negb (testcase_succeeded self)
      then let '(r, self) := _run_testcase test_sh self in
           ((ret ++ r)%string, self)
      else (ret, self) in
    let '(ret, self) :=
      if compile_succeeded self && testcase_succeeded self
         && negb (poc_succeeded self)
      then let '(r, self) := _run_poc poc_sh self patch in
           ((ret ++ r)%string, self)
      else (ret, self) in
    Ok (ret, self)
  else if contains "need not ported" patch then
    Ok (applied, set_round_succeeded true self)
  else
    '(ret, self) <-
      _apply_hunk depth self ref patch (2 <=? context_mismatch_times self) ;;
    Ok (ret,
        if contains "CONTEXT MISMATCH" ret
        then set_context_mismatch_times (context_mismatch_times self + 1) self
        else self).

End Repository.

(** ** [_viewcode] *)

(** [str(n)] for an integer, as an f-string prints it. *)
Definition str_of_int (n : Z) : string :=
  if n <? 0 then ("-" ++ str_of_nat (Z.to_nat (- n)))%string
  else str_of_nat (Z.to_nat n).

Definition viewcode_missing : string :=
  "This file doesn't exist in this commit.".

Definition viewcode_short (total startline endline : Z) : string :=
  ("This file only has " ++ str_of_int total ++ " lines. Here are lines "
   ++ str_of_int startline ++ " through " ++ str_of_int endline ++ "."
   ++ NL)%string.

Definition viewcode_lines (startline endline : Z) : string :=
  ("Here are lines " ++ str_of_int startline ++ " through "
   ++ str_of_int endline ++ "." ++ NL)%string.

Definition viewcode_advice : string :=
  (NL ++ "Based on the previous information, think carefully do you see the target code? You may want to keep checking if you don't."
   ++ NL)%string.

(** [tree_file ref path] is the decoded text of [path] in the tree of
    [ref], and [None] when the tree has no such entry. *)
Definition _viewcode (tree_file : string -> string -> option string)
  (ref path : string) (startline endline : Z) : result string :=
  match tree_file ref path with
  | None => Ok viewcode_missing
  | Some content =>
      let lines := split nl content in
      let '(startline, endline, ret) :=
        if len lines <? endline then
          let startline := startline - (endline - len lines) in
          let endline := len lines in
          (startline, endline,
           [viewcode_short (len lines) startline endline])
        else (startline, endline, [viewcode_lines startline endline]) in
      ret <- foldM (fun ret i =>
                      line <- of_option (index lines i) ;;
                      Ok (ret ++ [line]))
                   (range2 (startline - 1) endline) ret ;;
      Ok (join_nl ret ++ viewcode_advice)%string
  end.

(** ** [_locate_similar_symbol] *)

(** The index that [ctags] gives for one ref: a [dict] from a symbol to
    its places, in the order of insertion. *)
Definition symbol_index : Type := list (string * list (string * Z)).

(** [symbols.get(key)] *)
Fixpoint get (symbols : symbol_index) (key : string)
  : option (list (string * Z)) :=
  match symbols with
  | [] => None
  | (symbol_i, places) :: rest =>
      if String.eqb symbol_i key then Some places else get rest key
  end.

(** Body of the loop (source lines 159-164); the state is
    [(most_similar, smallest_distance)]. *)
Definition similar_step (symbol : string) (st : option string * dist)
  (symbol_i : string) : option string * dist :=
  let '(most_similar, smallest_distance) := st in
  let distance := Levenshtein.distance symbol symbol_i in
  if dist_ltb distance smallest_distance
  then (Some symbol_i, Fin distance)
  else (most_similar, smallest_distance).

(** [symbol_map ref] is [None] when no index was built for [ref]; the
    key [None] of [symbols.get(most_similar)] is in no index. *)
Definition _locate_similar_symbol (symbol_map : string -> option symbol_index)
  (ref symbol : string) : option (list (string * Z)) * option string :=
  let symbols := match symbol_map ref with
                 | Some symbols => symbols
                 | None => []
                 end in
  let '(most_similar, _) :=
    fold_left (similar_step symbol) (map fst symbols) (None, Inf) in
  (match most_similar with
   | Some key => get symbols key
   | None => None
   end, most_similar).

(** ** [_compile_patch] *)

(** [c.lower()] and [s.lower()] *)
Definition lower_char (c : ascii) : ascii :=
  if between 65 90 c
     || (between 192 222 c && negb (between 215 215 c))
  then ascii_of_nat (nat_of_ascii c + 32)
  else c.

Fixpoint lower (s : string) : string :=
  match s with
  | EmptyString => EmptyString
  | String c s' => String (lower_char c) (lower s')
  end.

Definition apply_failure (idx : nat) (block differ : string) : string :=
  ("For the patch you just generated, there was an APPLY failure during testing. Specifically there was a context mismatch in hunk "
   ++ str_of_nat idx
   ++ " across the patch, below is part of the feedback I found for you."
   ++ NL ++ block
   ++ "Here is the source code near the hunk context for your reference, a good patch context should look exactly like the source code."
   ++ NL
   ++ "In addition to that, I've got more detailed error messages for you below where the context of your generated patch differs specifically from the source code context.(The line numbers below are all line numbers in the hunk, not the entire patch.)"
   ++ NL ++ differ
   ++ "Based on the above feedback, MUST you please modify only hunk "
   ++ str_of_nat idx
   ++ " in the patch and leave the other hunks untouched so that the context present in hunk "
   ++ str_of_nat idx
   ++ " is exactly the same as the source code to guarantee that git apply can be executed normally."
   ++ NL)%string.

Definition compile_pass : string :=
  ("The patched source code could be COMPILED successfully! I really thank you for your great efforts."
   ++ NL)%string.

(** Source lines 578-584. *)
Definition error_lines (compile_result : string) : string :=
  join_nl (filter (fun line => contains "error:" (lower line))
                  (splitlines compile_result)).

Definition compile_failed (compile_result : string) : string :=
  ("The source code could not be COMPILED successfully after applying the patch. "
   ++ "Next I'll give you the error message during compiling, and you should modify the error patch. "
   ++ "Here is the error message:" ++ NL ++ error_lines compile_result ++ NL
   ++ revise_advice)%string.

Section CompileStage.

(** The working tree of the project directory.
    - [checkout ref]: the tree after [git reset --hard] and
      [git checkout ref];
    - [tree_read tree path]: the text of [path] in the tree;
    - [tree_apply tree patch]: the tree after [git apply] of the patch,
      and [None] when the command fails;
    - [build_sh tree]: [None] when the tree has no [build.sh], else how
      the build in the container ends;
    - [_apply_error_handling]: the diagnostic of a context mismatch. *)
Variable worktree : Type.
Variable checkout : string -> worktree.
Variable tree_read : worktree -> string -> option string.
Variable tree_apply : worktree -> string -> option worktree.
Variable build_sh : worktree -> option completed.
Variable _apply_error_handling : string -> string -> result (string * string).

(** The loop over the units of the patch (source lines 502-525): the
    tree after the last unit, or the number and the revised text of the
    unit that [git apply] refuses. *)
Fixpoint apply_units (revise_context : bool) (tree : worktree) (idx : nat)
  (pps : list string) : worktree + nat * string :=
  match pps with
  | [] => inl tree
  | pp :: rest =>
      let '(revised_patch, fixed) :=
        revise_patch (tree_read tree) revise_context pp in
      match tree_apply tree revised_patch with
      | Some tree' => apply_units revise_context tree' (S idx) rest
      | None => inr (idx, revised_patch)
      end
  end.

(** A build that runs out of time ends the process by [exit(0)]. *)
Definition _compile_patch (self : Project) (ref complete_patch : string)
  (revise_context : bool) : result (string * Project) :=
  let pps := units (split_patch false complete_patch) in
  match apply_units revise_context (checkout ref) 0 pps with
  | inr (idx, revised_patch) =>
      '(block, differ) <- _apply_error_handling ref revised_patch ;;
      Ok (apply_failure idx block differ, self)
  | inl tree =>
      match build_sh tree with
      | None => Ok (compile_pass, set_compile_succeeded true self)
      | Some TimeoutExpired => Raise SystemExit
      | Some (Exited returncode compile_result) =>
          if negb (returncode =? 0)
          then Ok (compile_failed compile_result, self)
          else Ok (compile_pass, set_compile_succeeded true self)
      end
  end.

End CompileStage.

End Project.

Import Project.

(* ================================================================== *)
(** * Vocabulary of the stated properties *)
(* ================================================================== *)

(** The suffixes of a text, longest first. *)
Fixpoint suffixes (t : string) : list string :=
  t :: match t with
       | EmptyString => []
       | String _ t' => suffixes t'
       end.

(** The window of [p_len] lines of [main] that starts at the 0-based
    position [k], and its distance to the pattern. *)
Definition window (main : list string) (p_len k : nat) : list string :=
  firstn p_len (skipn k main).

Definition window_distance (pattern main : list string) (k : nat) : nat :=
  Levenshtein.distance (join_nl (window main (List.length pattern) k))
                       (join_nl pattern).

(** The number of windows of [p_len] lines in [main]. *)
Definition windows (main : list string) (p_len : nat) : nat :=
  (List.length main + 1 - p_len)%nat.

(** [b] is the earliest window among those of least distance. *)
Definition earliest_best (pattern main : list string) (b : nat) : Prop :=
  (b < windows main (List.length pattern))%nat
  /\ (forall k, (k < windows main (List.length pattern))%nat ->
                (window_distance pattern main b <= window_distance pattern main k)%nat)
  /\ (forall k, (k < b)%nat ->
                (window_distance pattern main b < window_distance pattern main k)%nat).

(** An expected line the offset correction looks at. *)
Definition meaningful (p : string) : Prop :=
  (3 <= String.length (strip p))%nat.

(** What the [j] loop finds for the expected line [p] at the offset
    [j]: the element [main[lineno - 1 + j]], as the list gives it, equals
    [p] once both are trimmed. *)
Definition seen (main : list string) (lineno : Z) (p : string) (j : Z) : Prop :=
  -5 <= j <= 5
  /\ exists m, index main (lineno - 1 + j) = Some m /\ strip p = strip m.

(** The expected line [p] has an exact trimmed match [j] lines away
    from the 1-based line [lineno] of [main]: the list has a line
    [lineno + j], counted from 1, and it equals [p] once both are
    trimmed. *)
Definition hit (main : list string) (lineno : Z) (p : string) (j : Z) : Prop :=
  -5 <= j <= 5
  /\ 1 <= lineno + j
  /\ exists m, nth_error main (Z.to_nat (lineno + j - 1)) = Some m
               /\ strip p = strip m.

(** The position of the first meaningful line of a block. *)
Fixpoint first_meaningful (pattern : list string) : option nat :=
  match pattern with
  | [] => None
  | p :: rest =>
      if (String.length (strip p) <? 3)%nat
      then option_map S (first_meaningful rest)
      else Some 0%nat
  end.

(** What the [j] loop holds after the offsets [js] for the expected
    line [p] at position [i]: nothing, or the match nearest to [i]. *)
Definition offset_found (main : list string) (lineno : Z) (p : string)
  (i : Z) (js : list Z) (st : bool * option Z) : Prop :=
  let matches j :=
    exists m, index main (lineno - 1 + j) = Some m /\ strip p = strip m in
  (st = (false, None) /\ forall j, In j js -> ~ matches j)
  \/ exists j, In j js /\ matches j /\ st = (true, Some (j - i))
       /\ forall j', In j' js -> matches j' -> Z.abs (j - i) <= Z.abs (j' - i).

(** The alignment as the design document words it, without the offset
    correction: the earliest window of least distance is returned with
    its distance. *)
Definition aligns_on_earliest_best (pattern main : list string) : Prop :=
  exists b, earliest_best pattern main b
    /\ find_most_similar_block pattern main (len pattern) false
       = Ok (Z.of_nat b + 1, Fin (window_distance pattern main b)).

(** The offset correction as the design document words it: every
    expected line with at least three characters that are not white
    space is compared, trimmed, with the lines at most five away from
    the chosen start; the offset of least magnitude over all the
    expected lines is the shift. *)
Definition stated_offsets_of (main : list string) (lineno : Z)
  (i : nat) (p : string) : list Z :=
  flat_map
    (fun j =>
       let pos := lineno - 1 + j in
       if 0 <=? pos then
         match nth_error main (Z.to_nat pos) with
         | Some m => if String.eqb (strip p) (strip m)
                     then [j - Z.of_nat i] else []
         | None => []
         end
       else [])
    (range2 (-5) 6).

Fixpoint stated_offsets (main : list string) (lineno : Z) (i : nat)
  (pattern : list string) : list Z :=
  match pattern with
  | [] => []
  | p :: rest =>
      (if (3 <=? String.length (remove_spaces p))%nat
       then stated_offsets_of main lineno i p else [])
      ++ stated_offsets main lineno (S i) rest
  end.

Definition smallest_magnitude (offsets : list Z) : option Z :=
  fold_left
    (fun acc o =>
       match acc with
       | None => Some o
       | Some a => if Z.abs o <? Z.abs a then Some o else acc
       end)
    offsets None.

Definition stated_start (pattern main : list string) (lineno : Z) : Z :=
  match smallest_magnitude (stated_offsets main lineno 0 pattern) with
  | Some o => lineno + o
  | None => lineno
  end.

Definition shifts_by_smallest_offset (pattern main : list string) : Prop :=
  forall best d,
    scan pattern main (len pattern) false = Ok (best, d) ->
    find_most_similar_block pattern main (len pattern) false
    = Ok (stated_start pattern main best, d).

(** Idempotence as the design document words it: a block copied from
    the lines [i .. i + len) of the file aligns at [i] with distance 0. *)
Definition exact_copy (pattern main : list string) (k : nat) : Prop :=
  pattern = window main (List.length pattern) k
  /\ (k + List.length pattern <= List.length main)%nat.

Definition aligns_where_copied (pattern main : list string) (k : nat) : Prop :=
  exact_copy pattern main k ->
  find_most_similar_block pattern main (len pattern) false
  = Ok (Z.of_nat k + 1, Fin 0).



(** [self.context_mismatch_times += 1] *)
Definition bump (self : Project) : Project :=
  set_context_mismatch_times (context_mismatch_times self + 1) self.

(** The splitter as the design document words it: after a parse
    failure the sequence holds no unit. *)
Definition parse_failure_yields_nothing : Prop :=
  forall (flag_commit : bool) (patch : string),
    logged (split_patch flag_commit patch) <> [] ->
    units (split_patch flag_commit patch) = [].

(** A generator body that only adds to the units already yielded. *)
Definition appends {A} (g : gen A) : Prop :=
  forall ys, exists zs, fst (g ys) = ys ++ zs.

(** The three kinds of hunk line. *)
Definition is_context (line : string) : bool := startswith line " ".
Definition is_removed (line : string) : bool := startswith line "-".
Definition is_added (line : string) : bool := startswith line "+".

Definition tagged (line : string) : bool :=
  is_context line || is_removed line || is_added line.

(** A line of the old file: context or removed. *)
Definition is_old (line : string) : bool := is_context line || is_removed line.

Definition count (p : string -> bool) (l : list string) : nat :=
  List.length (filter p l).

(** The body lines of a hunk as the rewrite loop reads them. *)
Definition body_lines (lines : list string) : list string :=
  map fix_prefix (slice_from lines 1).

(** The position in the real file that faces the body line [k]: the
    aligned start plus the number of old lines before [k]. *)
Definition facing (lineno : Z) (tmp_lines : list string) (k : nat) : Z :=
  lineno - 1 + Z.of_nat (count is_old (firstn k tmp_lines)).

(** What whitespace-only repair makes of an old line that faces
    [new_line]. *)
Definition whitespace_repair (line new_line : string) : string :=
  if String.eqb (remove_spaces (tail line)) (remove_spaces new_line)
  then (sign_of line ++ strip_nl new_line)%string
  else line.

(** A list of fallible steps, left to right. *)
Fixpoint mapM {A B} (f : A -> result B) (l : list A) : result (list B) :=
  match l with
  | [] => Ok []
  | x :: l' => y <- f x ;; ys <- mapM f l' ;; Ok (y :: ys)
  end.

(** The file blocks of a patch: a block opens on a line that starts
    with [--- a/] or [--- /dev/null] and runs up to the next such line;
    the lines before the first block belong to no block.  [cur] is the
    block that is open, if any. *)
Fixpoint blocks_from (cur : option (list string)) (lines : list string)
  : list (list string) :=
  match lines with
  | [] => match cur with Some b => [b] | None => [] end
  | x :: rest =>
      if block_start x
      then match cur with Some b => [b] | None => [] end
           ++ blocks_from (Some [x]) rest
      else blocks_from (option_map (fun b => b ++ [x]) cur) rest
  end.

Definition blocks_of (lines : list string) : list (list string) :=
  blocks_from None lines.

(** The text and the flag that repair builds from the outcomes of the
    blocks. *)
Definition assemble (rs : list (list string * bool)) : string * bool :=
  ((join_nl (List.concat (map fst rs)) ++ String nl EmptyString)%string,
   existsb snd rs).

(** Repair as the design document words it: a block whose repair raises
    is given back as it is, with a false flag, and the other blocks are
    repaired all the same. *)
Definition repaired_or_kept (read_file : string -> option string)
  (revise_context : bool) (block : list string) : list string * bool :=
  match revise_block read_file revise_context block with
  | Ok r => r
  | Raise _ => (block, false)
  end.

Definition repairs_block_by_block (read_file : string -> option string)
  (revise_context : bool) (patch : string) : Prop :=
  revise_patch read_file revise_context patch
  = assemble (map (repaired_or_kept read_file revise_context)
                  (blocks_of (splitlines patch))).

(** The check of source lines 251-255 on the two paths of a block. *)
Definition paths_agree (a fa b fb : string) : bool :=
  (String.eqb a b && String.eqb fa fb)
  || String.eqb fa "--- /dev/null" || String.eqb fb "--- /dev/null".

(** Two files, and a patch of two blocks whose second hunk has a header
    that the header expression does not match. *)
Definition two_files (p : string) : option string :=
  if String.eqb p "f.c" then Some "int a;
  int b;
"
  else if String.eqb p "g.c" then Some "x
"
  else None.

Definition patch_with_bad_header : string :=
"--- a/f.c
+++ b/f.c
@@ -1,2 +1,2 @@
 int a;
 int b;
--- a/g.c
+++ b/g.c
@@ broken @@
 x
".

(** The attempts on the candidate paths that come before the one that
    succeeds: each ends without an exception and without the word
    [successfully]; the result is the project state after them. *)
Fixpoint failed_attempts
  (apply_hunk : Project -> string -> string -> bool -> result (string * Project))
  (ref old_patch missing_file_path : string) (paths : list string)
  (self : Project) : option Project :=
  match paths with
  | [] => Some self
  | file_path :: rest =>
      match apply_hunk self ref (replace missing_file_path file_path old_patch)
                       false with
      | Ok (apply_ret, self') =>
          if contains "successfully" apply_ret then None
          else failed_attempts apply_hunk ref old_patch missing_file_path
                               rest self'
      | Raise _ => None
      end
  end.

(** The distance of a repository file to the missing file name. *)
Definition name_distance (target_filename relative_path : string) : nat :=
  Levenshtein.distance target_filename (basename relative_path).

(** What the scan holds after the first [n] windows. *)
Definition scanned (pattern main : list string) (n : nat) (st : Z * dist)
  : Prop :=
  (n = 0%nat /\ st = (1, Inf))
  \/ exists b, (b < n)%nat
       /\ st = (Z.of_nat b + 1, Fin (window_distance pattern main b))
       /\ (forall k, (k < n)%nat ->
             (window_distance pattern main b <= window_distance pattern main k)%nat)
       /\ (forall k, (k < b)%nat ->
             (window_distance pattern main b < window_distance pattern main k)%nat).

(** An expected line the loop passes over: short, or without a match. *)
Definition passed (pattern main : list string) (lineno i : Z) : Prop :=
  exists p, index pattern i = Some p
            /\ (meaningful p -> forall j, ~ seen main lineno p j).

(** Every line of a hunk body has a tag. *)
Definition all_tagged (l : list string) : Prop :=
  Forall (fun line => tagged line = true) l.

(** The order of the similarity list. *)
Definition nearer (x y : nat * string) : Prop := (fst x <= fst y)%nat.

(** The block that is open after the lines [done], the last marker
    being at [last]. *)
Definition open_block (last : Z) (done : list string)
  : option (list string) :=
  if last =? -1 then None else Some (skipn (Z.to_nat last) done).

(** Repair of the open block and of the blocks of [todo], added to
    what the earlier blocks gave. *)
Definition repair_rest (read_file : string -> option string)
  (revise_context : bool) (cur : option (list string)) (todo : list string)
  (fixed_lines : list string) (fixed : bool) : result (string * bool) :=
  rs <- mapM (revise_block read_file revise_context) (blocks_from cur todo) ;;
  Ok ((join_nl (fixed_lines ++ List.concat (map fst rs))
       ++ String nl EmptyString)%string,
      fixed || existsb snd rs).

(** A repository in which [src/f.c] of the new version is [lib/f.c] at
    the target release. *)
Definition moved_git_diff (a b path : string) : string :=
  if String.eqb path "src/f.c"
  then ("R100" ++ String tab "lib/f.c" ++ String tab "src/f.c")%string
  else "".

Definition moved_read_file (ref path : string) : option string :=
  if String.eqb path "lib/f.c" then Some "int a;
int b;
"
  else None.

Definition moved_git_apply (ref patch : string) : option string :=
  if contains "--- a/lib/f.c" patch then None
  else Some "error: src/f.c: No such file or directory".

Definition patch_on_moved_file : string :=
"--- a/src/f.c
+++ b/src/f.c
@@ -1,2 +1,3 @@
 int a;
+int x;
 int b;
".

Definition new_project : Project :=
  mk_project "no err_msg" "new~1" "v1" [] 0 false false false false false.

(** A window the scan may choose when mutated lines are excluded: its
    first line starts with neither [+] nor [-]. *)
Definition eligible (main : list string) (k : nat) : Prop :=
  exists m, nth_error main k = Some m /\ mutated m = false.

(** What the scan with the exclusion on holds after the first [n]
    windows. *)
Definition scanned_eligible (pattern main : list string) (n : nat)
  (st : Z * dist) : Prop :=
  (st = (1, Inf) /\ forall k, (k < n)%nat -> ~ eligible main k)
  \/ exists b, (b < n)%nat /\ eligible main b
       /\ st = (Z.of_nat b + 1, Fin (window_distance pattern main b))
       /\ (forall k, (k < n)%nat -> eligible main k ->
             (window_distance pattern main b <= window_distance pattern main k)%nat)
       /\ (forall k, (k < b)%nat -> eligible main k ->
             (window_distance pattern main b < window_distance pattern main k)%nat).

(** Two hunk lines of the same kind. *)
Definition same_tag (a b : string) : Prop :=
  is_context a = is_context b
  /\ is_removed a = is_removed b
  /\ is_added a = is_added b.

(** What the forced rewrite makes of an old line that faces [new_line]. *)
Definition forced_repair (new_line : string) : string :=
  (" " ++ strip_nl new_line)%string.

(** A line after the removed lines were marked again: as it was, or
    with its tag turned into [-]. *)
Definition remarked (a b : string) : Prop :=
  b = a \/ b = ("-" ++ tail a)%string.

(** A line that opens a hunk. *)
Definition hunk_start (line : string) : bool := startswith line "@@".

(** The groups of lines that open on a line accepted by [start]; the
    lines before the first such line belong to no group.  [cur] is the
    group that is open, if any. *)
Fixpoint groups_from (start : string -> bool) (cur : option (list string))
  (lines : list string) : list (list string) :=
  match lines with
  | [] => match cur with Some g => [g] | None => [] end
  | x :: rest =>
      if start x
      then match cur with Some g => [g] | None => [] end
           ++ groups_from start (Some [x]) rest
      else groups_from start (option_map (fun g => g ++ [x]) cur) rest
  end.

(** The unit [split_block] builds for one hunk of a file. *)
Definition unit_of (file_path_line_a file_path_line_b : string)
  (hunk_lines : list string) : string :=
  (file_path_line_a ++ String nl EmptyString
   ++ file_path_line_b ++ String nl EmptyString
   ++ join_nl hunk_lines)%string.

(** The lines from the first one accepted by [start] on. *)
Fixpoint from_first (start : string -> bool) (lines : list string)
  : list string :=
  match lines with
  | [] => []
  | x :: rest => if start x then lines else from_first start rest
  end.

(** The end of [split_block]: the hunk that is still open is yielded. *)
Definition close_hunks (file_path_line_a file_path_line_b : string)
  (lines : list string) (st : Z * list string) : list string :=
  if negb (fst st =? -1)
  then snd st ++ [unit_of file_path_line_a file_path_line_b
                          (slice_from lines (fst st))]
  else snd st.

(** The units of the file block that is open, if any, as [split_patch]
    yields them when there is no commit message. *)
Definition yield_open (cur : option (list string)) : gen unit :=
  match cur with
  | Some block => yield_block "" block
  | None => gret tt
  end.

(** [split_patch] without a commit message, as a recursion on the lines
    of the patch.  [cur] is the file block that is open and kept; it is
    [None] before the first block and inside a block of the denylist.
    A block that opens on [--- a/] is judged by that line, a block that
    opens on [--- /dev/null] by the line after it. *)
Fixpoint split_lines (cur : option (list string)) (lines : list string)
  : gen unit :=
  match lines with
  | [] => yield_open cur
  | x :: rest =>
      if startswith x "--- a/" then
        gbind (yield_open cur)
          (fun _ => split_lines (if blacklisted x then None else Some [x]) rest)
      else if startswith x "--- /dev/null" then
        gbind (yield_open cur)
          (fun _ =>
             gbind (glift (of_option (hd_error rest)))
               (fun name =>
                  split_lines (if blacklisted name then None else Some [x])
                              rest))
      else split_lines (option_map (fun b => b ++ [x]) cur) rest
  end.

(** The file block that is open and kept after the lines [done], the
    last marker being at [last] ([-1]: none yet, [-2]: denylisted). *)
Definition kept_block (last : Z) (done : list string)
  : option (list string) :=
  if 0 <=? last then Some (skipn (Z.to_nat last) done) else None.

(** The loop of [split_patch] over the line numbers [idxs], followed by
    the statements after the loop. *)
Definition split_rest (flag_commit : bool) (lines : list string)
  (idxs : list Z) (st : string * Z) : gen unit :=
  gbind (gfold (split_step flag_commit lines) idxs st)
    (fun '(message, last_line) =>
       if 0 <=? last_line
       then yield_block message (slice_from lines last_line)
       else gret tt).

(** The message that [split_patch] puts in front of every unit: with a
    commit message, the lines above the first file block, less the two
    that come just before it. *)
Definition message_of (flag_commit : bool) (pre : list string) : string :=
  if flag_commit then join_nl (firstn (List.length pre - 2) pre) else "".

(** The files of [paths] at distance [d] of the missing file name. *)
Definition at_distance (target_filename : string) (d : nat)
  (paths : list string) : list string :=
  filter (fun p => Nat.eqb (name_distance target_filename p) d) paths.

(** [q] is not nearer to the missing file name than [p]. *)
Definition not_nearer (target_filename : string) (p q : string) : Prop :=
  (name_distance target_filename p <= name_distance target_filename q)%nat.

(** [self'] is [self] with the patches [extra] added at the end of
    [succeeded_patches], and with [round_succeeded] set when there is
    such a patch. *)
Definition records (extra : list string) (self self' : Project) : Prop :=
  self' = set_round_succeeded
            (round_succeeded self || negb (Nat.eqb (List.length extra) 0))
            (set_succeeded_patches (succeeded_patches self ++ extra) self).

(** A run of [test.sh] that passes, and a run of [poc.sh] that passes
    for the error message [err]. *)
Definition test_passes (test_sh : option completed) : Prop :=
  match test_sh with
  | None => True
  | Some TimeoutExpired => False
  | Some (Exited returncode _) => returncode = 0
  end.

Definition poc_passes (err : string) (poc_sh : option completed) : Prop :=
  match poc_sh with
  | None => True
  | Some TimeoutExpired => False
  | Some (Exited _ poc_result) => contains err poc_result = false
  end.

(** The project after a patch has gone through the three stages. *)
Definition validated (patch : string) (self : Project) : Project :=
  set_poc_succeeded true
    (set_succeeded_patches [patch]
       (set_testcase_succeeded true self)).

(** What [_viewcode] does to the bounds it is given, for a file of
    [total] lines: a window that ends past the file is moved back by
    the excess, keeping its length. *)
Definition first_shown (total startline endline : Z) : Z :=
  if total <? endline then startline - (endline - total) else startline.
Definition last_shown (total endline : Z) : Z := Z.min endline total.
Definition viewcode_head (total startline endline : Z) : string :=
  if total <? endline
  then viewcode_short total (first_shown total startline endline) total
  else viewcode_lines startline endline.

(** The answer of [_viewcode] that shows the lines [shown]. *)
Definition viewcode_answer (head : string) (shown : list string) : string :=
  (join_nl (head :: shown) ++ viewcode_advice)%string.

(** Body of the loop of [_viewcode] (source lines 113-114). *)
Definition view_step (lines : list string) (ret : list string) (i : Z)
  : result (list string) :=
  line <- of_option (index lines i) ;; Ok (ret ++ [line]).

(** What the loop of [_locate_similar_symbol] holds after the first [n]
    symbols [keys] of the index: nothing, or the first of the symbols
    nearest to [symbol]. *)
Definition nearest_so_far (symbol : string) (keys : list string) (n : nat)
  (st : option string * dist) : Prop :=
  (n = 0%nat /\ st = (None, Inf))
  \/ exists i key,
       (i < n)%nat /\ nth_error keys i = Some key
       /\ st = (Some key, Fin (Levenshtein.distance symbol key))
       /\ (forall j other, (j < n)%nat -> nth_error keys j = Some other ->
             (Levenshtein.distance symbol key
              <= Levenshtein.distance symbol other)%nat)
       /\ (forall j other, (j < i)%nat -> nth_error keys j = Some other ->
             (Levenshtein.distance symbol key
              < Levenshtein.distance symbol other)%nat).

(** The tree after the units [pps] are applied one after the other,
    each one revised against the tree that the units before it leave;
    [None] when [git apply] refuses one of them. *)
Fixpoint apply_all {worktree : Type}
  (tree_read : worktree -> string -> option string)
  (tree_apply : worktree -> string -> option worktree)
  (revise_context : bool) (tree : worktree) (pps : list string)
  : option worktree :=
  match pps with
  | [] => Some tree
  | pp :: rest =>
      match tree_apply tree
              (fst (revise_patch (tree_read tree) revise_context pp)) with
      | Some tree' => apply_all tree_read tree_apply revise_context tree' rest
      | None => None
      end
  end.

(** A build that passes: there is no [build.sh], or it exits with
    zero. *)
Definition build_passes (build : option completed) : Prop :=
  build = None \/ exists compile_result, build = Some (Exited 0 compile_result).

(** A patch on two files, and a working tree that counts the patches
    applied to it and refuses those that name [bad.c]. *)
Definition patch_on_two_files : string :=
"--- a/good.c
+++ b/good.c
@@ -1,1 +1,1 @@
-int a;
+int b;
--- a/bad.c
+++ b/bad.c
@@ -1,1 +1,1 @@
-int x;
+int y;
".

Definition counting_apply (tree : nat) (patch : string) : option nat :=
  if contains "bad.c" patch then None else Some (S tree).

(** The compile stage on that tree, without a [build.sh]. *)
Definition compile_in_counting_tree
  : Project -> string -> string -> bool -> result (string * Project) :=
  _compile_patch nat (fun _ => 0%nat) (fun _ _ => None) counting_apply
                 (fun _ => None) (fun _ _ => Ok ("block", "differ")).

(** The path of a header line and its normal form (source lines
    236-246), for the line itself. *)
Definition header_of (marker line : string) : string * string :=
  match find_after marker line with
  | Ok file_path => (file_path, normpath file_path)
  | Raise _ => (line, line)
  end.

(** The hunks [groups] revised one after the other against the file,
    their texts added to [fixed_lines] and their flags to [fixed]; the
    first hunk that raises ends the repair. *)
Fixpoint revise_hunks (revise_context : bool) (file_content : list string)
  (groups : list (list string)) (fixed_lines : list string) (fixed : bool)
  : result (list string * bool) :=
  match groups with
  | [] => Ok (fixed_lines, fixed)
  | hunk_lines :: more =>
      '(revised, hunk_fixed) <-
        revise_hunk revise_context hunk_lines file_content ;;
      revise_hunks revise_context file_content more
                   (fixed_lines ++ [revised]) (fixed || hunk_fixed)
  end.

(** The end of [revise_block] (source lines 279-284): the hunk that is
    still open is revised. *)
Definition close_block (revise_context : bool)
  (lines file_content : list string) (st : Z * list string * bool)
  : result (list string * bool) :=
  let '(last_line, fixed_lines, block_fixed) := st in
  if negb (last_line =? -1) then
    '(hunk_lines, hunk_fixed) <-
      revise_hunk revise_context (slice_from lines last_line) file_content ;;
    Ok (fixed_lines ++ [hunk_lines], block_fixed || hunk_fixed)
  else Ok (fixed_lines, block_fixed).

(** A repository in which [src/f.c] of the new version is not there at
    the target release, and the symbol index of the release has [f] in
    [lib/f.c] and in [core/f.c].  The hunk does not apply to
    [lib/f.c], where another line stands between its two context
    lines, and it applies to [core/f.c]. *)
Definition two_places_read_file (ref path : string) : option string :=
  if String.eqb path "lib/f.c" then Some "int a;
int ok; /* set when applied successfully */
int b;
"
  else if String.eqb path "core/f.c" then Some "int a;
int b;
"
  else None.

Definition two_places_git_apply (ref patch : string) : option string :=
  if contains "--- a/src/f.c" patch
  then Some "error: src/f.c: No such file or directory"
  else if contains "--- a/lib/f.c" patch
  then Some "error: patch failed: lib/f.c:1
error: lib/f.c: patch does not apply"
  else None.

Definition two_places_locate_symbol (ref symbol : string)
  : option (list (string * Z)) :=
  if String.eqb symbol "f" then Some [("lib/f.c", 1); ("core/f.c", 1)]
  else None.

Definition patch_on_missing_file : string :=
"--- a/src/f.c
+++ b/src/f.c
@@ -1,2 +1,3 @@ int f(void)
 int a;
+int x;
 int b;
".

(** What [_apply_error_handling] prints for the hunk on [lib/f.c]: the
    lines of the file around the place (source lines 329-337) and the
    context lines that differ (source lines 339-353). *)
Definition two_places_error_handling (ref revised_patch : string)
  : result (string * string) :=
  Ok ("Here are lines 0 through 3 of file lib/f.c for commit v1.
```code snippet
int a;
int ok; /* set when applied successfully */
int b;
```
",
      "```context diff
On the line 6 of your patch.
          Your patch:int b;
Original source code:int ok; /* set when applied successfully */
```
Please eliminate these diffs step by step. Be sure to eliminate these diffs the next time you generate a patch!
").

(** Every character of [s] satisfies [p]. *)
Fixpoint all_chars (p : ascii -> bool) (s : string) : bool :=
  match s with
  | EmptyString => true
  | String c s' => p c && all_chars p s'
  end.

(** A brace or a parenthesis that opens. *)
Definition opener (c : ascii) : bool :=
  Ascii.eqb c "{" || Ascii.eqb c "(".

Definition no_opener (s : string) : bool :=
  all_chars (fun c => negb (opener c)) s.

(** The last character of [s] is a word character. *)
Fixpoint ends_on_word (s : string) : bool :=
  match s with
  | EmptyString => false
  | String c EmptyString => isword c
  | String _ s' => ends_on_word s'
  end.

(* ================================================================== *)
(** * The model at work *)
(* ================================================================== *)

(** A block of three lines that stands two lines further down in the
    file than its header says aligns on the shifted window, with
    distance 0. *)
Example shifted_block_aligns :
  find_most_similar_block
    ["int a;"; "int b;"; "int c;"]
    ["#include <x.h>"; ""; "int a;"; "int b;"; "int c;"; "int d;"] 3 false
  = Ok (3, Fin 0).
Proof. vm_compute. reflexivity. Qed.

(** Whitespace-only repair gives a context line the indentation of the
    file, keeps the line that differs in more than white space, and
    recounts the header. *)
Example whitespace_repair_of_a_patch :
  revise_patch
    (fun p => if String.eqb p "f.c" then Some "int a;
  int b;
int c;
" else None)
    false
"--- a/f.c
+++ b/f.c
@@ -1,9 +1,9 @@ int f()
 int a;
 int b;
+int x;
 int Q;
"
  = (
"--- a/f.c
+++ b/f.c
@@ -1,3 +1,4 @@ int f()
 int a;
   int b;
+int x;
 int Q;
", false).
Proof. vm_compute. reflexivity. Qed.

(** A line without a tag becomes a context line. *)
Example untagged_line_becomes_context :
  revise_patch
    (fun p => if String.eqb p "f.c" then Some "int a;
int b;
" else None)
    false
"--- a/f.c
+++ b/f.c
@@ -1,2 +2,3 @@
 int a;
+int x;
int b;
"
  = (
"--- a/f.c
+++ b/f.c
@@ -1,2 +2,3 @@
 int a;
+int x;
 int b;
", true).
Proof. vm_compute. reflexivity. Qed.

(** A patch with a commit message and two files is split in one unit
    per hunk, each with the message and its file header. *)
Example split_of_a_commit :
  units (split_patch true
"fix the thing

diff --git a/f.c b/f.c
index 000
--- a/f.c
+++ b/f.c
@@ -1,1 +1,1 @@
 x
@@ -5,1 +5,1 @@
 y
diff --git a/g.c b/g.c
index 000
--- a/g.c
+++ b/g.c
@@ -1,1 +1,1 @@
 z
")
  = [
"fix the thing
--- a/f.c
+++ b/f.c
@@ -1,1 +1,1 @@
 x";
"fix the thing
--- a/f.c
+++ b/f.c
@@ -5,1 +5,1 @@
 y";
"fix the thing
--- a/g.c
+++ b/g.c
@@ -1,1 +1,1 @@
 z"].
Proof. vm_compute. reflexivity. Qed.

(** A hunk on a file that was renamed is applied after the path is
    replaced, and the outcome names the two paths. *)
Example hunk_follows_a_rename :
  _apply_hunk moved_git_diff (fun _ _ => None) [] moved_read_file
              moved_git_apply (fun _ => "") (fun _ _ => Ok ("", ""))
              2 new_project "v1" patch_on_moved_file false
  = Ok (moved_to "src/f.c" "lib/f.c",
        set_round_succeeded true
          (set_succeeded_patches [replace "src/f.c" "lib/f.c" patch_on_moved_file]
                                 new_project)).
Proof. vm_compute. reflexivity. Qed.

(** A test that fails sends the pipeline back to the compile stage; a
    test that times out does not. *)
Example failed_test_and_timeout :
  let compiled := set_compile_succeeded true new_project in
  compile_succeeded (snd (_run_testcase (Some (Exited 1 "FAIL: t1")) compiled))
  = false
  /\ compile_succeeded (snd (_run_testcase (Some TimeoutExpired) compiled))
     = true.
Proof. split; reflexivity. Qed.

(* ================================================================== *)
(** * Facts about the Python primitives *)
(* ================================================================== *)

Lemma bind_ok {A B} (m : result A) (k : A -> result B) (b : B) :
  bind m k = Ok b -> exists a, m = Ok a /\ k a = Ok b.
Proof.
  destruct m as [a|e]; simpl; intros H; [eauto | discriminate].
Qed.

Lemma foldM_app {S A} (f : S -> A -> result S) (l1 l2 : list A) (s : S) :
  foldM f (l1 ++ l2) s = bind (foldM f l1 s) (foldM f l2).
Proof.
  revert s; induction l1 as [|x l1 IH]; intros s; simpl; [reflexivity|].
  destruct (f s x) as [s'|e]; simpl; [apply IH | reflexivity].
Qed.

Lemma range_succ (n : nat) :
  range (Z.of_nat (S n)) = range (Z.of_nat n) ++ [Z.of_nat n].
Proof.
  unfold range. rewrite !Nat2Z.id, seq_S, map_app. reflexivity.
Qed.

Lemma range_nonpos (n : Z) : n <= 0 -> range n = [].
Proof.
  intros H. unfold range.
  replace (Z.to_nat n) with 0%nat by lia. reflexivity.
Qed.

Lemma in_range (n i : Z) : In i (range n) <-> 0 <= i < n.
Proof.
  unfold range. rewrite in_map_iff. split.
  - intros (k & <- & Hk). apply in_seq in Hk. lia.
  - intros H. exists (Z.to_nat i). split; [lia|]. apply in_seq. lia.
Qed.

Lemma in_range2 (a b i : Z) : In i (range2 a b) <-> a <= i < b.
Proof.
  unfold range2. rewrite in_map_iff. split.
  - intros (k & <- & Hk). apply in_seq in Hk. lia.
  - intros H. exists (Z.to_nat (i - a)). split; [lia|]. apply in_seq. lia.
Qed.

Lemma index_nonneg {A} (l : list A) (i : Z) :
  0 <= i -> index l i = nth_error l (Z.to_nat i).
Proof.
  intros H. unfold index, len.
  destruct (0 <=? i) eqn:E0; [|lia]. simpl.
  destruct (i <? Z.of_nat (List.length l)) eqn:E1; [reflexivity|].
  replace ((- Z.of_nat (List.length l) <=? i) && (i <? 0)) with false
    by (symmetry; apply andb_false_iff; right; lia).
  symmetry. apply nth_error_None. lia.
Qed.

Lemma slice_window {A} (l : list A) (i p : Z) :
  0 <= i -> 0 <= p ->
  slice l i (i + p) = firstn (Z.to_nat p) (skipn (Z.to_nat i) l).
Proof.
  intros Hi Hp. unfold slice, clamp, len.
  set (n := Z.of_nat (List.length l)).
  destruct (i <? 0) eqn:E1; [lia|].
  destruct (i + p <? 0) eqn:E2; [lia|].
  destruct (Z_le_gt_dec (i + p) n) as [H|H].
  - rewrite (Z.min_l (i + p) n) by lia. rewrite (Z.min_l i n) by lia.
    f_equal. lia.
  - rewrite (Z.min_r (i + p) n) by lia.
    destruct (Z_le_gt_dec i n) as [H'|H'].
    + rewrite (Z.min_l i n) by lia.
      rewrite !firstn_all2; try reflexivity;
        rewrite length_skipn; unfold n in *; lia.
    + rewrite (Z.min_r i n) by lia.
      replace (Z.to_nat (n - n)) with 0%nat by lia. simpl.
      rewrite (skipn_all2 l) by (unfold n in *; lia).
      symmetry. apply firstn_nil.
Qed.

(* ================================================================== *)
(** * Facts about the edit distance *)
(* ================================================================== *)

Lemma hd_suffixes (f : string -> nat) (t : string) :
  hd 0%nat (map f (suffixes t)) = f t.
Proof. destruct t; reflexivity. Qed.

Lemma first_row_spec (t : string) :
  Levenshtein.first_row t = map String.length (suffixes t).
Proof.
  induction t as [|c t IH]; [reflexivity|].
  cbn [Levenshtein.first_row suffixes map]. rewrite IH.
  rewrite hd_suffixes. reflexivity.
Qed.

Lemma next_row_spec (a : ascii) (s t : string) :
  Levenshtein.next_row a (S (String.length s)) t
    (map (Levenshtein.edit_distance s) (suffixes t))
  = map (Levenshtein.edit_distance (String a s)) (suffixes t).
Proof.
  induction t as [|b t IH]; [reflexivity|].
  cbn [suffixes map Levenshtein.next_row]. rewrite IH.
  rewrite !hd_suffixes. reflexivity.
Qed.

Lemma rows_spec (s t : string) :
  Levenshtein.rows s t = map (Levenshtein.edit_distance s) (suffixes t).
Proof.
  induction s as [|a s IH]; cbn [Levenshtein.rows].
  - rewrite first_row_spec. reflexivity.
  - rewrite IH. apply next_row_spec.
Qed.

(** The distance the package computes is the edit distance. *)
Lemma distance_edit_distance (s t : string) :
  Levenshtein.distance s t = Levenshtein.edit_distance s t.
Proof.
  unfold Levenshtein.distance. rewrite rows_spec. apply hd_suffixes.
Qed.

Lemma edit_distance_refl (s : string) : Levenshtein.edit_distance s s = 0%nat.
Proof.
  induction s as [|a s IH]; [reflexivity|].
  cbn [Levenshtein.edit_distance]. rewrite Ascii.eqb_refl, IH.
  apply Nat.min_0_r.
Qed.

Lemma edit_distance_zero (s t : string) :
  Levenshtein.edit_distance s t = 0%nat -> s = t.
Proof.
  revert t; induction s as [|a s IH]; intros t H.
  - destruct t; [reflexivity | discriminate].
  - destruct t as [|b t]; [discriminate|].
    cbn [Levenshtein.edit_distance] in H.
    destruct (Ascii.eqb a b) eqn:E.
    + apply Ascii.eqb_eq in E. subst b. f_equal. apply IH. lia.
    + lia.
Qed.

Lemma distance_refl (s : string) : Levenshtein.distance s s = 0%nat.
Proof. rewrite distance_edit_distance. apply edit_distance_refl. Qed.

Lemma distance_zero (s t : string) : Levenshtein.distance s t = 0%nat -> s = t.
Proof. rewrite distance_edit_distance. apply edit_distance_zero. Qed.

(* ================================================================== *)
(** * The window scan of [find_most_similar_block] *)
(* ================================================================== *)

Section Scan.

Variables pattern main : list string.

Let p_len : Z := Z.of_nat (List.length pattern).

Lemma scan_step_plain (st : Z * dist) (k : nat) :
  scan_step pattern main p_len false st (Z.of_nat k)
  = Ok (if dist_ltb (window_distance pattern main k) (snd st)
        then (Z.of_nat k + 1, Fin (window_distance pattern main k))
        else st).
Proof.
  unfold scan_step, window_distance, window, p_len.
  rewrite slice_window by lia. rewrite !Nat2Z.id.
  destruct (dist_ltb _ (snd st)); reflexivity.
Qed.

Lemma scan_prefix (n : nat) :
  exists st,
    foldM (scan_step pattern main p_len false) (range (Z.of_nat n)) (1, Inf)
    = Ok st /\ scanned pattern main n st.
Proof.
  induction n as [|n (st & Hrun & Hst)].
  - exists (1, Inf). split; [reflexivity | left; auto].
  - rewrite range_succ, foldM_app, Hrun. cbn [bind foldM].
    rewrite scan_step_plain. cbn [bind].
    eexists; split; [reflexivity|]. right.
    destruct Hst as [[-> ->] | (b & Hb & -> & Hmin & Hfirst)].
    + cbn [snd dist_ltb]. exists 0%nat.
      split; [lia|]. split; [reflexivity|]. split; intros k Hk; [|lia].
      replace k with 0%nat by lia. lia.
    + cbn [snd dist_ltb].
      destruct (Nat.ltb_spec (window_distance pattern main n)
                             (window_distance pattern main b)) as [Hlt|Hge].
      * exists n. split; [lia|]. split; [reflexivity|]. split.
        -- intros k Hk. destruct (Nat.eq_dec k n) as [->|Hne]; [lia|].
           specialize (Hmin k ltac:(lia)). lia.
        -- intros k Hk. specialize (Hmin k Hk). lia.
      * exists b. split; [lia|]. split; [reflexivity|]. split; [|assumption].
        intros k Hk. destruct (Nat.eq_dec k n) as [->|Hne]; [lia|].
        apply Hmin. lia.
Qed.

Lemma range_windows :
  range (len main - p_len + 1)
  = range (Z.of_nat (windows main (List.length pattern))).
Proof.
  unfold range, windows, len, p_len. f_equal. f_equal. lia.
Qed.

(** With the exclusion of mutated lines off, the scan never raises and
    ends on the earliest window of least distance. *)
Lemma scan_plain :
  exists st, scan pattern main p_len false = Ok st
             /\ scanned pattern main (windows main (List.length pattern)) st.
Proof.
  unfold scan. rewrite range_windows. apply scan_prefix.
Qed.

Lemma scan_earliest_best :
  (0 < windows main (List.length pattern))%nat ->
  exists b, earliest_best pattern main b
            /\ scan pattern main p_len false
               = Ok (Z.of_nat b + 1, Fin (window_distance pattern main b)).
Proof.
  intros Hw. destruct scan_plain as (st & Hrun & [[H0 _] | (b & Hb & -> & Hmin & Hfirst)]).
  - lia.
  - exists b. split; [|exact Hrun]. repeat split; assumption.
Qed.

(** Without any window the scan keeps its initial state, whatever the
    flag. *)
Lemma scan_no_window (dline_flag : bool) :
  (List.length main < List.length pattern)%nat ->
  scan pattern main p_len dline_flag = Ok (1, Inf).
Proof.
  intros H. unfold scan. rewrite range_nonpos; [reflexivity|].
  unfold len, p_len. lia.
Qed.

End Scan.

(* ================================================================== *)
(** * The offset correction of [find_most_similar_block] *)
(* ================================================================== *)

Section Offset.

Variables pattern main : list string.
Variable lineno : Z.

(** The loop over the expected lines raises only on [pattern[i]]. *)
Lemma offset_loop_total (idxs : list Z) (st : bool * option Z) (best : Z) :
  (forall i, In i idxs -> 0 <= i < len pattern) ->
  exists r, offset_loop pattern main lineno idxs st best = Ok r.
Proof.
  revert st. induction idxs as [|i idxs IH]; intros st Hin; cbn [offset_loop].
  - eauto.
  - assert (Hi : 0 <= i < len pattern) by (apply Hin; left; reflexivity).
    rewrite index_nonneg by lia.
    destruct (nth_error pattern (Z.to_nat i)) as [p|] eqn:E.
    + cbn [of_option bind].
      destruct (String.length (strip p) <? 3)%nat.
      * apply IH. intros; apply Hin; right; assumption.
      * destruct (fst _); [eauto|].
        apply IH. intros; apply Hin; right; assumption.
    + apply nth_error_None in E. unfold len in Hi. lia.
Qed.

End Offset.

Lemma fix_offset_total (pattern main : list string) (best : Z) :
  exists r, fix_offset pattern main (len pattern) best = Ok r.
Proof.
  unfold fix_offset. apply offset_loop_total.
  intros i Hi. apply in_range in Hi. exact Hi.
Qed.

(* ================================================================== *)
(** * C10: a candidate shorter than the pattern *)
(* ================================================================== *)

(** C10.  When the candidate has fewer lines than the pattern, so that
    no window exists, and the expected length is the length of the
    pattern, [find_most_similar_block] returns normally (it does not
    raise) and the distance it reports is infinity, with or without the
    exclusion of mutated lines. *)
Theorem no_window_reports_infinity
  (pattern main : list string) (dline_flag : bool) :
  (List.length main < List.length pattern)%nat ->
  exists start,
    find_most_similar_block pattern main (len pattern) dline_flag
    = Ok (start, Inf).
Proof.
  intros H. unfold find_most_similar_block, len.
  rewrite scan_no_window by exact H. cbn [bind].
  destruct dline_flag; cbn [negb].
  - exists 1. reflexivity.
  - destruct (fix_offset_total pattern main 1) as (r & Hr).
    unfold len in Hr. rewrite Hr. cbn [bind]. eauto.
Qed.

Lemma no_window_reports_infinity_witness :
  exists start,
    find_most_similar_block ["int a;"; "int b;"] ["int a;"] 2 true
    = Ok (start, Inf).
Proof.
  apply (no_window_reports_infinity ["int a;"; "int b;"] ["int a;"] true).
  simpl. lia.
Defined.

(* ================================================================== *)
(** * The offset found for one expected line *)
(* ================================================================== *)

Section OffsetFold.

Variable main : list string.
Variable lineno : Z.
Variable p : string.
Variable i : Z.

Lemma offset_fold (js : list Z) :
  offset_found main lineno p i js
    (fold_left (offset_step p main lineno i) js (false, None)).
Proof.
  induction js as [|j js IH] using rev_ind.
  - left. split; [reflexivity | intros j []].
  - rewrite fold_left_app. cbn [fold_left].
    set (st := fold_left (offset_step p main lineno i) js (false, None)) in *.
    unfold offset_step.
    destruct (index main (lineno - 1 + j)) as [m|] eqn:Em.
    + destruct (String.eqb (strip p) (strip m)) eqn:Es.
      * apply String.eqb_eq in Es. right.
        destruct IH as [[-> Hno] | (j0 & Hin & Hm & -> & Hmin)].
        -- cbn [snd closer]. exists j. split; [apply in_or_app; right; left; reflexivity|].
           split; [eauto|]. split; [reflexivity|].
           intros j' Hj' Hm'. apply in_app_or in Hj' as [Hj'|[<-|[]]].
           ++ exfalso. exact (Hno j' Hj' Hm').
           ++ lia.
        -- cbn [snd closer].
           destruct (Z.ltb_spec (Z.abs (j - i)) (Z.abs (j0 - i))) as [Hlt|Hge].
           ++ exists j. split; [apply in_or_app; right; left; reflexivity|].
              split; [eauto|]. split; [reflexivity|].
              intros j' Hj' Hm'. apply in_app_or in Hj' as [Hj'|[<-|[]]].
              ** specialize (Hmin j' Hj' Hm'). lia.
              ** lia.
           ++ exists j0. split; [apply in_or_app; left; exact Hin|].
              split; [exact Hm|]. split; [reflexivity|].
              intros j' Hj' Hm'. apply in_app_or in Hj' as [Hj'|[<-|[]]].
              ** exact (Hmin j' Hj' Hm').
              ** exact Hge.
      * apply String.eqb_neq in Es.
        destruct IH as [[Hst Hno] | (j0 & Hin & Hm & Hst & Hmin)].
        -- left. split; [exact Hst|].
           intros j' Hj' (m' & Hm' & Hs'). apply in_app_or in Hj' as [Hj'|[<-|[]]].
           ++ apply (Hno j' Hj'). eauto.
           ++ rewrite Em in Hm'. injection Hm' as <-. contradiction.
        -- right. exists j0. split; [apply in_or_app; left; exact Hin|].
           split; [exact Hm|]. split; [exact Hst|].
           intros j' Hj' Hm'. apply in_app_or in Hj' as [Hj'|[<-|[]]].
           ++ exact (Hmin j' Hj' Hm').
           ++ destruct Hm' as (m' & Hm' & Hs'). rewrite Em in Hm'.
              injection Hm' as <-. contradiction.
    + destruct IH as [[Hst Hno] | (j0 & Hin & Hm & Hst & Hmin)].
      * left. split; [exact Hst|].
        intros j' Hj' (m' & Hm' & Hs'). apply in_app_or in Hj' as [Hj'|[<-|[]]].
        -- apply (Hno j' Hj'). eauto.
        -- rewrite Em in Hm'. discriminate.
      * right. exists j0. split; [apply in_or_app; left; exact Hin|].
        split; [exact Hm|]. split; [exact Hst|].
        intros j' Hj' Hm'. apply in_app_or in Hj' as [Hj'|[<-|[]]].
        -- exact (Hmin j' Hj' Hm').
        -- destruct Hm' as (m' & Hm' & _). rewrite Em in Hm'. discriminate.
Qed.

(** The two outcomes of the [j] loop, in terms of [seen]. *)
Lemma offset_fold_no_hit :
  (forall j, ~ seen main lineno p j) ->
  fold_left (offset_step p main lineno i) (range2 (-5) 6) (false, None)
  = (false, None).
Proof.
  intros Hno.
  destruct (offset_fold (range2 (-5) 6)) as [[Hst _] | (j & Hin & Hm & _)].
  - exact Hst.
  - exfalso. apply (Hno j). split; [|exact Hm].
    apply in_range2 in Hin. lia.
Qed.

Lemma offset_fold_hit :
  (exists j, seen main lineno p j) ->
  exists j, seen main lineno p j
    /\ (forall j', seen main lineno p j' -> Z.abs (j - i) <= Z.abs (j' - i))
    /\ fold_left (offset_step p main lineno i) (range2 (-5) 6) (false, None)
       = (true, Some (j - i)).
Proof.
  intros (j1 & Hr1 & Hm1).
  destruct (offset_fold (range2 (-5) 6)) as [[_ Hno] | (j & Hin & Hm & Hst & Hmin)].
  - exfalso. apply (Hno j1); [apply in_range2; lia | exact Hm1].
  - exists j. split; [split; [apply in_range2 in Hin; lia | exact Hm]|].
    split; [|exact Hst].
    intros j' (Hr' & Hm'). apply Hmin; [apply in_range2; lia | exact Hm'].
Qed.

End OffsetFold.

(* ================================================================== *)
(** * The expected line that decides the offset *)
(* ================================================================== *)

Section OffsetLoop.

Variables pattern main : list string.
Variable lineno : Z.

Lemma offset_loop_skip (pre rest : list Z) (best : Z) :
  (forall i, In i pre -> passed pattern main lineno i) ->
  offset_loop pattern main lineno (pre ++ rest) (false, None) best
  = offset_loop pattern main lineno rest (false, None) best.
Proof.
  induction pre as [|i pre IH]; intros Hpre; [reflexivity|].
  cbn [app offset_loop].
  destruct (Hpre i (or_introl eq_refl)) as (p & Hp & Hno).
  rewrite Hp. cbn [of_option bind].
  assert (Hrest : forall i', In i' pre -> passed pattern main lineno i')
    by (intros; apply Hpre; right; assumption).
  destruct (Nat.ltb_spec (String.length (strip p)) 3) as [Hshort|Hlong].
  - apply IH, Hrest.
  - rewrite (offset_fold_no_hit main lineno p i (Hno Hlong)).
    cbn [fst]. apply IH, Hrest.
Qed.

Lemma offset_loop_no_hit (idxs : list Z) (best : Z) :
  (forall i, In i idxs -> passed pattern main lineno i) ->
  offset_loop pattern main lineno idxs (false, None) best = Ok best.
Proof.
  intros H. rewrite <- (app_nil_r idxs).
  rewrite offset_loop_skip by exact H. reflexivity.
Qed.

Lemma offset_loop_first_hit (pre post : list Z) (i : Z) (p : string) (best : Z) :
  (forall i', In i' pre -> passed pattern main lineno i') ->
  index pattern i = Some p ->
  meaningful p ->
  (exists j, seen main lineno p j) ->
  exists j, seen main lineno p j
    /\ (forall j', seen main lineno p j' -> Z.abs (j - i) <= Z.abs (j' - i))
    /\ offset_loop pattern main lineno (pre ++ i :: post) (false, None) best
       = Ok (best + (j - i)).
Proof.
  intros Hpre Hp Hlong Hhit.
  destruct (offset_fold_hit main lineno p i Hhit) as (j & Hj & Hmin & Hfold).
  exists j. split; [exact Hj|]. split; [exact Hmin|].
  rewrite offset_loop_skip by exact Hpre.
  cbn [offset_loop]. rewrite Hp. cbn [of_option bind].
  destruct (Nat.ltb_spec (String.length (strip p)) 3) as [Hshort|_].
  - unfold meaningful in Hlong. lia.
  - rewrite Hfold. reflexivity.
Qed.

End OffsetLoop.

Lemma range_split (n i : nat) :
  (i < n)%nat ->
  exists post, range (Z.of_nat n) = range (Z.of_nat i) ++ Z.of_nat i :: post.
Proof.
  intros H. unfold range. rewrite !Nat2Z.id.
  assert (E : n = (i + S (n - i - 1))%nat) by lia.
  rewrite E, seq_app, map_app. cbn [seq map Nat.add].
  eexists. reflexivity.
Qed.

Section FixOffset.

Variables pattern main : list string.
Variable best : Z.

Lemma passed_of_nth (i : Z) :
  0 <= i < len pattern ->
  (forall p, nth_error pattern (Z.to_nat i) = Some p ->
             meaningful p -> forall j, ~ seen main best p j) ->
  passed pattern main best i.
Proof.
  intros Hi H. unfold passed. rewrite index_nonneg by lia.
  destruct (nth_error pattern (Z.to_nat i)) as [p|] eqn:E.
  - exists p. split; [reflexivity|]. apply H. reflexivity.
  - apply nth_error_None in E. unfold len in Hi. lia.
Qed.

(** No meaningful expected line has a match: the start is kept. *)
Lemma fix_offset_no_hit :
  (forall i p, nth_error pattern i = Some p -> meaningful p ->
               forall j, ~ seen main best p j) ->
  fix_offset pattern main (len pattern) best = Ok best.
Proof.
  intros H. unfold fix_offset. apply offset_loop_no_hit.
  intros i Hi. apply in_range in Hi. apply passed_of_nth; [exact Hi|].
  intros p Hp. exact (H _ p Hp).
Qed.

(** The first meaningful expected line that has a match decides, with
    its match nearest to its own position. *)
Lemma fix_offset_first_hit (i : nat) (p : string) :
  nth_error pattern i = Some p ->
  meaningful p ->
  (exists j, seen main best p j) ->
  (forall i' p', (i' < i)%nat -> nth_error pattern i' = Some p' ->
                 meaningful p' -> forall j, ~ seen main best p' j) ->
  exists j, seen main best p j
    /\ (forall j', seen main best p j' ->
                   Z.abs (j - Z.of_nat i) <= Z.abs (j' - Z.of_nat i))
    /\ fix_offset pattern main (len pattern) best
       = Ok (best + (j - Z.of_nat i)).
Proof.
  intros Hp Hlong Hhit Hbefore.
  assert (Hi : (i < List.length pattern)%nat)
    by (apply nth_error_Some; rewrite Hp; discriminate).
  destruct (range_split (List.length pattern) i Hi) as (post & Hsplit).
  unfold fix_offset, len. rewrite Hsplit.
  apply offset_loop_first_hit; [| |exact Hlong|exact Hhit].
  - intros i' Hi'. apply in_range in Hi'.
    apply passed_of_nth; [unfold len; lia|].
    intros p' Hp'. apply (Hbefore (Z.to_nat i') p'); [lia|exact Hp'].
  - rewrite index_nonneg by lia. rewrite Nat2Z.id. exact Hp.
Qed.

End FixOffset.

(** From line 6 on, the eleven offsets all fall at or after line 1, and
    what the loop finds are the matches on the lines of the list. *)
Lemma hit_seen (main : list string) (lineno : Z) (p : string) (j : Z) :
  6 <= lineno -> (hit main lineno p j <-> seen main lineno p j).
Proof.
  intros Hline. unfold hit, seen. split.
  - intros (Hj & _ & m & Hm & Hs). split; [exact Hj|]. exists m.
    split; [|exact Hs]. rewrite index_nonneg by lia.
    replace (lineno - 1 + j) with (lineno + j - 1) by lia. exact Hm.
  - intros (Hj & m & Hm & Hs). split; [exact Hj|]. split; [lia|]. exists m.
    split; [|exact Hs]. rewrite index_nonneg in Hm by lia.
    replace (lineno + j - 1) with (lineno - 1 + j) by lia. exact Hm.
Qed.

(** [find_most_similar_block] with the exclusion off is the scan
    followed by the offset correction. *)
Lemma find_most_similar_block_plain
  (pattern main : list string) (best start : Z) (d : dist) :
  scan pattern main (len pattern) false = Ok (best, d) ->
  fix_offset pattern main (len pattern) best = Ok start ->
  find_most_similar_block pattern main (len pattern) false = Ok (start, d).
Proof.
  intros Hscan Hfix. unfold find_most_similar_block.
  rewrite Hscan. cbn [bind negb]. rewrite Hfix. reflexivity.
Qed.

(* ================================================================== *)
(** * C1: the sliding window *)
(* ================================================================== *)

(** C1, as worded, fails: the start that is returned need not be a
    window of least distance.  The pattern [abc] is nearest to line 1
    ([abd], distance 1), but its trimmed text equals line 2, so the
    offset correction moves the start to line 2, whose distance is 2. *)
Lemma sliding_window_start_is_shifted :
  ~ aligns_on_earliest_best ["abc"] ["abd"; "  abc"; "x"; "x"; "x"; "x"; "x"].
Proof.
  intros (b & (Hb & Hmin & _) & Hrun).
  assert (E : find_most_similar_block ["abc"]
                ["abd"; "  abc"; "x"; "x"; "x"; "x"; "x"] (len ["abc"]) false
              = Ok (2, Fin 1)) by (vm_compute; reflexivity).
  rewrite E in Hrun. injection Hrun as Hstart _.
  assert (b = 1%nat) by lia. subst b.
  specialize (Hmin 0%nat ltac:(vm_compute; lia)).
  vm_compute in Hmin. lia.
Qed.

(** C1, amended.  For every pattern and every candidate list with at
    least one window of the pattern's length, and with the exclusion of
    mutated lines off, [find_most_similar_block] returns the least
    edit distance between the newline-joined pattern and a
    newline-joined window; the earliest window [b] of that distance is
    the one chosen, and the start that is returned is the 1-based index
    of [b] after the offset correction.  For a window that starts at
    line 6 or later, that start is the index of [b] itself when no
    expected line of at least 3 trimmed characters has a trimmed match
    on a line of the list at most five lines away from it. *)
Theorem sliding_window_then_offset (pattern main : list string) :
  (List.length pattern <= List.length main)%nat ->
  exists b start,
    earliest_best pattern main b
    /\ fix_offset pattern main (len pattern) (Z.of_nat b + 1) = Ok start
    /\ find_most_similar_block pattern main (len pattern) false
       = Ok (start, Fin (window_distance pattern main b))
    /\ (6 <= Z.of_nat b + 1 ->
        (forall i p, nth_error pattern i = Some p -> meaningful p ->
                     forall j, ~ hit main (Z.of_nat b + 1) p j) ->
        start = Z.of_nat b + 1).
Proof.
  intros Hlen.
  destruct (scan_earliest_best pattern main) as (b & Hbest & Hscan).
  { unfold windows. lia. }
  destruct (fix_offset_total pattern main (Z.of_nat b + 1)) as (start & Hfix).
  exists b, start. split; [exact Hbest|]. split; [exact Hfix|]. split.
  - apply (find_most_similar_block_plain pattern main _ _ _ Hscan Hfix).
  - intros Hline Hno.
    assert (Hno' : forall i p, nth_error pattern i = Some p -> meaningful p ->
                     forall j, ~ seen main (Z.of_nat b + 1) p j).
    { intros i p Hp Hlong j Hseen. apply (Hno i p Hp Hlong j).
      apply hit_seen; assumption. }
    rewrite (fix_offset_no_hit pattern main _ Hno') in Hfix.
    injection Hfix as <-. reflexivity.
Qed.

Lemma sliding_window_then_offset_witness :
  let pattern := ["int b;"] in
  let main := ["q"; "q"; "q"; "q"; "q"; "int a;"; "int b;"; "int c;"] in
  exists b start,
    earliest_best pattern main b
    /\ fix_offset pattern main (len pattern) (Z.of_nat b + 1) = Ok start
    /\ find_most_similar_block pattern main (len pattern) false
       = Ok (start, Fin (window_distance pattern main b))
    /\ (6 <= Z.of_nat b + 1 ->
        (forall i p, nth_error pattern i = Some p -> meaningful p ->
                     forall j, ~ hit main (Z.of_nat b + 1) p j) ->
        start = Z.of_nat b + 1).
Proof.
  intros pattern main.
  apply (sliding_window_then_offset pattern main).
  simpl. lia.
Defined.

(* ================================================================== *)
(** * C4: the offset correction *)
(* ================================================================== *)

(** C4, as worded, fails: the offset is not the least over all the
    expected lines.  The scan chooses line 1.  The first expected line,
    [abc], matches only line 4 (offset 3); the second, [def], matches
    line 2, where it belongs (offset 0).  The least offset is 0, but
    the loop stops at the first expected line that has a match and the
    start becomes 4. *)
Lemma offset_is_not_least_over_all_lines :
  ~ shifts_by_smallest_offset
      ["abc"; "def"]
      ["abX"; "def"; "zzz"; "abc"; "q"; "q"; "q"; "q"; "q"].
Proof.
  intros H.
  specialize (H 1 (Fin 1) ltac:(vm_compute; reflexivity)).
  vm_compute in H. discriminate H.
Qed.

(** C4, amended.  With the exclusion of mutated lines off, and for a
    chosen window that starts at line 6 or later, the expected lines
    are taken in order, and one counts only when its trimmed text has
    at least 3 characters.  Such a line is compared, trimmed, with the
    lines of the list at the offsets -5 .. 5 from the chosen start (an
    offset past the end of the list is passed over).  The first such
    line that has a match decides alone: the start moves by the value
    (offset - position of the line in the block) of least magnitude
    among the matches of that line, and later lines are not looked at.
    When no such line has a match the start is kept. *)
Theorem offset_correction_first_match
  (pattern main : list string) (best : Z) (d : dist) :
  scan pattern main (len pattern) false = Ok (best, d) ->
  6 <= best ->
  ((forall i p, nth_error pattern i = Some p -> meaningful p ->
                forall j, ~ hit main best p j) ->
   find_most_similar_block pattern main (len pattern) false = Ok (best, d))
  /\
  (forall i p,
     nth_error pattern i = Some p ->
     meaningful p ->
     (exists j, hit main best p j) ->
     (forall i' p', (i' < i)%nat -> nth_error pattern i' = Some p' ->
                    meaningful p' -> forall j, ~ hit main best p' j) ->
     exists j, hit main best p j
       /\ (forall j', hit main best p j' ->
                      Z.abs (j - Z.of_nat i) <= Z.abs (j' - Z.of_nat i))
       /\ find_most_similar_block pattern main (len pattern) false
          = Ok (best + (j - Z.of_nat i), d)).
Proof.
  intros Hscan Hline.
  assert (Hto : forall p j, hit main best p j -> seen main best p j)
    by (intros p j; apply hit_seen; exact Hline).
  assert (Hfrom : forall p j, seen main best p j -> hit main best p j)
    by (intros p j; apply hit_seen; exact Hline).
  split.
  - intros Hno.
    apply (find_most_similar_block_plain pattern main best best d Hscan).
    apply fix_offset_no_hit. intros i p Hp Hlong j Hseen.
    exact (Hno i p Hp Hlong j (Hfrom p j Hseen)).
  - intros i p Hp Hlong (j0 & Hj0) Hbefore.
    destruct (fix_offset_first_hit pattern main best i p Hp Hlong)
      as (j & Hj & Hmin & Hfix).
    + exists j0. exact (Hto p j0 Hj0).
    + intros i' p' Hi' Hp' Hlong' j' Hseen.
      exact (Hbefore i' p' Hi' Hp' Hlong' j' (Hfrom p' j' Hseen)).
    + exists j. split; [exact (Hfrom p j Hj)|]. split.
      * intros j' Hj'. exact (Hmin j' (Hto p j' Hj')).
      * apply (find_most_similar_block_plain pattern main best _ d Hscan Hfix).
Qed.

Lemma offset_correction_first_match_witness :
  let pattern := ["abc"; "def"] in
  let main := ["q"; "q"; "q"; "q"; "q"; "q";
               "abX"; "def"; "zzz"; "abc"; "q"; "q"] in
  ((forall i p, nth_error pattern i = Some p -> meaningful p ->
                forall j, ~ hit main 7 p j) ->
   find_most_similar_block pattern main (len pattern) false = Ok (7, Fin 1))
  /\
  (forall i p,
     nth_error pattern i = Some p ->
     meaningful p ->
     (exists j, hit main 7 p j) ->
     (forall i' p', (i' < i)%nat -> nth_error pattern i' = Some p' ->
                    meaningful p' -> forall j, ~ hit main 7 p' j) ->
     exists j, hit main 7 p j
       /\ (forall j', hit main 7 p j' ->
                      Z.abs (j - Z.of_nat i) <= Z.abs (j' - Z.of_nat i))
       /\ find_most_similar_block pattern main (len pattern) false
          = Ok (7 + (j - Z.of_nat i), Fin 1)).
Proof.
  intros pattern main.
  apply (offset_correction_first_match pattern main 7 (Fin 1)).
  - vm_compute. reflexivity.
  - lia.
Defined.

(* ================================================================== *)
(** * C9: a block copied from the file *)
(* ================================================================== *)

Lemma first_meaningful_none (pattern : list string) :
  first_meaningful pattern = None ->
  forall i p, nth_error pattern i = Some p -> ~ meaningful p.
Proof.
  induction pattern as [|q rest IH]; intros H i p Hp.
  - destruct i; discriminate.
  - cbn [first_meaningful] in H.
    destruct (Nat.ltb_spec (String.length (strip q)) 3) as [Hshort|Hlong];
      [|discriminate].
    destruct i as [|i]; cbn [nth_error] in Hp.
    + injection Hp as <-. unfold meaningful. lia.
    + destruct (first_meaningful rest); [discriminate|].
      apply (IH eq_refl i p Hp).
Qed.

Lemma first_meaningful_some (pattern : list string) (m : nat) :
  first_meaningful pattern = Some m ->
  (exists p, nth_error pattern m = Some p /\ meaningful p)
  /\ forall i p, (i < m)%nat -> nth_error pattern i = Some p -> ~ meaningful p.
Proof.
  revert m. induction pattern as [|q rest IH]; intros m H; [discriminate|].
  cbn [first_meaningful] in H.
  destruct (Nat.ltb_spec (String.length (strip q)) 3) as [Hshort|Hlong].
  - destruct (first_meaningful rest) as [m'|]; [|discriminate].
    injection H as <-. destruct (IH m' eq_refl) as (Hat & Hbefore).
    split; [exact Hat|].
    intros [|i] p Hi Hp; cbn [nth_error] in Hp.
    + injection Hp as <-. unfold meaningful. lia.
    + apply (Hbefore i p); [lia | exact Hp].
  - injection H as <-. split; [|intros i p Hi; lia].
    exists q. split; [reflexivity | exact Hlong].
Qed.

Lemma nth_error_window (main : list string) (n k i : nat) :
  (i < n)%nat ->
  nth_error (window main n k) i = nth_error main (k + i).
Proof.
  intros H. unfold window.
  rewrite nth_error_firstn. 
  destruct (Nat.ltb_spec i n) as [_|Hge]; [|lia].
  apply nth_error_skipn.
Qed.

(** C9, as worded, fails: when the same text stands earlier in the
    file, the earlier place is returned.  The block is a copy of line 2
    of the file and aligns at line 1. *)
Lemma copy_aligns_on_earlier_twin :
  ~ aligns_where_copied ["return 0;"] ["return 0;"; "return 0;"] 1.
Proof.
  intros H.
  assert (Hcopy : exact_copy ["return 0;"] ["return 0;"; "return 0;"] 1).
  { split; [reflexivity | simpl; lia]. }
  specialize (H Hcopy). vm_compute in H. discriminate H.
Qed.

(** C9, amended.  If the expected block is an exact copy of the lines
    [k .. k + len) of the file (0-based [k]), no earlier window of the
    file has the same newline-joined text, and the first line of the
    block whose trimmed text has at least 3 characters, if there is
    one, is among its first six lines, then aligning the block against
    the file returns the 1-based start [k + 1] and distance 0. *)
Theorem copy_aligns_where_copied (pattern main : list string) (k : nat) :
  exact_copy pattern main k ->
  (forall k', (k' < k)%nat ->
     join_nl (window main (List.length pattern) k') <> join_nl pattern) ->
  match first_meaningful pattern with
  | Some m => (m <= 5)%nat
  | None => True
  end ->
  find_most_similar_block pattern main (len pattern) false
  = Ok (Z.of_nat k + 1, Fin 0).
Proof.
  intros (Hcopy & Hfit) Hearlier Hfirst.
  assert (Hk : window_distance pattern main k = 0%nat).
  { unfold window_distance. rewrite <- Hcopy. apply distance_refl. }
  destruct (scan_earliest_best pattern main) as (b & (Hb & Hmin & Hstrict) & Hscan).
  { unfold windows. lia. }
  assert (Hb0 : window_distance pattern main b = 0%nat).
  { specialize (Hmin k ltac:(unfold windows; lia)). lia. }
  assert (b = k).
  { destruct (Nat.lt_trichotomy b k) as [Hlt|[Heq|Hgt]]; [|exact Heq|].
    - exfalso. apply (Hearlier b Hlt). apply distance_zero. exact Hb0.
    - specialize (Hstrict k Hgt). lia. }
  subst b. rewrite Hb0 in Hscan.
  apply (find_most_similar_block_plain pattern main _ _ _ Hscan).
  destruct (first_meaningful pattern) as [m|] eqn:Em.
  - destruct (first_meaningful_some pattern m Em) as ((p & Hp & Hlong) & Hbefore).
    assert (Hm : (m < List.length pattern)%nat)
      by (apply nth_error_Some; rewrite Hp; discriminate).
    assert (Hhit : seen main (Z.of_nat k + 1) p (Z.of_nat m)).
    { split; [lia|]. exists p. split; [|reflexivity].
      rewrite index_nonneg by lia.
      replace (Z.to_nat (Z.of_nat k + 1 - 1 + Z.of_nat m)) with (k + m)%nat by lia.
      rewrite <- (nth_error_window main (List.length pattern) k m Hm).
      rewrite <- Hcopy. exact Hp. }
    destruct (fix_offset_first_hit pattern main (Z.of_nat k + 1) m p Hp Hlong)
      as (j & Hj & Hnear & Hfix).
    + exists (Z.of_nat m). exact Hhit.
    + intros i' p' Hi' Hp' Hlong'. exfalso. exact (Hbefore i' p' Hi' Hp' Hlong').
    + specialize (Hnear (Z.of_nat m) Hhit).
      rewrite Hfix. f_equal. lia.
  - apply fix_offset_no_hit.
    intros i p Hp Hlong. exfalso.
    exact (first_meaningful_none pattern Em i p Hp Hlong).
Qed.

Lemma copy_aligns_where_copied_witness :
  find_most_similar_block ["int b;"; "int c;"]
    ["int a;"; "int b;"; "int c;"; "int d;"] (len ["int b;"; "int c;"]) false
  = Ok (Z.of_nat 1 + 1, Fin 0).
Proof.
  apply (copy_aligns_where_copied ["int b;"; "int c;"]
           ["int a;"; "int b;"; "int c;"; "int d;"] 1).
  - split; [reflexivity | simpl; lia].
  - intros k' Hk'. assert (k' = 0%nat) by lia. subst k'.
    vm_compute. discriminate.
  - vm_compute. lia.
Defined.

(* ================================================================== *)
(** * C8: the testcase stage *)
(* ================================================================== *)

Lemma prefix_app (p s : string) : String.prefix p (p ++ s) = true.
Proof.
  induction p as [|c p IH]; cbn; [destruct s; reflexivity|].
  destruct (ascii_dec c c) as [_|Hne]; [exact IH | contradiction].
Qed.

Lemma contains_prefix (sub s : string) :
  String.prefix sub s = true -> contains sub s = true.
Proof. intros H. destruct s; cbn [contains]; rewrite H; reflexivity. Qed.

Lemma contains_after (sub a s : string) :
  contains sub s = true -> contains sub (a ++ s) = true.
Proof.
  intros H. induction a as [|c a IH]; [exact H|].
  cbn [String.append contains]. rewrite IH. apply orb_true_r.
Qed.


Section TestcaseStage.

Variable git_diff_renamed : string -> string -> string -> string.
Variable locate_symbol : string -> string -> option (list (string * Z)).
Variable walk : list string.
Variable read_file : string -> string -> option string.
Variable git_apply : string -> string -> option string.
Variable repr_paths : list string -> string.
Variable _apply_error_handling : string -> string -> result (string * string).
Variable _compile_patch :
  Project -> string -> string -> bool -> result (string * Project).
Variable poc_sh : option completed.
Variable depth : nat.

Let validate (test_sh : option completed) :=
  _validate git_diff_renamed locate_symbol walk read_file git_apply repr_paths
            _apply_error_handling _compile_patch test_sh poc_sh depth.


End TestcaseStage.

(* ================================================================== *)
(** * C6: the patch splitter *)
(* ================================================================== *)

Lemma appends_gret {A} (a : A) : appends (gret a).
Proof. intros ys. exists []. cbn. symmetry. apply app_nil_r. Qed.

Lemma appends_glift {A} (r : result A) : appends (glift r).
Proof. intros ys. exists []. cbn. symmetry. apply app_nil_r. Qed.

Lemma appends_yield_all (xs : list string) : appends (yield_all xs).
Proof. intros ys. exists xs. reflexivity. Qed.

Lemma appends_gbind {A B} (g : gen A) (k : A -> gen B) :
  appends g -> (forall a, appends (k a)) -> appends (gbind g k).
Proof.
  intros Hg Hk ys. unfold gbind.
  destruct (Hg ys) as (zs & Hzs).
  destruct (g ys) as [ys' [a|e]]; cbn [fst] in Hzs; subst ys'.
  - destruct (Hk a (ys ++ zs)) as (zs' & Hzs').
    exists (zs ++ zs'). rewrite Hzs'. symmetry. apply app_assoc.
  - exists zs. reflexivity.
Qed.

Lemma appends_gfold {S A} (f : S -> A -> gen S) (l : list A) (s : S) :
  (forall s x, appends (f s x)) -> appends (gfold f l s).
Proof.
  intros Hf. revert s. induction l as [|x l IH]; intros s; cbn [gfold].
  - apply appends_gret.
  - apply appends_gbind; [apply Hf | exact IH].
Qed.

Lemma gfold_app {S A} (f : S -> A -> gen S) (l1 l2 : list A) (s : S)
  (ys : list string) :
  gfold f (l1 ++ l2) s ys = gbind (gfold f l1 s) (gfold f l2) ys.
Proof.
  revert s ys. induction l1 as [|x l1 IH]; intros s ys; cbn [app gfold].
  - reflexivity.
  - unfold gbind. destruct (f s x ys) as [ys' [s'|e]].
    + rewrite IH. reflexivity.
    + reflexivity.
Qed.

Section SplitPatchFacts.

Variable flag_commit : bool.

Lemma appends_yield_block (message : string) (block : list string) :
  appends (yield_block message block).
Proof.
  apply appends_gbind; [apply appends_glift|].
  intros xs. apply appends_yield_all.
Qed.

Lemma appends_marker_step (lines : list string) (back look : Z)
  (st : string * Z) (line_no : Z) :
  appends (marker_step flag_commit lines back look st line_no).
Proof.
  destruct st as [message last_line]. unfold marker_step.
  apply appends_gbind.
  - destruct (0 <=? last_line); [apply appends_yield_block | apply appends_gret].
  - intros _. apply appends_gbind; [apply appends_glift|].
    intros name. apply appends_gret.
Qed.

Lemma appends_split_step (lines : list string) (st : string * Z) (line_no : Z) :
  appends (split_step flag_commit lines st line_no).
Proof.
  unfold split_step. apply appends_gbind; [apply appends_glift|].
  intros line. apply appends_gbind.
  - destruct (startswith line "--- a/");
      [apply appends_marker_step | apply appends_gret].
  - intros st'. destruct (startswith line "--- /dev/null");
      [apply appends_marker_step | apply appends_gret].
Qed.

Lemma range_prefix (n m : Z) :
  0 <= n <= m -> exists rest, range m = range n ++ rest.
Proof.
  intros H. unfold range.
  assert (E : Z.to_nat m = (Z.to_nat n + (Z.to_nat m - Z.to_nat n))%nat) by lia.
  rewrite E, seq_app, map_app. eexists. reflexivity.
Qed.

(** C6, as worded, fails: a failure that comes after some units were
    yielded leaves them in the sequence.  The first block is complete
    when the marker of a new file is read on the last line; its hunk is
    yielded, and only then the look at the line after the marker
    raises. *)
Lemma units_before_failure_are_kept : ~ parse_failure_yields_nothing.
Proof.
  intros H.
  specialize (H false
"--- a/f.c
+++ b/f.c
@@ -1,1 +1,1 @@
 x
--- /dev/null").
  vm_compute in H.
  assert (Hne : ["Failed to split patch"] <> @nil string) by discriminate.
  specialize (H Hne). discriminate H.
Qed.

(** C6, amended.  For every input text the splitter ends normally: an
    exception of its body never reaches the caller and is recorded in
    the log as a failure to split.  The sequence then stops where the
    failure happened: the units yielded while reading any first [n]
    lines of the patch stay in the sequence, whatever happens later, so
    that the sequence is empty only when the failure comes before the
    first unit. *)
Theorem split_patch_never_raises (patch : string) :
  ending (split_patch flag_commit patch) = Ok tt
  /\ units (split_patch flag_commit patch)
     = fst (split_patch_try flag_commit patch [])
  /\ (logged (split_patch flag_commit patch) = ["Failed to split patch"]
      <-> exists e, snd (split_patch_try flag_commit patch []) = Raise e)
  /\ (logged (split_patch flag_commit patch) = []
      <-> exists u, snd (split_patch_try flag_commit patch []) = Ok u)
  /\ forall n, 0 <= n <= len (splitlines patch) ->
       exists later,
         units (split_patch flag_commit patch)
         = fst (gfold (split_step flag_commit (splitlines patch))
                      (range n) ("", -1) []) ++ later.
Proof.
  assert (Hunits : units (split_patch flag_commit patch)
                   = fst (split_patch_try flag_commit patch [])).
  { unfold split_patch.
    destruct (split_patch_try flag_commit patch []) as [ys [u|e]]; reflexivity. }
  split; [|split; [exact Hunits|split; [|split]]].
  - unfold split_patch.
    destruct (split_patch_try flag_commit patch []) as [ys [u|e]]; reflexivity.
  - unfold split_patch.
    destruct (split_patch_try flag_commit patch []) as [ys [u|e]]; cbn; split.
    + discriminate.
    + intros (e & He). discriminate.
    + eauto.
    + reflexivity.
  - unfold split_patch.
    destruct (split_patch_try flag_commit patch []) as [ys [u|e]]; cbn; split.
    + eauto.
    + reflexivity.
    + discriminate.
    + intros (u & Hu). discriminate.
  - intros n Hn. rewrite Hunits. unfold split_patch_try.
    destruct (range_prefix n (len (splitlines patch)) Hn) as (rest & ->).
    unfold gbind at 1. rewrite gfold_app. unfold gbind at 1.
    destruct (gfold (split_step flag_commit (splitlines patch)) (range n)
                    ("", -1) []) as [ys1 [s1|e1]]; cbn [fst].
    + destruct (appends_gfold (split_step flag_commit (splitlines patch)) rest s1
                  (appends_split_step (splitlines patch)) ys1) as (zs & Hzs).
      destruct (gfold (split_step flag_commit (splitlines patch)) rest s1 ys1)
        as [ys2 [[message last_line]|e2]]; cbn [fst] in Hzs; subst ys2.
      * assert (Hlast : appends
                  (if 0 <=? last_line
                   then yield_block message
                          (slice_from (splitlines patch) last_line)
                   else gret tt)).
        { destruct (0 <=? last_line);
            [apply appends_yield_block | apply appends_gret]. }
        destruct (Hlast (ys1 ++ zs)) as (zs' & Hzs').
        exists (zs ++ zs'). rewrite Hzs'. symmetry. apply app_assoc.
      * exists zs. reflexivity.
    + exists []. symmetry. apply app_nil_r.
Qed.

End SplitPatchFacts.

(* ================================================================== *)
(** * The lines of a repaired hunk keep a tag *)
(* ================================================================== *)

Lemma startswith_char (c a : ascii) (s : string) :
  startswith (String c s) (String a EmptyString) = Ascii.eqb a c.
Proof.
  unfold startswith. cbn [String.prefix].
  destruct (ascii_dec a c) as [->|Hne].
  - rewrite Ascii.eqb_refl. destruct s; reflexivity.
  - symmetry. apply Ascii.eqb_neq. exact Hne.
Qed.

Lemma tagged_cons (c : ascii) (s : string) :
  tagged (String c s)
  = Ascii.eqb " " c || Ascii.eqb "-" c || Ascii.eqb "+" c.
Proof.
  unfold tagged, is_context, is_removed, is_added.
  rewrite !startswith_char. reflexivity.
Qed.

Lemma tagged_nonempty (line : string) :
  tagged line = true -> exists c s, line = String c s.
Proof. destruct line as [|c s]; [discriminate | eauto]. Qed.

Lemma fix_prefix_tagged (line : string) : tagged (fix_prefix line) = true.
Proof.
  unfold fix_prefix.
  destruct (startswith line "+" || startswith line "-" || startswith line " ")
    eqn:E.
  - unfold tagged, is_context, is_removed, is_added.
    destruct (startswith line "+"), (startswith line "-"),
      (startswith line " "); (reflexivity || discriminate).
  - cbn [String.append]. rewrite tagged_cons. reflexivity.
Qed.

Lemma sign_of_cons (c : ascii) (s : string) :
  sign_of (String c s) = String c EmptyString.
Proof. unfold sign_of. destruct s; reflexivity. Qed.

Lemma Forall_snoc {A} (P : A -> Prop) (l : list A) (x : A) :
  Forall P l -> P x -> Forall P (l ++ [x]).
Proof.
  intros Hl Hx. apply Forall_app. split; [exact Hl|].
  constructor; [exact Hx | constructor].
Qed.

Lemma Forall_set_nth {A} (P : A -> Prop) (l : list A) (n : nat) (x : A) :
  Forall P l -> P x -> Forall P (set_nth l n x).
Proof.
  intros Hl Hx. revert n. induction Hl as [|y l Hy Hl IH]; intros n.
  - constructor.
  - destruct n; cbn [set_nth]; constructor; auto.
Qed.

Lemma assign_Forall {A} (P : A -> Prop) (l l' : list A) (i : Z) (x : A) :
  assign l i x = Ok l' -> Forall P l -> P x -> Forall P l'.
Proof.
  unfold assign. intros H Hl Hx.
  destruct ((0 <=? i) && (i <? len l)).
  - injection H as <-. apply Forall_set_nth; assumption.
  - destruct ((- len l <=? i) && (i <? 0)); [|discriminate].
    injection H as <-. apply Forall_set_nth; assumption.
Qed.

Lemma foldM_invariant {S A} (I : S -> Prop) (P : A -> Prop)
  (f : S -> A -> result S) (l : list A) (s s' : S) :
  (forall s x s', I s -> P x -> f s x = Ok s' -> I s') ->
  Forall P l -> I s -> foldM f l s = Ok s' -> I s'.
Proof.
  intros Hstep Hl. revert s. induction Hl as [|x l Hx Hl IH]; intros s Hs Hrun.
  - injection Hrun as <-. exact Hs.
  - cbn [foldM] in Hrun. apply bind_ok in Hrun as (s1 & H1 & Hrun).
    apply (IH s1); [|exact Hrun]. exact (Hstep s x s1 Hs Hx H1).
Qed.

Section Tagged.

Variable revise_context : bool.
Variable target_file_lines : list string.

Lemma rewrite_step_tagged (lineno : Z) (st st' : Z * list string)
  (line : string) :
  all_tagged (snd st) ->
  tagged line = true ->
  rewrite_step revise_context target_file_lines lineno st line = Ok st' ->
  all_tagged (snd st').
Proof.
  destruct st as [i revised]. cbn [snd]. intros Hacc Hline.
  destruct (tagged_nonempty line Hline) as (c & s & ->).
  rewrite tagged_cons in Hline.
  unfold rewrite_step. rewrite !startswith_char.
  destruct (Ascii.eqb " " c || Ascii.eqb "-" c) eqn:Eold.
  - intros H. apply bind_ok in H as (new_line & _ & H).
    destruct revise_context.
    + injection H as <-. cbn [snd]. apply Forall_snoc; [exact Hacc|].
      cbn [String.append]. rewrite tagged_cons. reflexivity.
    + destruct (String.eqb _ _); injection H as <-; cbn [snd];
        (apply Forall_snoc; [exact Hacc|]).
      * rewrite tagged_cons, Eold. reflexivity.
      * rewrite tagged_cons, Eold. reflexivity.
  - intros H. injection H as <-. cbn [snd]. apply Forall_snoc; [exact Hacc|].
    cbn [orb] in Hline.
    apply Ascii.eqb_eq in Hline. subst c.
    rewrite tagged_cons. reflexivity.
Qed.

Lemma mark_step_tagged (st st' : Z * list string) (line : string) :
  all_tagged (snd st) ->
  mark_step st line = Ok st' ->
  all_tagged (snd st').
Proof.
  destruct st as [last_line revised]. cbn [snd]. intros Hacc.
  unfold mark_step. destruct (negb (startswith line "-")).
  - intros H. injection H as <-. exact Hacc.
  - intros H. apply bind_ok in H as ([dlineno d] & _ & H).
    apply bind_ok in H as (old & _ & H).
    apply bind_ok in H as (revised' & Hassign & H).
    injection H as <-. cbn [snd].
    apply (assign_Forall _ _ _ _ _ Hassign Hacc).
    cbn [String.append]. rewrite tagged_cons. reflexivity.
Qed.

Lemma force_phase_tagged (tmp_lines : list string) (lineno i : Z)
  (revised revised' : list string) :
  all_tagged revised ->
  force_phase tmp_lines target_file_lines lineno i revised = Ok revised' ->
  all_tagged revised'.
Proof.
  intros Hacc H. unfold force_phase in H.
  apply bind_ok in H as ([last_line marked] & Hmark & H).
  assert (Hmarked : all_tagged marked).
  { apply (foldM_invariant (fun st => all_tagged (snd st)) (fun _ => True)
             mark_step tmp_lines (0, revised) (last_line, marked)).
    - intros s x s' Hs _ Hstep. exact (mark_step_tagged s s' x Hs Hstep).
    - apply Forall_forall. intros; exact I.
    - exact Hacc.
    - exact Hmark. }
  apply bind_ok in H as (last & _ & H).
  destruct (negb (startswith last " ")).
  - apply bind_ok in H as (new_line & _ & H). injection H as <-.
    apply Forall_snoc; [exact Hmarked|].
    cbn [String.append]. rewrite tagged_cons. reflexivity.
  - injection H as <-. exact Hmarked.
Qed.

Lemma revise_body_tagged (lines : list string) (header : string)
  (revised : list string) :
  revise_body revise_context lines target_file_lines = Ok (header, revised) ->
  all_tagged revised.
Proof.
  unfold revise_body. intros H.
  apply bind_ok in H as (lines' & _ & H).
  destruct (extract_context (map fix_prefix (slice_from lines' 1)))
    as [[[contexts num_context] add_lines] num_add].
  apply bind_ok in H as ([lineno d] & _ & H).
  apply bind_ok in H as ([i rewritten] & Hloop & H).
  apply bind_ok in H as (revised' & Hforce & H).
  apply bind_ok in H as (header' & _ & H).
  injection H as _ <-.
  assert (Hrewritten : all_tagged rewritten).
  { apply (foldM_invariant (fun st => all_tagged (snd st))
             (fun line => tagged line = true)
             (rewrite_step revise_context target_file_lines lineno)
             (map fix_prefix (slice_from lines' 1)) (0, []) (i, rewritten)).
    - intros s x s' Hs Hx Hstep. exact (rewrite_step_tagged lineno s s' x Hs Hx Hstep).
    - apply Forall_map, Forall_forall. intros x _. apply fix_prefix_tagged.
    - constructor.
    - exact Hloop. }
  destruct revise_context.
  - exact (force_phase_tagged _ _ _ _ _ Hrewritten Hforce).
  - injection Hforce as <-. exact Hrewritten.
Qed.

End Tagged.

Lemma counts_of_tagged (l : list string) :
  all_tagged l ->
  count_not (fun line => startswith line "+") l
  = (count is_context l + count is_removed l)%nat
  /\ count_not (fun line => startswith line "-") l
     = (count is_context l + count is_added l)%nat.
Proof.
  unfold count_not, count.
  induction 1 as [|line l Hline Hl (IHo & IHn)]; [split; reflexivity|].
  destruct (tagged_nonempty line Hline) as (c & s & ->).
  rewrite tagged_cons in Hline.
  cbn [filter]. unfold is_context, is_removed, is_added in *.
  rewrite !startswith_char.
  destruct (Ascii.eqb_spec " " c) as [<-|H1];
    [|destruct (Ascii.eqb_spec "-" c) as [<-|H2];
      [|destruct (Ascii.eqb_spec "+" c) as [<-|H3]; [|discriminate]]];
    cbn [negb Ascii.eqb Bool.eqb List.length]; split; lia.
Qed.

(* ================================================================== *)
(** * C3: the header is recounted from the body *)
(* ================================================================== *)

(** What [revise_hunk] returns, taken apart. *)
Lemma revise_hunk_inv (revise_context : bool)
  (lines target_file_lines : list string) (text : string) (fixed : bool) :
  revise_hunk revise_context lines target_file_lines = Ok (text, fixed) ->
  exists h header c1 c3,
    text = render h
    /\ revise_body revise_context lines target_file_lines
       = Ok (header, body h)
    /\ find_header header
       = Ok (old_start h, c1, new_start h, c3, trailing_hint h)
    /\ old_count h = count_not (fun line => startswith line "+") (body h)
    /\ new_count h = count_not (fun line => startswith line "-") (body h)
    /\ fixed = negb (String.eqb (old_start h) (new_start h)).
Proof.
  unfold revise_hunk, revise_hunk_parts. intros H.
  apply bind_ok in H as ([h fixed'] & H & E). injection E as <- <-.
  apply bind_ok in H as ([header revised] & Hbody & H).
  apply bind_ok in H as ([[[[c0 c1] c2] c3] c4] & Hheader & H).
  injection H as <- <-.
  exists (mk_hunk c0 (count_not (fun line => startswith line "+") revised)
                  c2 (count_not (fun line => startswith line "-") revised)
                  c4 revised), header, c1, c3.
  cbn [old_start new_start old_count new_count trailing_hint body].
  repeat split; assumption.
Qed.

(** C3.  For every hunk that [revise_hunk] outputs, in either repair
    mode, the text is the recomputed header followed by the rewritten
    body; the old count of the header is the number of context and
    removed lines of that body and the new count is the number of its
    context and added lines.  The two start fields and the trailer are
    those of the original header, and the hunk is flagged as modified
    whenever the old-start field differs from the new-start field. *)
Theorem header_is_recounted (revise_context : bool)
  (lines target_file_lines : list string) (text : string) (fixed : bool) :
  revise_hunk revise_context lines target_file_lines = Ok (text, fixed) ->
  exists h,
    text = render h
    /\ old_count h = (count is_context (body h) + count is_removed (body h))%nat
    /\ new_count h = (count is_context (body h) + count is_added (body h))%nat
    /\ (exists header c1 c3,
          revise_body revise_context lines target_file_lines
          = Ok (header, body h)
          /\ find_header header
             = Ok (old_start h, c1, new_start h, c3, trailing_hint h))
    /\ (old_start h <> new_start h -> fixed = true).
Proof.
  intros H.
  destruct (revise_hunk_inv _ _ _ _ _ H)
    as (h & header & c1 & c3 & Htext & Hbody & Hheader & Hold & Hnew & Hfixed).
  destruct (counts_of_tagged (body h)
              (revise_body_tagged _ _ _ _ _ Hbody)) as (Hold' & Hnew').
  exists h. split; [exact Htext|].
  split; [rewrite Hold; exact Hold'|].
  split; [rewrite Hnew; exact Hnew'|]. split.
  - exists header, c1, c3. split; [exact Hbody | exact Hheader].
  - intros Hne. apply String.eqb_neq in Hne. rewrite Hfixed, Hne. reflexivity.
Qed.

Lemma header_is_recounted_witness :
  let lines := ["@@ -2,3 +1,4 @@ int f()"; " int a;"; " int b;"; "+int x;";
                " int c;"] in
  let target := ["int a;"; "  int b;"; "int c;"; "int d;"] in
  exists h,
    "@@ -2,3 +1,4 @@ int f()
 int a;
   int b;
+int x;
 int c;" = render h
    /\ old_count h = (count is_context (body h) + count is_removed (body h))%nat
    /\ new_count h = (count is_context (body h) + count is_added (body h))%nat
    /\ (exists header c1 c3,
          revise_body false lines target = Ok (header, body h)
          /\ find_header header
             = Ok (old_start h, c1, new_start h, c3, trailing_hint h))
    /\ (old_start h <> new_start h -> true = true).
Proof.
  intros lines target.
  apply (header_is_recounted false lines target _ true).
  vm_compute. reflexivity.
Defined.

(* ================================================================== *)
(** * C2: whitespace-only repair *)
(* ================================================================== *)

Section WhitespaceOnly.

Variable target_file_lines : list string.
Variable lineno : Z.

Lemma rewrite_step_old (i : Z) (acc : list string) (line : string)
  (st' : Z * list string) :
  is_old line = true ->
  rewrite_step false target_file_lines lineno (i, acc) line = Ok st' ->
  exists new_line,
    index target_file_lines (lineno - 1 + i) = Some new_line
    /\ st' = (i + 1, acc ++ [whitespace_repair line new_line]).
Proof.
  intros Hold H. unfold rewrite_step in H.
  change (startswith line " " || startswith line "-") with (is_old line) in H.
  rewrite Hold in H. apply bind_ok in H as (new_line & Hnew & H).
  exists new_line. split.
  - destruct (index target_file_lines (lineno - 1 + i)); [|discriminate].
    injection Hnew as ->. reflexivity.
  - unfold whitespace_repair.
    destruct (String.eqb _ _); injection H as <-; reflexivity.
Qed.

Lemma rewrite_step_added (i : Z) (acc : list string) (line : string) :
  is_old line = false ->
  rewrite_step false target_file_lines lineno (i, acc) line
  = Ok (i, acc ++ [replace_apos_s line]).
Proof.
  intros Hold. unfold rewrite_step.
  change (startswith line " " || startswith line "-") with (is_old line).
  rewrite Hold. reflexivity.
Qed.

(** The rewrite loop, one output line per body line. *)
Lemma rewrite_loop_spec (l : list string) :
  forall (i0 : Z) (acc : list string) (i : Z) (out : list string),
    foldM (rewrite_step false target_file_lines lineno) l (i0, acc)
    = Ok (i, out) ->
    exists added,
      out = acc ++ added
      /\ List.length added = List.length l
      /\ forall k line,
           nth_error l k = Some line ->
           is_old line = true ->
           exists new_line,
             index target_file_lines
                   (lineno - 1 + (i0 + Z.of_nat (count is_old (firstn k l))))
             = Some new_line
             /\ nth_error added k = Some (whitespace_repair line new_line).
Proof.
  induction l as [|x l IH]; intros i0 acc i out H.
  - injection H as <- <-. exists []. split; [symmetry; apply app_nil_r|].
    split; [reflexivity|]. intros k line Hk. destruct k; discriminate.
  - cbn [foldM] in H. apply bind_ok in H as ([i1 acc1] & Hstep & Hrest).
    destruct (IH i1 acc1 i out Hrest) as (added & -> & Hlen & Hlines).
    destruct (is_old x) eqn:Hx.
    + destruct (rewrite_step_old i0 acc x _ Hx Hstep) as (new_x & Hnew & E).
      injection E as -> ->.
      exists (whitespace_repair x new_x :: added).
      split; [rewrite <- app_assoc; reflexivity|].
      split; [cbn [List.length]; lia|].
      intros [|k] line Hk Hold; cbn [nth_error] in Hk.
      * injection Hk as <-. exists new_x. split; [|reflexivity].
        cbn [firstn count filter List.length]. unfold count. cbn.
        rewrite Z.add_0_r. exact Hnew.
      * destruct (Hlines k line Hk Hold) as (new_line & Hidx & Hout).
        exists new_line. split; [|exact Hout].
        unfold count in *. cbn [firstn filter]. rewrite Hx.
        cbn [List.length]. rewrite <- Hidx. f_equal. lia.
    + rewrite (rewrite_step_added i0 acc x Hx) in Hstep.
      injection Hstep as <- <-.
      exists (replace_apos_s x :: added).
      split; [rewrite <- app_assoc; reflexivity|].
      split; [cbn [List.length]; lia|].
      intros [|k] line Hk Hold; cbn [nth_error] in Hk.
      * injection Hk as <-. rewrite Hx in Hold. discriminate.
      * destruct (Hlines k line Hk Hold) as (new_line & Hidx & Hout).
        exists new_line. split; [|exact Hout].
        unfold count in *. cbn [firstn filter]. rewrite Hx. exact Hidx.
Qed.

End WhitespaceOnly.

(** A repaired old line keeps its tag. *)
Lemma whitespace_repair_keeps_tag (line new_line : string) :
  is_old line = true ->
  is_context (whitespace_repair line new_line) = is_context line
  /\ is_removed (whitespace_repair line new_line) = is_removed line.
Proof.
  intros Hold. unfold whitespace_repair.
  destruct (String.eqb _ _); [|split; reflexivity].
  destruct line as [|c s]; [discriminate|].
  rewrite sign_of_cons. cbn [String.append].
  unfold is_context, is_removed. rewrite !startswith_char. split; reflexivity.
Qed.

(** C2.  In whitespace-only mode ([revise_context] false), when
    [revise_hunk] rewrites a hunk, the body it produces has one line
    per body line of the hunk, and each context or removed line is
    compared with the line of the real file that faces it (the aligned
    start plus the number of context and removed lines before it): if
    the two are identical once all white space is removed, the line
    becomes the real file's line behind the same tag; otherwise the
    line is kept unchanged. *)
Theorem whitespace_only_repair
  (lines target_file_lines : list string) (text : string) (fixed : bool) :
  revise_hunk false lines target_file_lines = Ok (text, fixed) ->
  exists h lines' lineno d,
    text = render h
    /\ strip_trailer lines = Ok lines'
    /\ find_most_similar_block
         (fst (extract_lines (body_lines lines'))) target_file_lines
         (len (fst (extract_lines (body_lines lines')))) false
       = Ok (lineno, d)
    /\ List.length (body h) = List.length (body_lines lines')
    /\ forall k line,
         nth_error (body_lines lines') k = Some line ->
         is_old line = true ->
         exists new_line,
           index target_file_lines (facing lineno (body_lines lines') k)
           = Some new_line
           /\ nth_error (body h) k = Some (whitespace_repair line new_line)
           /\ is_context (whitespace_repair line new_line) = is_context line
           /\ is_removed (whitespace_repair line new_line) = is_removed line.
Proof.
  intros Hrun.
  destruct (revise_hunk_inv _ _ _ _ _ Hrun)
    as (h & header & _ & _ & Htext & H & _).
  unfold revise_body in H.
  apply bind_ok in H as (lines' & Htrail & H).
  fold (body_lines lines') in H. unfold extract_context in H.
  destruct (extract_lines (body_lines lines')) as [contexts add_lines] eqn:Ectx.
  apply bind_ok in H as ([lineno d] & Halign & H).
  apply bind_ok in H as ([i rewritten] & Hloop & H).
  cbn [bind] in H. apply bind_ok in H as (header' & _ & H).
  injection H as _ Hb.
  exists h, lines', lineno, d. split; [exact Htext|]. split; [exact Htrail|].
  rewrite <- Hb, Ectx. cbn [fst]. split; [exact Halign|].
  destruct (rewrite_loop_spec target_file_lines lineno _ _ _ _ _ Hloop)
    as (added & -> & Hlen & Hlines).
  cbn [app]. split; [exact Hlen|].
  intros k line Hk Hold.
  destruct (Hlines k line Hk Hold) as (new_line & Hidx & Hout).
  exists new_line. split; [exact Hidx|]. split; [exact Hout|].
  apply whitespace_repair_keeps_tag, Hold.
Qed.

Lemma whitespace_only_repair_witness :
  let lines := ["@@ -2,3 +1,4 @@ int f()"; " int a;"; " int b;"; "+int x;";
                " int Q;"] in
  let target := ["int a;"; "  int b;"; "int c;"; "int d;"] in
  exists h lines' lineno d,
    "@@ -2,3 +1,4 @@ int f()
 int a;
   int b;
+int x;
 int Q;" = render h
    /\ strip_trailer lines = Ok lines'
    /\ find_most_similar_block
         (fst (extract_lines (body_lines lines'))) target
         (len (fst (extract_lines (body_lines lines')))) false
       = Ok (lineno, d)
    /\ List.length (body h) = List.length (body_lines lines')
    /\ forall k line,
         nth_error (body_lines lines') k = Some line ->
         is_old line = true ->
         exists new_line,
           index target (facing lineno (body_lines lines') k) = Some new_line
           /\ nth_error (body h) k = Some (whitespace_repair line new_line)
           /\ is_context (whitespace_repair line new_line) = is_context line
           /\ is_removed (whitespace_repair line new_line) = is_removed line.
Proof.
  intros lines target.
  apply (whitespace_only_repair lines target _ true).
  vm_compute. reflexivity.
Defined.

(* ================================================================== *)
(** * C5: a block that fails *)
(* ================================================================== *)

Lemma index_middle {A} (done rest : list A) (x : A) :
  index (done ++ x :: rest) (Z.of_nat (List.length done)) = Some x.
Proof.
  rewrite index_nonneg by lia. rewrite Nat2Z.id.
  rewrite nth_error_app2 by lia. rewrite Nat.sub_diag. reflexivity.
Qed.

Lemma slice_done {A} (done todo : list A) (last : Z) :
  0 <= last <= len done ->
  slice (done ++ todo) last (len done) = skipn (Z.to_nat last) done.
Proof.
  intros H. unfold slice, clamp, len in *. rewrite length_app.
  destruct (last <? 0) eqn:E1; [lia|].
  destruct (Z.of_nat (List.length done) <? 0) eqn:E2; [lia|].
  rewrite !Z.min_l by lia.
  rewrite skipn_app.
  replace (Z.to_nat last - List.length done)%nat with 0%nat by lia.
  cbn [skipn]. rewrite firstn_app.
  rewrite length_skipn.
  replace (Z.to_nat (Z.of_nat (List.length done) - last)
           - (List.length done - Z.to_nat last))%nat with 0%nat by lia.
  cbn [firstn]. rewrite app_nil_r.
  apply firstn_all2. rewrite length_skipn. lia.
Qed.

Lemma slice_from_skipn {A} (l : list A) (last : Z) :
  0 <= last <= len l -> slice_from l last = skipn (Z.to_nat last) l.
Proof.
  intros H. unfold slice_from, clamp.
  destruct (last <? 0) eqn:E1; [lia|].
  rewrite Z.min_l by lia. reflexivity.
Qed.

Section BlockByBlock.

Variable read_file : string -> option string.
Variable revise_context : bool.

Let repair := revise_block read_file revise_context.

Lemma open_block_snoc (last : Z) (done : list string) (x : string) :
  last = -1 \/ 0 <= last <= len done ->
  open_block last (done ++ [x])
  = option_map (fun b => b ++ [x]) (open_block last done).
Proof.
  intros H. unfold open_block.
  destruct (Z.eqb_spec last (-1)) as [E|E]; [reflexivity|].
  cbn [option_map]. f_equal. rewrite skipn_app.
  unfold len in H.
  replace (Z.to_nat last - List.length done)%nat with 0%nat by lia.
  reflexivity.
Qed.

Lemma open_block_marker (done : list string) (x : string) :
  open_block (Z.of_nat (List.length done)) (done ++ [x]) = Some [x].
Proof.
  unfold open_block.
  destruct (Z.eqb_spec (Z.of_nat (List.length done)) (-1)) as [E|E]; [lia|].
  rewrite Nat2Z.id, skipn_app, Nat.sub_diag, skipn_all. reflexivity.
Qed.

Lemma repair_rest_cons (b : list string) (more : list (list string))
  (todo : list string) (cur : option (list string))
  (fixed_lines : list string) (fixed : bool) :
  blocks_from cur todo = b :: more ->
  repair_rest read_file revise_context cur todo fixed_lines fixed
  = match repair b with
    | Ok (block_lines, block_fixed) =>
        rs <- mapM repair more ;;
        Ok ((join_nl ((fixed_lines ++ block_lines) ++ List.concat (map fst rs))
             ++ String nl EmptyString)%string,
            (fixed || block_fixed) || existsb snd rs)
    | Raise e => Raise e
    end.
Proof.
  intros E. unfold repair_rest. rewrite E. cbn [mapM]. fold repair.
  destruct (repair b) as [[block_lines block_fixed]|e]; [|reflexivity].
  cbn [bind]. destruct (mapM repair more) as [rs|e]; [|reflexivity].
  cbn [bind map List.concat existsb fst snd].
  rewrite app_assoc, orb_assoc. reflexivity.
Qed.

(** The block loop of [revise_patch], from any line on, is the repair
    of the blocks in order. *)
Lemma patch_loop_blocks (todo : list string) :
  forall (done : list string) (last : Z) (fixed_lines : list string)
         (fixed : bool),
    last = -1 \/ 0 <= last <= len done ->
    bind (foldM (patch_step read_file revise_context (done ++ todo))
                (map Z.of_nat (seq (List.length done) (List.length todo)))
                (last, fixed_lines, fixed))
         (patch_finish read_file revise_context (done ++ todo))
    = repair_rest read_file revise_context (open_block last done) todo
                  fixed_lines fixed.
Proof.
  induction todo as [|x rest IH]; intros done last fixed_lines fixed Hlast.
  - cbn [List.length seq map foldM bind]. rewrite app_nil_r.
    unfold patch_finish, repair_rest, open_block.
    destruct (Z.eqb_spec last (-1)) as [E|E]; cbn [negb blocks_from mapM bind].
    + cbn [map List.concat existsb]. rewrite app_nil_r, orb_false_r. reflexivity.
    + rewrite slice_from_skipn by lia. fold repair.
      destruct (repair (skipn (Z.to_nat last) done)) as [[bl bf]|e];
        [|reflexivity].
      cbn [bind map List.concat existsb fst snd].
      rewrite !app_nil_r, orb_false_r. reflexivity.
  - cbn [List.length seq map foldM].
    assert (Hlines : done ++ x :: rest = (done ++ [x]) ++ rest)
      by (rewrite <- app_assoc; reflexivity).
    assert (Hlen : S (List.length done) = List.length (done ++ [x]))
      by (rewrite length_app; cbn; lia).
    assert (Hlen' : len (done ++ [x]) = Z.of_nat (List.length done) + 1)
      by (unfold len; rewrite length_app; cbn; lia).
    assert (Hld : len done = Z.of_nat (List.length done)) by reflexivity.
    unfold patch_step at 1. rewrite index_middle. cbn [of_option bind].
    destruct (block_start x) eqn:Hx.
    + destruct (Z.eqb_spec last (-1)) as [E|E]; cbn [negb].
      * cbn [bind]. rewrite Hlines, Hlen, IH by lia.
        rewrite open_block_marker. unfold open_block, repair_rest.
        destruct (Z.eqb_spec last (-1)) as [_|E']; [|contradiction].
        cbn [blocks_from]. rewrite Hx. reflexivity.
      * change (Z.of_nat (List.length done)) with (len done) at 1.
        rewrite slice_done by lia.
        rewrite (repair_rest_cons (skipn (Z.to_nat last) done)
                   (blocks_from (Some [x]) rest)).
        2:{ unfold open_block.
            destruct (Z.eqb_spec last (-1)) as [E'|_]; [contradiction|].
            cbn [blocks_from]. rewrite Hx. reflexivity. }
        fold repair.
        destruct (repair (skipn (Z.to_nat last) done)) as [[bl bf]|e];
          [|reflexivity].
        cbn [bind]. rewrite Hlines, Hlen, IH by lia.
        rewrite open_block_marker. reflexivity.
    + cbn [bind]. rewrite Hlines, Hlen, IH by lia.
      rewrite open_block_snoc by exact Hlast.
      unfold repair_rest at 2. cbn [blocks_from]. rewrite Hx. reflexivity.
Qed.

(** [revise_patch] before its [except]: the blocks are repaired in
    order and the first exception ends the repair. *)
Lemma revise_patch_try_blocks (patch : string) :
  revise_patch_try read_file revise_context patch
  = (rs <- mapM repair (blocks_of (splitlines patch)) ;; Ok (assemble rs)).
Proof.
  unfold revise_patch_try.
  pose proof (patch_loop_blocks (splitlines patch) [] (-1) [] false
                (or_introl eq_refl)) as H.
  cbn [app List.length] in H.
  unfold range, len. rewrite Nat2Z.id. exact H.
Qed.

End BlockByBlock.

(** C5, as worded, fails: an exception in one block undoes the repair
    of the others.  The first block of the patch is repairable (its
    second context line lacks the indentation of the file), the header
    of the second hunk does not match the header expression, and the
    whole patch comes back as it was. *)
Lemma failing_block_undoes_the_others :
  ~ repairs_block_by_block two_files false patch_with_bad_header.
Proof.
  unfold repairs_block_by_block. vm_compute. discriminate.
Qed.

(** C5, amended.  Repair goes through the file blocks in order.  When
    no block raises, the result is put together from the outcomes of
    all the blocks.  A block whose file cannot be read does not raise:
    it is given back as it is, with a false flag, and the blocks after
    it are repaired.  When the repair of any block raises (a hunk
    header that does not parse, an index out of range, the failed check
    on the two paths), the whole patch is given back unmodified with
    the flag false. *)
Theorem repair_is_whole_or_nothing
  (read_file : string -> option string) (revise_context : bool)
  (patch : string) :
  (forall rs,
     mapM (revise_block read_file revise_context)
          (blocks_of (splitlines patch)) = Ok rs ->
     revise_patch read_file revise_context patch = assemble rs)
  /\ (forall e,
        mapM (revise_block read_file revise_context)
             (blocks_of (splitlines patch)) = Raise e ->
        revise_patch read_file revise_context patch = (patch, false))
  /\ (forall block a fa b fb,
        header_path "--- a/" block 0 = Ok (a, fa) ->
        header_path "+++ b/" block 1 = Ok (b, fb) ->
        paths_agree a fa b fb = true ->
        read_file a = None ->
        revise_block read_file revise_context block = Ok (block, false)).
Proof.
  split; [|split].
  - intros rs H. unfold revise_patch.
    rewrite revise_patch_try_blocks, H. reflexivity.
  - intros e H. unfold revise_patch.
    rewrite revise_patch_try_blocks, H. reflexivity.
  - intros block a fa b fb Ha Hb Hagree Hread. unfold revise_block.
    rewrite Ha. cbn [bind]. rewrite Hb. cbn [bind].
    unfold paths_agree in Hagree. rewrite Hagree. cbn [negb].
    rewrite Hread. reflexivity.
Qed.

(* ================================================================== *)
(** * The five nearest file names *)
(* ================================================================== *)

Lemma insert_by_distance_perm (x : nat * string) (l : list (nat * string)) :
  Permutation (insert_by_distance x l) (x :: l).
Proof.
  induction l as [|y l IH]; cbn [insert_by_distance]; [reflexivity|].
  destruct (fst x <=? fst y)%nat; [reflexivity|].
  rewrite IH. apply perm_swap.
Qed.

Lemma sort_by_distance_perm (l : list (nat * string)) :
  Permutation (sort_by_distance l) l.
Proof.
  induction l as [|x l IH]; cbn [sort_by_distance fold_right]; [reflexivity|].
  fold (sort_by_distance l). rewrite insert_by_distance_perm, IH. reflexivity.
Qed.

Lemma insert_by_distance_sorted (x : nat * string) (l : list (nat * string)) :
  StronglySorted nearer l -> StronglySorted nearer (insert_by_distance x l).
Proof.
  induction 1 as [|y l Hl IH Hy]; cbn [insert_by_distance].
  - constructor; constructor.
  - destruct (Nat.leb_spec (fst x) (fst y)) as [Hle|Hgt].
    + constructor; [constructor; assumption|].
      constructor; [exact Hle|].
      eapply Forall_impl; [|exact Hy]. unfold nearer. intros z Hz. lia.
    + constructor; [exact IH|].
      eapply Permutation_Forall;
        [symmetry; apply insert_by_distance_perm|].
      constructor; [unfold nearer; lia | exact Hy].
Qed.

Lemma sort_by_distance_sorted (l : list (nat * string)) :
  StronglySorted nearer (sort_by_distance l).
Proof.
  induction l as [|x l IH]; cbn [sort_by_distance fold_right].
  - constructor.
  - apply insert_by_distance_sorted. exact IH.
Qed.

Lemma in_firstn_in {A} (n : nat) (l : list A) (x : A) :
  In x (firstn n l) -> In x l.
Proof.
  intros H. rewrite <- (firstn_skipn n l). apply in_or_app. left. exact H.
Qed.

Lemma in_skipn_in {A} (n : nat) (l : list A) (x : A) :
  In x (skipn n l) -> In x l.
Proof.
  intros H. rewrite <- (firstn_skipn n l). apply in_or_app. right. exact H.
Qed.

Lemma sorted_firstn_skipn (l : list (nat * string)) (n : nat) :
  StronglySorted nearer l ->
  forall x y, In x (firstn n l) -> In y (skipn n l) -> nearer x y.
Proof.
  intros Hl. revert n. induction Hl as [|z l Hl IH Hz]; intros n x y Hx Hy.
  - rewrite firstn_nil in Hx. destruct Hx.
  - destruct n as [|n]; [destruct Hx|].
    cbn [firstn skipn] in Hx, Hy. destruct Hx as [<-|Hx].
    + rewrite Forall_forall in Hz. apply Hz.
      apply (in_skipn_in n). exact Hy.
    + exact (IH n x y Hx Hy).
Qed.

Section NearestFiles.

Variable target_filename : string.
Variable walk : list string.

Let similarity_list : list (nat * string) :=
  map (fun relative_path =>
         (Levenshtein.distance target_filename (basename relative_path),
          relative_path)) walk.

Lemma in_similarity_list (d : nat) (p : string) :
  In (d, p) similarity_list <->
  In p walk /\ d = name_distance target_filename p.
Proof.
  unfold similarity_list. rewrite in_map_iff. split.
  - intros (q & E & Hq). injection E as <- <-. split; [exact Hq|reflexivity].
  - intros (Hp & ->). exists p. split; [reflexivity | exact Hp].
Qed.

(** [find_most_similar_files] gives five files of the repository, or
    all of them when there are fewer, and no file it leaves out is
    nearer to the missing name than a file it gives. *)
Lemma find_most_similar_files_nearest :
  List.length (find_most_similar_files target_filename walk)
  = Nat.min 5 (List.length walk)
  /\ (forall p, In p (find_most_similar_files target_filename walk) ->
                In p walk)
  /\ (forall p q,
        In p (find_most_similar_files target_filename walk) ->
        In q walk ->
        ~ In q (find_most_similar_files target_filename walk) ->
        (name_distance target_filename p <= name_distance target_filename q)%nat).
Proof.
  unfold find_most_similar_files. fold similarity_list.
  set (sorted := sort_by_distance similarity_list).
  assert (Hperm : Permutation sorted similarity_list)
    by apply sort_by_distance_perm.
  assert (Hsorted : StronglySorted nearer sorted)
    by apply sort_by_distance_sorted.
  assert (Hfirst : forall p, In p (map snd (firstn 5 sorted)) ->
            In (name_distance target_filename p, p) (firstn 5 sorted)
            /\ In p walk).
  { intros p Hp. apply in_map_iff in Hp as ([d p'] & E & Hin).
    cbn [snd] in E. subst p'.
    assert (Hsim : In (d, p) similarity_list).
    { eapply Permutation_in; [exact Hperm|].
      apply (in_firstn_in 5). exact Hin. }
    apply in_similarity_list in Hsim as (Hw & ->). split; assumption. }
  split; [|split].
  - rewrite length_map, length_firstn.
    rewrite (Permutation_length Hperm). unfold similarity_list.
    rewrite length_map. reflexivity.
  - intros p Hp. apply (Hfirst p Hp).
  - intros p q Hp Hq Hout. destruct (Hfirst p Hp) as (Hp5 & _).
    assert (Hq' : In (name_distance target_filename q, q) sorted).
    { eapply Permutation_in; [symmetry; exact Hperm|].
      apply in_similarity_list. split; [exact Hq | reflexivity]. }
    rewrite <- (firstn_skipn 5 sorted) in Hq'.
    apply in_app_or in Hq' as [Hq5|Hrest].
    + exfalso. apply Hout. apply in_map_iff.
      exists (name_distance target_filename q, q). split; [reflexivity|exact Hq5].
    + exact (sorted_firstn_skipn sorted 5 Hsorted _ _ Hp5 Hrest).
Qed.

End NearestFiles.

(* ================================================================== *)
(** * The symbol named on a line *)
(* ================================================================== *)

Lemma word_is_no_space (c : ascii) : isword c = true -> isspace c = false.
Proof.
  destruct c as [[] [] [] [] [] [] [] []]; vm_compute; congruence.
Qed.

Lemma word_is_no_opener (c : ascii) : isword c = true -> opener c = false.
Proof.
  destruct c as [[] [] [] [] [] [] [] []]; vm_compute; congruence.
Qed.

Lemma space_is_no_word (c : ascii) : isspace c = true -> isword c = false.
Proof.
  destruct c as [[] [] [] [] [] [] [] []]; vm_compute; congruence.
Qed.

Lemma opener_is_plain (c : ascii) :
  opener c = true -> isspace c = false /\ isword c = false.
Proof.
  destruct c as [[] [] [] [] [] [] [] []]; vm_compute; intros H;
    try discriminate H; split; reflexivity.
Qed.

Lemma take_word_app (w r : string) :
  all_chars isword w = true ->
  match r with
  | EmptyString => True
  | String x _ => isword x = false
  end ->
  take_word (w ++ r) = (w, r).
Proof.
  intros Hw Hr. induction w as [|a w IH]; cbn [String.append].
  - destruct r as [|x r]; [reflexivity|]. cbn [take_word]. rewrite Hr.
    reflexivity.
  - cbn [all_chars] in Hw. apply andb_true_iff in Hw as [Ha Hw].
    cbn [take_word]. rewrite Ha, (IH Hw). reflexivity.
Qed.

Lemma take_word_split (s : string) :
  s = (fst (take_word s) ++ snd (take_word s))%string.
Proof.
  induction s as [|c s IH]; [reflexivity|]. cbn [take_word].
  destruct (isword c); [|reflexivity].
  destruct (take_word s) as [w r]. cbn [fst snd] in *.
  cbn [String.append]. rewrite <- IH. reflexivity.
Qed.

Lemma no_opener_app (a b : string) :
  no_opener (a ++ b) = no_opener a && no_opener b.
Proof.
  unfold no_opener. induction a as [|c a IH]; [reflexivity|].
  cbn [String.append all_chars]. rewrite IH, andb_assoc. reflexivity.
Qed.

Lemma opens_scope_false (r : string) :
  no_opener r = true -> opens_scope r = false.
Proof.
  unfold no_opener, opens_scope. induction r as [|c r IH]; [reflexivity|].
  cbn [all_chars lstrip_by]. intros H. apply andb_true_iff in H as [Hc Hr].
  destruct (isspace c); [exact (IH Hr)|].
  apply negb_true_iff in Hc. exact Hc.
Qed.

Lemma opens_scope_before_word (pre : string) (x : ascii) (rest : string) :
  no_opener pre = true -> isword x = true ->
  opens_scope (pre ++ String x rest) = false.
Proof.
  unfold no_opener, opens_scope. intros Hpre Hx.
  induction pre as [|c pre IH]; cbn [String.append lstrip_by].
  - rewrite (word_is_no_space x Hx). exact (word_is_no_opener x Hx).
  - cbn [all_chars] in Hpre. apply andb_true_iff in Hpre as [Hc Hpre].
    destruct (isspace c); [exact (IH Hpre)|].
    apply negb_true_iff in Hc. exact Hc.
Qed.

Lemma opens_scope_after_spaces (ws : string) (c : ascii) (post : string) :
  all_chars isspace ws = true -> opener c = true ->
  opens_scope (ws ++ String c post) = true.
Proof.
  unfold opens_scope. intros Hws Hc.
  induction ws as [|a ws IH]; cbn [String.append lstrip_by].
  - rewrite (proj1 (opener_is_plain c Hc)). exact Hc.
  - cbn [all_chars] in Hws. apply andb_true_iff in Hws as [Ha Hws].
    rewrite Ha. exact (IH Hws).
Qed.

Lemma ends_on_word_cons (c : ascii) (s : string) :
  s <> EmptyString -> ends_on_word (String c s) = ends_on_word s.
Proof. destruct s; [contradiction | reflexivity]. Qed.

Lemma word_run_stays_before (x : ascii) (rest : string) :
  isword x = true ->
  forall pre,
    pre <> EmptyString -> no_opener pre = true -> ends_on_word pre = false ->
    opens_scope (snd (take_word (pre ++ String x rest))) = false.
Proof.
  intros Hx. induction pre as [|y pre IH]; intros Hne Hpre Hend;
    [contradiction|].
  cbn [String.append take_word].
  destruct (isword y) eqn:Hy.
  - assert (Hpre' : pre <> EmptyString).
    { intros ->. cbn in Hend. congruence. }
    rewrite ends_on_word_cons in Hend by exact Hpre'.
    unfold no_opener in Hpre. cbn [all_chars] in Hpre.
    apply andb_true_iff in Hpre as [_ Hpre].
    specialize (IH Hpre' Hpre Hend).
    destruct (take_word (pre ++ String x rest)) as [w1 r1]. exact IH.
  - cbn [snd].
    exact (opens_scope_before_word (String y pre) x rest Hpre Hx).
Qed.

Section SymbolOnALine.

Variables w ws post : string.
Variable c : ascii.
Hypothesis w_word : all_chars isword w = true.
Hypothesis w_not_empty : w <> EmptyString.
Hypothesis ws_spaces : all_chars isspace ws = true.
Hypothesis c_opens : opener c = true.

Lemma find_symbol_from_first (pre : string) :
  forall after_word,
    no_opener pre = true -> ends_on_word pre = false ->
    (pre = EmptyString -> after_word = false) ->
    find_symbol_from after_word (pre ++ w ++ ws ++ String c post) = Ok w.
Proof.
  destruct w as [|x w'] eqn:Ew; [contradiction|].
  assert (Hx : isword x = true).
  { cbn [all_chars] in w_word. apply andb_true_iff in w_word as [H _].
    exact H. }
  induction pre as [|y pre IH]; intros after_word Hpre Hend Haw.
  - rewrite (Haw eq_refl). cbn [String.append find_symbol_from].
    rewrite Hx. cbn [negb andb].
    change (String x (w' ++ ws ++ String c post))
      with ((String x w') ++ (ws ++ String c post))%string.
    rewrite take_word_app.
    + rewrite (opens_scope_after_spaces ws c post ws_spaces c_opens).
      reflexivity.
    + exact w_word.
    + destruct ws as [|a ws']; cbn [String.append].
      * exact (proj2 (opener_is_plain c c_opens)).
      * cbn [all_chars] in ws_spaces.
        apply andb_true_iff in ws_spaces as [Ha _].
        exact (space_is_no_word a Ha).
  - assert (Hpre' : no_opener pre = true).
    { unfold no_opener in *. cbn [all_chars] in Hpre.
      apply andb_true_iff in Hpre as [_ H]. exact H. }
    cbn [String.append find_symbol_from].
    destruct (isword y && negb after_word) eqn:E.
    + apply andb_true_iff in E as [Hy _].
      assert (Hne : pre <> EmptyString).
      { intros ->. cbn in Hend. congruence. }
      pose proof (word_run_stays_before x (w' ++ ws ++ String c post) Hx
                    (String y pre) ltac:(discriminate) Hpre Hend) as Hrun.
      cbn [String.append] in Hrun.
      destruct (take_word (String y (pre ++ String x (w' ++ ws ++ String c post))))
        as [w1 r1].
      cbn [snd] in Hrun. rewrite Hrun.
      apply IH; [exact Hpre'| |contradiction].
      rewrite ends_on_word_cons in Hend by exact Hne. exact Hend.
    + apply IH; [exact Hpre'| |].
      * destruct pre as [|z pre']; [reflexivity|].
        rewrite ends_on_word_cons in Hend by discriminate. exact Hend.
      * intros ->. cbn in Hend. exact Hend.
Qed.

End SymbolOnALine.

Lemma find_symbol_from_none (s : string) :
  forall after_word,
    no_opener s = true -> find_symbol_from after_word s = Raise IndexError.
Proof.
  induction s as [|y s IH]; intros after_word Hs; [reflexivity|].
  assert (Hs' : no_opener s = true).
  { unfold no_opener in *. cbn [all_chars] in Hs.
    apply andb_true_iff in Hs as [_ H]. exact H. }
  cbn [find_symbol_from].
  destruct (isword y && negb after_word); [|apply IH; exact Hs'].
  pose proof (take_word_split (String y s)) as Hsplit.
  destruct (take_word (String y s)) as [w1 r1]. cbn [fst snd] in Hsplit.
  assert (Hr : no_opener r1 = true).
  { rewrite Hsplit, no_opener_app in Hs.
    apply andb_true_iff in Hs as [_ H]. exact H. }
  rewrite (opens_scope_false r1 Hr). apply IH. exact Hs'.
Qed.

(* ================================================================== *)
(** * The replacement of a path *)
(* ================================================================== *)

Lemma replace_from_skip (old new x r : string) :
  replace_from old new (String.length x) (x ++ r)
  = replace_from old new 0 r.
Proof.
  induction x as [|a x IH]; [destruct r; reflexivity|].
  cbn [String.length String.append replace_from]. exact IH.
Qed.

Section Replace.

Variables old new : string.
Hypothesis old_not_empty : old <> EmptyString.

Lemma replace_from_none (s : string) :
  contains old s = false -> replace_from old new 0 s = s.
Proof.
  induction s as [|a s IH]; intros H; [reflexivity|].
  cbn [contains] in H. apply orb_false_iff in H as [Hp Hc].
  cbn [replace_from]. rewrite Hp, (IH Hc). reflexivity.
Qed.

Lemma replace_from_first (r : string) :
  forall a,
    (forall k, (k < String.length a)%nat ->
               String.prefix old (drop k (a ++ old ++ r)) = false) ->
    replace_from old new 0 (a ++ old ++ r)
    = (a ++ new ++ replace_from old new 0 r)%string.
Proof.
  induction a as [|x a IH]; intros H.
  - cbn [String.append].
    destruct old as [|o old'] eqn:Eo; [contradiction|].
    cbn [String.append replace_from].
    change (String o (old' ++ r)) with ((String o old') ++ r)%string.
    rewrite prefix_app.
    cbn [String.length]. rewrite Nat.sub_succ, Nat.sub_0_r.
    f_equal. apply replace_from_skip.
  - cbn [String.append replace_from].
    pose proof (H 0%nat ltac:(cbn; lia)) as H0. cbn [drop String.append] in H0.
    rewrite H0. f_equal. apply IH.
    intros k Hk. specialize (H (S k) ltac:(cbn; lia)). exact H.
Qed.

Lemma replace_none (s : string) :
  contains old s = false -> replace old new s = s.
Proof.
  intros H. unfold replace.
  destruct (String.eqb_spec old ""); [contradiction|].
  exact (replace_from_none s H).
Qed.

Lemma replace_first (a r : string) :
  (forall k, (k < String.length a)%nat ->
             String.prefix old (drop k (a ++ old ++ r)) = false) ->
  replace old new (a ++ old ++ r) = (a ++ new ++ replace old new r)%string.
Proof.
  intros H. unfold replace.
  destruct (String.eqb_spec old ""); [contradiction|].
  exact (replace_from_first r a H).
Qed.

End Replace.

(* ================================================================== *)
(** * Where a missing file is looked for, and C7 *)
(* ================================================================== *)

Section Relocation.

Variable git_diff_renamed : string -> string -> string -> string.
Variable locate_symbol : string -> string -> option (list (string * Z)).
Variable walk : list string.
Variable read_file : string -> string -> option string.
Variable git_apply : string -> string -> option string.
Variable repr_paths : list string -> string.
Variable _apply_error_handling : string -> string -> result (string * string).

Let candidates := candidate_paths git_diff_renamed locate_symbol walk.

(** The loop over the candidates stops at the first attempt whose
    outcome holds the word [successfully]. *)
Lemma try_paths_first_success
  (apply_hunk : Project -> string -> string -> bool -> result (string * Project))
  (ref old_patch missing : string) (all_paths post : list string)
  (file_path apply_ret : string) (self2 : Project) :
  forall (pre : list string) (self self1 : Project) (ret : string),
    failed_attempts apply_hunk ref old_patch missing pre self = Some self1 ->
    apply_hunk self1 ref (replace missing file_path old_patch) false
    = Ok (apply_ret, self2) ->
    contains "successfully" apply_ret = true ->
    try_paths repr_paths apply_hunk self ref old_patch missing all_paths
              (pre ++ file_path :: post) ret
    = Ok (moved_to missing file_path, self2).
Proof.
  induction pre as [|p pre IH]; intros self self1 ret Hpre Happly Hok.
  - injection Hpre as <-. cbn [app try_paths].
    rewrite Happly. cbn [bind]. rewrite Hok. reflexivity.
  - cbn [failed_attempts] in Hpre. cbn [app try_paths].
    destruct (apply_hunk self ref (replace missing p old_patch) false)
      as [[r self']|e]; [|discriminate].
    cbn [bind]. destruct (contains "successfully" r); [discriminate|].
    apply (IH self' self1 _ Hpre Happly Hok).
Qed.

(** The search for a missing file.  When [git apply] fails with
    [No such file], [_apply_hunk] hands the repaired patch to
    [_apply_file_move_handling], which reads the missing path from the
    patch and tries candidate paths in this order: (a) the path that
    rename detection between the target release and the parent of the
    new patch reports for the missing path; (b) when that reports
    nothing, the files in which the symbol index has the symbol named
    on the third line of the patch; (c) when no symbol is found there
    or the index does not have it, the five repository files (all of
    them when there are fewer) whose names are nearest to the missing
    file name in edit distance.  The symbol is the first word of the
    line that stands, white space apart, before a brace or a
    parenthesis, and a line without either names none.  Each candidate
    is tried by a whole apply of the patch in which every occurrence of
    the missing path, from left to right, is replaced by the candidate.
    The first attempt whose answer holds the word [successfully] ends
    the search with the message that maps the missing path to that
    candidate. *)
Theorem missing_file_search_order
  (depth : nat) (self : Project) (ref patch : string) (revise_context : bool) :
  let apply_hunk :=
    _apply_hunk git_diff_renamed locate_symbol walk read_file git_apply
                repr_paths _apply_error_handling depth in
  let revised_patch := fst (revise_patch (read_file ref) revise_context patch) in
  (* the dispatch and the search *)
  (forall stderr,
     git_apply ref revised_patch = Some stderr ->
     contains "No such file" stderr = true ->
     _apply_hunk git_diff_renamed locate_symbol walk read_file git_apply
                 repr_paths _apply_error_handling (S depth)
                 self ref patch revise_context
     = (missing <- find_after "--- a/" revised_patch ;;
        file_paths <- candidates self ref revised_patch missing ;;
        try_paths repr_paths apply_hunk self ref revised_patch missing
                  file_paths file_paths ""))
  (* (a) the renamed path *)
  /\ (forall old_patch missing status file_path rest,
        split tab (git_diff_renamed (target_release self)
                                    (new_patch_parent self) missing)
        = status :: file_path :: rest ->
        candidates self ref old_patch missing = Ok [file_path])
  (* (b) the files of the symbol *)
  /\ (forall old_patch missing symbol_name location locations,
        git_diff_renamed (target_release self) (new_patch_parent self) missing
        = "" ->
        trailer_symbol old_patch = Ok symbol_name ->
        locate_symbol ref symbol_name = Some (location :: locations) ->
        candidates self ref old_patch missing
        = Ok (map fst (location :: locations)))
  (* (c) the nearest file names *)
  /\ (forall old_patch missing,
        git_diff_renamed (target_release self) (new_patch_parent self) missing
        = "" ->
        (forall symbol_name,
           trailer_symbol old_patch = Ok symbol_name ->
           locate_symbol ref symbol_name = None
           \/ locate_symbol ref symbol_name = Some []) ->
        candidates self ref old_patch missing
        = Ok (find_most_similar_files (basename missing) walk)
        /\ List.length (find_most_similar_files (basename missing) walk)
           = Nat.min 5 (List.length walk)
        /\ (forall p q,
              In p (find_most_similar_files (basename missing) walk) ->
              In q walk ->
              ~ In q (find_most_similar_files (basename missing) walk) ->
              (name_distance (basename missing) p
               <= name_distance (basename missing) q)%nat))
  (* the symbol on the third line *)
  /\ (forall old_patch pre w ws c post,
        index (split nl old_patch) 2
        = Some (pre ++ w ++ ws ++ String c post)%string ->
        no_opener pre = true -> ends_on_word pre = false ->
        w <> EmptyString -> all_chars isword w = true ->
        all_chars isspace ws = true -> opener c = true ->
        trailer_symbol old_patch = Ok w)
  /\ (forall old_patch at_line,
        index (split nl old_patch) 2 = Some at_line ->
        no_opener at_line = true ->
        trailer_symbol old_patch = Raise IndexError)
  (* the path replaced *)
  /\ (forall missing file_path text,
        missing <> EmptyString ->
        contains missing text = false ->
        replace missing file_path text = text)
  /\ (forall missing file_path before after,
        missing <> EmptyString ->
        (forall k, (k < String.length before)%nat ->
           String.prefix missing (drop k (before ++ missing ++ after))
           = false) ->
        replace missing file_path (before ++ missing ++ after)
        = (before ++ file_path ++ replace missing file_path after)%string)
  (* the attempt that ends the search *)
  /\ (forall old_patch missing pre file_path post self1 apply_ret self2,
        failed_attempts apply_hunk ref old_patch missing pre self = Some self1 ->
        apply_hunk self1 ref (replace missing file_path old_patch) false
        = Ok (apply_ret, self2) ->
        contains "successfully" apply_ret = true ->
        try_paths repr_paths apply_hunk self ref old_patch missing
                  (pre ++ file_path :: post) (pre ++ file_path :: post) ""
        = Ok (moved_to missing file_path, self2)).
Proof.
  intros apply_hunk revised_patch.
  split; [|split; [|split; [|split; [|split; [|split; [|split; [|split]]]]]]].
  9: { intros old_patch missing pre file_path post self1 apply_ret self2.
       apply try_paths_first_success. }
  5: { intros old_patch pre w ws c post Hline Hpre Hend Hw Hword Hws Hc.
       unfold trailer_symbol. rewrite Hline. cbn [of_option bind].
       apply (find_symbol_from_first w ws post c Hword Hw Hws Hc pre false
                Hpre Hend). reflexivity. }
  5: { intros old_patch at_line Hline Hno.
       unfold trailer_symbol. rewrite Hline. cbn [of_option bind].
       apply find_symbol_from_none. exact Hno. }
  5: { intros missing file_path text Hne Hno.
       apply replace_none; assumption. }
  5: { intros missing file_path before after Hne Hfirst.
       apply replace_first; assumption. }
  - intros stderr Hgit Hmissing. cbn [_apply_hunk]. unfold apply_hunk_body.
    fold revised_patch.
    destruct (revise_patch (read_file ref) revise_context patch)
      as [revised fixed] eqn:E.
    cbn [fst] in revised_patch. subst revised_patch.
    rewrite Hgit, Hmissing. reflexivity.
  - intros old_patch missing status file_path rest Hsplit.
    unfold candidates, candidate_paths, renamed_path.
    destruct (String.eqb_spec
                (git_diff_renamed (target_release self)
                                  (new_patch_parent self) missing) "")
      as [E|E].
    + rewrite E in Hsplit. discriminate Hsplit.
    + cbn [negb]. rewrite Hsplit, index_nonneg by lia. reflexivity.
  - intros old_patch missing symbol_name location locations Hdiff Hsym Hloc.
    unfold candidates, candidate_paths, renamed_path.
    rewrite Hdiff. cbn [String.eqb negb bind]. rewrite Hsym, Hloc. reflexivity.
  - intros old_patch missing Hdiff Hnone. split.
    + unfold candidates, candidate_paths, renamed_path.
      rewrite Hdiff. cbn [String.eqb negb bind].
      destruct (trailer_symbol old_patch) as [symbol_name|e]; [|reflexivity].
      destruct (Hnone symbol_name eq_refl) as [-> | ->]; reflexivity.
    + destruct (find_most_similar_files_nearest (basename missing) walk)
        as (Hlen & _ & Hnear).
      split; assumption.
Qed.

End Relocation.

(** C7 fails on the code: the search does not stop at the first
    candidate on which the patch applies, but at the first attempt
    whose answer holds the word [successfully].  The file [src/f.c] is
    missing at [v1] and the symbol index has [f] in [lib/f.c] and in
    [core/f.c].  [git apply] refuses the hunk on [lib/f.c], and the
    diagnostic of the refusal quotes a line of that file that holds the
    word.  [_apply_hunk] answers that [src/f.c] has been moved to
    [lib/f.c], records no patch and leaves [round_succeeded] unset; the
    hunk on [core/f.c], which [git apply] accepts, is never tried. *)
Lemma refused_candidate_ends_the_search :
  let revised :=
    fst (revise_patch (two_places_read_file "v1") false
                      patch_on_missing_file) in
  let attempt path :=
    fst (revise_patch (two_places_read_file "v1") false
                      (replace "src/f.c" path revised)) in
  candidate_paths (fun _ _ _ => "") two_places_locate_symbol []
                  new_project "v1" revised "src/f.c"
  = Ok ["lib/f.c"; "core/f.c"]
  /\ two_places_git_apply "v1" (attempt "lib/f.c") <> None
  /\ two_places_git_apply "v1" (attempt "core/f.c") = None
  /\ _apply_hunk (fun _ _ _ => "") two_places_locate_symbol []
                 two_places_read_file two_places_git_apply (fun _ => "")
                 two_places_error_handling 2 new_project "v1"
                 patch_on_missing_file false
     = Ok (moved_to "src/f.c" "lib/f.c", new_project).
Proof.
  cbn zeta. split; [|split; [|split]].
  - vm_compute. reflexivity.
  - vm_compute. discriminate.
  - vm_compute. reflexivity.
  - vm_compute. reflexivity.
Qed.

(* ================================================================== *)
(** * More on [find_most_similar_block] *)
(* ================================================================== *)

Section ScanExcluding.

Variables pattern main : list string.

Lemma scan_step_excluding (st : Z * dist) (k : nat) (m : string) :
  nth_error main k = Some m ->
  scan_step pattern main (Z.of_nat (List.length pattern)) true st (Z.of_nat k)
  = Ok (if dist_ltb (window_distance pattern main k) (snd st)
        then if mutated m then st
             else (Z.of_nat k + 1, Fin (window_distance pattern main k))
        else st).
Proof.
  intros Hm. unfold scan_step, window_distance, window.
  rewrite slice_window by lia. rewrite !Nat2Z.id.
  rewrite index_nonneg by lia. rewrite Nat2Z.id, Hm. cbn [of_option bind].
  destruct (dist_ltb _ (snd st)); [|reflexivity].
  destruct (mutated m); reflexivity.
Qed.

Lemma scan_prefix_excluding (n : nat) :
  (n <= List.length main)%nat ->
  exists st,
    foldM (scan_step pattern main (Z.of_nat (List.length pattern)) true)
          (range (Z.of_nat n)) (1, Inf)
    = Ok st /\ scanned_eligible pattern main n st.
Proof.
  induction n as [|n IH]; intros Hn.
  - exists (1, Inf). split; [reflexivity|]. left. split; [reflexivity|].
    intros k Hk. lia.
  - destruct IH as (st & Hrun & Hst); [lia|].
    destruct (nth_error main n) as [m|] eqn:Em;
      [|apply nth_error_None in Em; lia].
    rewrite range_succ, foldM_app, Hrun. cbn [bind foldM].
    rewrite (scan_step_excluding st n m Em). cbn [bind].
    eexists; split; [reflexivity|].
    destruct (mutated m) eqn:Hmut.
    + (* the window is excluded: the state is kept *)
      replace (if dist_ltb (window_distance pattern main n) (snd st)
               then st else st) with st by (destruct (dist_ltb _ _); reflexivity).
      assert (Hnot : ~ eligible main n).
      { intros (m' & Hm' & Hfree). rewrite Em in Hm'. injection Hm' as <-.
        rewrite Hmut in Hfree. discriminate. }
      destruct Hst as [[-> Hnone] | (b & Hb & Hel & -> & Hmin & Hfirst)].
      * left. split; [reflexivity|]. intros k Hk.
        destruct (Nat.eq_dec k n) as [->|Hne]; [exact Hnot|].
        apply Hnone. lia.
      * right. exists b. split; [lia|]. split; [exact Hel|].
        split; [reflexivity|]. split; [|exact Hfirst].
        intros k Hk Hk'. destruct (Nat.eq_dec k n) as [->|Hne];
          [contradiction|]. apply Hmin; [lia | exact Hk'].
    + assert (Hel : eligible main n) by (exists m; split; assumption).
      destruct Hst as [[-> Hnone] | (b & Hb & Helb & -> & Hmin & Hfirst)].
      * cbn [snd dist_ltb]. right. exists n. split; [lia|].
        split; [exact Hel|]. split; [reflexivity|]. split.
        -- intros k Hk Hk'. destruct (Nat.eq_dec k n) as [->|Hne]; [lia|].
           exfalso. apply (Hnone k); [lia | exact Hk'].
        -- intros k Hk Hk'. exfalso. exact (Hnone k Hk Hk').
      * cbn [snd dist_ltb].
        destruct (Nat.ltb_spec (window_distance pattern main n)
                               (window_distance pattern main b)) as [Hlt|Hge].
        -- right. exists n. split; [lia|]. split; [exact Hel|].
           split; [reflexivity|]. split.
           ++ intros k Hk Hk'. destruct (Nat.eq_dec k n) as [->|Hne]; [lia|].
              specialize (Hmin k ltac:(lia) Hk'). lia.
           ++ intros k Hk Hk'. specialize (Hmin k Hk Hk'). lia.
        -- right. exists b. split; [lia|]. split; [exact Helb|].
           split; [reflexivity|]. split; [|exact Hfirst].
           intros k Hk Hk'. destruct (Nat.eq_dec k n) as [->|Hne]; [lia|].
           apply Hmin; [lia | exact Hk'].
Qed.

End ScanExcluding.

(** With the exclusion of mutated lines on and a pattern of at least
    one line, [find_most_similar_block] does not raise and makes no
    offset correction: it returns the earliest window of least distance
    among the windows whose first line starts with neither [+] nor [-],
    and [(1, inf)] when there is no such window. *)
Theorem alignment_excluding_mutated_lines (pattern main : list string) :
  (1 <= List.length pattern)%nat ->
  exists st,
    find_most_similar_block pattern main (len pattern) true = Ok st
    /\ scanned_eligible pattern main (windows main (List.length pattern)) st.
Proof.
  intros Hp.
  destruct (scan_prefix_excluding pattern main
              (windows main (List.length pattern))) as (st & Hrun & Hst).
  { unfold windows. lia. }
  exists st. split; [|exact Hst].
  pose proof (range_windows pattern main) as E.
  unfold find_most_similar_block, scan, len in *.
  rewrite E, Hrun. destruct st as [best d]. reflexivity.
Qed.

Lemma alignment_excluding_mutated_lines_witness :
  exists st,
    find_most_similar_block ["int b;"] ["-int b;"; " int b;"; "+int b;"]
                            (len ["int b;"]) true = Ok st
    /\ scanned_eligible ["int b;"] ["-int b;"; " int b;"; "+int b;"]
         (windows ["-int b;"; " int b;"; "+int b;"] (List.length ["int b;"])) st.
Proof.
  apply (alignment_excluding_mutated_lines
           ["int b;"] ["-int b;"; " int b;"; "+int b;"]).
  simpl. lia.
Defined.

Lemma offset_loop_bound (pattern main : list string) (lineno M : Z) :
  0 <= M ->
  forall (idxs : list Z) (best r : Z),
    (forall i, In i idxs -> 0 <= i <= M) ->
    offset_loop pattern main lineno idxs (false, None) best = Ok r ->
    best - 5 - M <= r <= best + 5.
Proof.
  intros HM. induction idxs as [|i idxs IH]; intros best r Hin H.
  - injection H as <-. lia.
  - cbn [offset_loop] in H. apply bind_ok in H as (p & _ & H).
    assert (Hrest : forall i', In i' idxs -> 0 <= i' <= M)
      by (intros; apply Hin; right; assumption).
    destruct (String.length (strip p) <? 3)%nat; [exact (IH _ _ Hrest H)|].
    destruct (offset_fold main lineno p i (range2 (-5) 6))
      as [[Hst _] | (j & Hj & _ & Hst & _)]; rewrite Hst in H; cbn [fst snd] in H.
    + exact (IH _ _ Hrest H).
    + injection H as <-. apply in_range2 in Hj.
      specialize (Hin i (or_introl eq_refl)). lia.
Qed.

Lemma find_most_similar_block_plain_inv
  (pattern main : list string) (p_len start : Z) (d : dist) :
  find_most_similar_block pattern main p_len false = Ok (start, d) ->
  exists best,
    scan pattern main p_len false = Ok (best, d)
    /\ fix_offset pattern main p_len best = Ok start.
Proof.
  unfold find_most_similar_block. intros H.
  apply bind_ok in H as ([best d'] & Hscan & H). cbn [negb] in H.
  apply bind_ok in H as (start' & Hfix & H). injection H as <- <-.
  exists best. split; assumption.
Qed.

(** The offset correction moves the start of the chosen window by at
    most five lines down, and by at most five lines plus the length of
    the block less one up; the start it returns can therefore be zero
    or negative.  The window the scan chooses is between 1 and the
    number of windows. *)
Theorem alignment_shift_is_bounded
  (pattern main : list string) (start : Z) (d : dist) :
  find_most_similar_block pattern main (len pattern) false = Ok (start, d) ->
  exists best,
    scan pattern main (len pattern) false = Ok (best, d)
    /\ 1 <= best <= Z.max 1 (Z.of_nat (windows main (List.length pattern)))
    /\ best - 4 - Z.max 1 (len pattern) <= start <= best + 5.
Proof.
  intros H.
  destruct (find_most_similar_block_plain_inv _ _ _ _ _ H)
    as (best & Hscan & Hfix).
  exists best. split; [exact Hscan|]. split.
  - destruct (scan_plain pattern main) as (st & Hrun & Hst).
    unfold len in Hscan. rewrite Hscan in Hrun. injection Hrun as <-.
    destruct Hst as [[_ E] | (b & Hb & E & _)]; injection E as -> _; lia.
  - unfold fix_offset in Hfix.
    pose proof (offset_loop_bound pattern main best
                  (Z.max 0 (len pattern - 1)) ltac:(lia)
                  (range (len pattern)) best start) as Hbound.
    assert (Hin : forall i, In i (range (len pattern)) ->
                            0 <= i <= Z.max 0 (len pattern - 1)).
    { intros i Hi. apply in_range in Hi. lia. }
    specialize (Hbound Hin Hfix). lia.
Qed.

Lemma alignment_shift_is_bounded_witness :
  exists best,
    scan ["abc"; "def"]
         ["abX"; "def"; "zzz"; "abc"; "q"; "q"; "q"; "q"; "q"]
         (len ["abc"; "def"]) false = Ok (best, Fin 1)
    /\ 1 <= best
       <= Z.max 1 (Z.of_nat
            (windows ["abX"; "def"; "zzz"; "abc"; "q"; "q"; "q"; "q"; "q"]
                     (List.length ["abc"; "def"])))
    /\ best - 4 - Z.max 1 (len ["abc"; "def"]) <= 4 <= best + 5.
Proof.
  apply (alignment_shift_is_bounded ["abc"; "def"]
           ["abX"; "def"; "zzz"; "abc"; "q"; "q"; "q"; "q"; "q"] 4 (Fin 1)).
  vm_compute. reflexivity.
Defined.

(** With the exclusion of mutated lines off, the distance that is
    returned is 0 exactly when some window of the file has, joined by
    newlines, the text of the joined block. *)
Theorem zero_distance_iff_exact_window
  (pattern main : list string) (start : Z) (d : dist) :
  find_most_similar_block pattern main (len pattern) false = Ok (start, d) ->
  (d = Fin 0
   <-> exists k, (k < windows main (List.length pattern))%nat
                 /\ join_nl (window main (List.length pattern) k)
                    = join_nl pattern).
Proof.
  intros H.
  destruct (find_most_similar_block_plain_inv _ _ _ _ _ H)
    as (best & Hscan & _).
  destruct (scan_plain pattern main) as (st & Hrun & Hst).
  unfold len in Hscan. rewrite Hscan in Hrun. injection Hrun as <-.
  destruct Hst as [[Hw E] | (b & Hb & E & Hmin & _)]; injection E as _ ->.
  - split; [discriminate|]. intros (k & Hk & _). lia.
  - split.
    + intros E. injection E as E. exists b. split; [exact Hb|].
      apply distance_zero. exact E.
    + intros (k & Hk & Heq). f_equal.
      specialize (Hmin k Hk). unfold window_distance in Hmin at 2.
      rewrite Heq, distance_refl in Hmin. lia.
Qed.

Lemma zero_distance_iff_exact_window_witness :
  Fin 0 = Fin 0
  <-> exists k,
        (k < windows ["int a;"; "int b;"; "int c;"] (List.length ["int b;"]))%nat
        /\ join_nl (window ["int a;"; "int b;"; "int c;"]
                           (List.length ["int b;"]) k)
           = join_nl ["int b;"].
Proof.
  apply (zero_distance_iff_exact_window
           ["int b;"] ["int a;"; "int b;"; "int c;"] 2 (Fin 0)).
  vm_compute. reflexivity.
Defined.

(* ================================================================== *)
(** * More on [extract_context] *)
(* ================================================================== *)

Lemma is_old_cons (c : ascii) (s : string) :
  is_old (String c s) = Ascii.eqb " " c || Ascii.eqb "-" c.
Proof.
  unfold is_old, is_context, is_removed. rewrite !startswith_char. reflexivity.
Qed.

Lemma is_added_cons (c : ascii) (s : string) :
  is_added (String c s) = Ascii.eqb "+" c.
Proof. unfold is_added. apply startswith_char. Qed.

Lemma extract_lines_filter (lines : list string) :
  extract_lines lines
  = (map tail (filter is_old lines), map tail (filter is_added lines)).
Proof.
  induction lines as [|line lines IH]; [reflexivity|].
  cbn [extract_lines filter]. rewrite IH.
  destruct line as [|c s]; [reflexivity|].
  rewrite is_old_cons, is_added_cons, !startswith_char.
  destruct (Ascii.eqb_spec " " c) as [<-|H1]; [reflexivity|].
  destruct (Ascii.eqb_spec "-" c) as [<-|H2]; [reflexivity|].
  destruct (Ascii.eqb "+" c); reflexivity.
Qed.

(** [extract_context] returns, in order and without their tag, the
    context and removed lines on one side and the added lines on the
    other, with their numbers; a line that has no tag is in neither
    list, so the two numbers add up to at most the number of lines. *)
Theorem extract_context_selects (lines : list string) :
  extract_context lines
  = (map tail (filter is_old lines), len (filter is_old lines),
     map tail (filter is_added lines), len (filter is_added lines))
  /\ len (filter is_old lines) + len (filter is_added lines) <= len lines.
Proof.
  split.
  - unfold extract_context. rewrite extract_lines_filter.
    unfold len. rewrite !length_map. reflexivity.
  - unfold len. induction lines as [|line lines IH]; [cbn; lia|].
    cbn [filter]. destruct line as [|c s].
    + cbn [is_old is_context is_removed is_added startswith String.prefix orb].
      cbn [List.length]. lia.
    + rewrite is_old_cons, is_added_cons.
      destruct (Ascii.eqb_spec " " c) as [<-|H1];
        [cbn [orb Ascii.eqb Bool.eqb List.length]; lia|].
      destruct (Ascii.eqb_spec "-" c) as [<-|H2];
        [cbn [orb Ascii.eqb Bool.eqb List.length]; lia|].
      cbn [orb]. destruct (Ascii.eqb "+" c); cbn [List.length]; lia.
Qed.

(* ================================================================== *)
(** * More on [revise_hunk] *)
(* ================================================================== *)

Lemma replace_apos_s_other (c : ascii) (s : string) :
  c <> "'"%char -> replace_apos_s (String c s) = String c (replace_apos_s s).
Proof.
  intros H.
  destruct c as [[] [] [] [] [] [] [] []]; try reflexivity.
  contradiction H; reflexivity.
Qed.

Lemma replace_apos_s_apos (s : string) :
  replace_apos_s (String "'" s)
  = if String.prefix "s " s
    then String "-" (String ">" (replace_apos_s (drop 2 s)))
    else String "'" (replace_apos_s s).
Proof.
  destruct s as [|c2 s2]; [reflexivity|].
  destruct c2 as [[] [] [] [] [] [] [] []]; try reflexivity.
  destruct s2 as [|c3 s3]; [reflexivity|].
  destruct c3 as [[] [] [] [] [] [] [] []]; try reflexivity.
  cbn. destruct s3; reflexivity.
Qed.

(** A text without the idiom is not touched by the replacement. *)
Lemma replace_apos_s_id (s : string) :
  contains "'s " s = false -> replace_apos_s s = s.
Proof.
  induction s as [|c s IH]; intros H; [reflexivity|].
  cbn [contains] in H. apply orb_false_iff in H as (Hhere & Hlater).
  destruct (ascii_dec c "'") as [->|Hc].
  - rewrite replace_apos_s_apos.
    cbn [String.prefix] in Hhere.
    destruct (ascii_dec "'" "'") as [_|Hne]; [|contradiction].
    change (String.prefix "s " s = false) in Hhere. rewrite Hhere.
    rewrite (IH Hlater). reflexivity.
  - rewrite (replace_apos_s_other c s Hc), (IH Hlater). reflexivity.
Qed.

Lemma whitespace_repair_same_tag (line new_line : string) :
  is_old line = true -> same_tag line (whitespace_repair line new_line).
Proof.
  intros Hold. unfold whitespace_repair.
  destruct (String.eqb _ _); [|repeat split].
  destruct line as [|c s]; [discriminate|].
  rewrite sign_of_cons. cbn [String.append].
  unfold same_tag, is_context, is_removed, is_added.
  rewrite !startswith_char. repeat split.
Qed.

Lemma added_line_same_tag (line : string) :
  tagged line = true -> is_old line = false ->
  same_tag line (replace_apos_s line).
Proof.
  intros Htag Hold. destruct line as [|c s]; [discriminate|].
  rewrite tagged_cons in Htag. rewrite is_old_cons in Hold.
  rewrite Hold in Htag. cbn [orb] in Htag.
  apply Ascii.eqb_eq in Htag. subst c.
  rewrite replace_apos_s_other by discriminate.
  unfold same_tag, is_context, is_removed, is_added.
  rewrite !startswith_char. repeat split.
Qed.

Section WhitespaceShape.

Variable target_file_lines : list string.
Variable lineno : Z.

(** The rewrite loop in whitespace-only mode keeps the kind of every
    line and leaves the added lines to the replacement of the idiom. *)
Lemma rewrite_loop_same_tag (l : list string) :
  forall (i0 : Z) (acc : list string) (i : Z) (out : list string),
    all_tagged l ->
    foldM (rewrite_step false target_file_lines lineno) l (i0, acc)
    = Ok (i, out) ->
    exists added,
      out = acc ++ added
      /\ Forall2 same_tag l added
      /\ forall k line,
           nth_error l k = Some line ->
           is_old line = false ->
           nth_error added k = Some (replace_apos_s line).
Proof.
  induction l as [|x l IH]; intros i0 acc i out Htag H.
  - injection H as <- <-. exists []. split; [symmetry; apply app_nil_r|].
    split; [constructor|]. intros k line Hk. destruct k; discriminate.
  - inversion Htag as [|x' l' Hx Hl]; subst.
    cbn [foldM] in H. apply bind_ok in H as ([i1 acc1] & Hstep & Hrest).
    destruct (IH i1 acc1 i out Hl Hrest) as (added & -> & Hsame & Hadded).
    destruct (is_old x) eqn:Hold.
    + destruct (rewrite_step_old target_file_lines lineno i0 acc x _ Hold Hstep)
        as (new_x & _ & E).
      injection E as -> ->.
      exists (whitespace_repair x new_x :: added).
      split; [rewrite <- app_assoc; reflexivity|]. split.
      * constructor; [apply whitespace_repair_same_tag, Hold | exact Hsame].
      * intros [|k] line Hk Hline; cbn [nth_error] in Hk.
        -- injection Hk as <-. rewrite Hold in Hline. discriminate.
        -- exact (Hadded k line Hk Hline).
    + rewrite (rewrite_step_added target_file_lines lineno i0 acc x Hold)
        in Hstep.
      injection Hstep as <- <-.
      exists (replace_apos_s x :: added).
      split; [rewrite <- app_assoc; reflexivity|]. split.
      * constructor; [apply added_line_same_tag; assumption | exact Hsame].
      * intros [|k] line Hk Hline; cbn [nth_error] in Hk.
        -- injection Hk as <-. reflexivity.
        -- exact (Hadded k line Hk Hline).
Qed.

End WhitespaceShape.

Lemma same_tag_counts (l l' : list string) :
  Forall2 same_tag l l' ->
  count is_context l = count is_context l'
  /\ count is_removed l = count is_removed l'
  /\ count is_added l = count is_added l'.
Proof.
  unfold count.
  induction 1 as [|a b l l' (Hc & Hr & Ha) _ (IHc & IHr & IHa)];
    [repeat split|].
  cbn [filter]. rewrite Hc, Hr, Ha.
  destruct (is_context b), (is_removed b), (is_added b);
    cbn [List.length]; repeat split; congruence.
Qed.

Lemma body_lines_tagged (lines : list string) : all_tagged (body_lines lines).
Proof.
  unfold body_lines. apply Forall_map, Forall_forall.
  intros x _. apply fix_prefix_tagged.
Qed.

Lemma revise_body_whitespace_inv
  (lines target_file_lines : list string) (header : string)
  (revised : list string) :
  revise_body false lines target_file_lines = Ok (header, revised) ->
  exists lines' lineno i,
    strip_trailer lines = Ok lines'
    /\ foldM (rewrite_step false target_file_lines lineno)
             (body_lines lines') (0, []) = Ok (i, revised)
    /\ index lines' 0 = Some header.
Proof.
  unfold revise_body. intros H.
  apply bind_ok in H as (lines' & Htrail & H).
  fold (body_lines lines') in H.
  destruct (extract_context (body_lines lines'))
    as [[[contexts num_context] add_lines] num_add].
  apply bind_ok in H as ([lineno d] & _ & H).
  apply bind_ok in H as ([i rewritten] & Hloop & H).
  cbn [bind] in H. apply bind_ok in H as (header' & Hheader & H).
  injection H as <- <-.
  exists lines', lineno, i. split; [exact Htrail|]. split; [exact Hloop|].
  destruct (index lines' 0); [|discriminate].
  injection Hheader as ->. reflexivity.
Qed.

(** Whitespace-only repair keeps the shape of the hunk: the rewritten
    body has, line for line, the kinds of the body lines it was given
    (after the lines without a tag were made context lines), so the
    counts of the new header are the counts of those body lines. *)
Theorem whitespace_repair_keeps_shape
  (lines target_file_lines : list string) (text : string) (fixed : bool) :
  revise_hunk false lines target_file_lines = Ok (text, fixed) ->
  exists h lines',
    text = render h
    /\ strip_trailer lines = Ok lines'
    /\ Forall2 same_tag (body_lines lines') (body h)
    /\ old_count h = (count is_context (body_lines lines')
                      + count is_removed (body_lines lines'))%nat
    /\ new_count h = (count is_context (body_lines lines')
                      + count is_added (body_lines lines'))%nat.
Proof.
  intros Hrun.
  destruct (revise_hunk_inv _ _ _ _ _ Hrun)
    as (h & header & _ & _ & Htext & Hbody & _ & Hold & Hnew & _).
  destruct (revise_body_whitespace_inv _ _ _ _ Hbody)
    as (lines' & lineno & i & Htrail & Hloop & _).
  destruct (rewrite_loop_same_tag target_file_lines lineno _ _ _ _ _
              (body_lines_tagged lines') Hloop) as (added & E & Hsame & _).
  cbn [app] in E. subst added.
  destruct (same_tag_counts _ _ Hsame) as (Hc & Hr & Ha).
  destruct (counts_of_tagged (body h)
              (revise_body_tagged _ _ _ _ _ Hbody)) as (Hold' & Hnew').
  exists h, lines'. split; [exact Htext|]. split; [exact Htrail|].
  split; [exact Hsame|]. split.
  - rewrite Hold, Hold', Hc, Hr. reflexivity.
  - rewrite Hnew, Hnew', Hc, Ha. reflexivity.
Qed.

Lemma whitespace_repair_keeps_shape_witness :
  let lines := ["@@ -2,9 +1,9 @@"; " int a;"; "int b;"; "+int x;"; "-int Q;"; ""] in
  let target := ["int a;"; "  int b;"; "int c;"; "int d;"] in
  exists h lines',
    "@@ -2,3 +1,3 @@
 int a;
   int b;
+int x;
-int Q;" = render h
    /\ strip_trailer lines = Ok lines'
    /\ Forall2 same_tag (body_lines lines') (body h)
    /\ old_count h = (count is_context (body_lines lines')
                      + count is_removed (body_lines lines'))%nat
    /\ new_count h = (count is_context (body_lines lines')
                      + count is_added (body_lines lines'))%nat.
Proof.
  intros lines target.
  apply (whitespace_repair_keeps_shape lines target _ true).
  vm_compute. reflexivity.
Defined.

(** Whitespace-only repair never takes an added line from the file: an
    added line comes out at its place with the idiom ['s ] replaced by
    [->], and unchanged when it does not hold the idiom. *)
Theorem added_lines_are_kept
  (lines target_file_lines : list string) (text : string) (fixed : bool) :
  revise_hunk false lines target_file_lines = Ok (text, fixed) ->
  exists h lines',
    text = render h
    /\ strip_trailer lines = Ok lines'
    /\ forall k line,
         nth_error (body_lines lines') k = Some line ->
         is_added line = true ->
         nth_error (body h) k = Some (replace_apos_s line)
         /\ (contains "'s " line = false ->
             nth_error (body h) k = Some line).
Proof.
  intros Hrun.
  destruct (revise_hunk_inv _ _ _ _ _ Hrun)
    as (h & header & _ & _ & Htext & Hbody & _).
  destruct (revise_body_whitespace_inv _ _ _ _ Hbody)
    as (lines' & lineno & i & Htrail & Hloop & _).
  destruct (rewrite_loop_same_tag target_file_lines lineno _ _ _ _ _
              (body_lines_tagged lines') Hloop) as (added & E & _ & Hadded).
  cbn [app] in E. subst added.
  exists h, lines'. split; [exact Htext|]. split; [exact Htrail|].
  intros k line Hk Hplus.
  assert (Hold : is_old line = false).
  { destruct line as [|c s]; [discriminate|].
    rewrite is_added_cons in Hplus. apply Ascii.eqb_eq in Hplus. subst c.
    rewrite is_old_cons. reflexivity. }
  split; [exact (Hadded k line Hk Hold)|].
  intros Hnone. rewrite (Hadded k line Hk Hold).
  rewrite (replace_apos_s_id line Hnone). reflexivity.
Qed.

Lemma added_lines_are_kept_witness :
  let lines := ["@@ -1,2 +1,3 @@"; " int a;"; "+p = q's r;"; " int b;"] in
  let target := ["int a;"; "int b;"] in
  exists h lines',
    "@@ -1,2 +1,3 @@
 int a;
+p = q->r;
 int b;" = render h
    /\ strip_trailer lines = Ok lines'
    /\ forall k line,
         nth_error (body_lines lines') k = Some line ->
         is_added line = true ->
         nth_error (body h) k = Some (replace_apos_s line)
         /\ (contains "'s " line = false ->
             nth_error (body h) k = Some line).
Proof.
  intros lines target.
  apply (added_lines_are_kept lines target _ false).
  vm_compute. reflexivity.
Defined.

Lemma index_last_snoc {A} (l : list A) (x : A) :
  index (l ++ [x]) (-1) = Some x.
Proof.
  unfold index.
  assert (Hlen : len (l ++ [x]) = Z.of_nat (List.length l) + 1)
    by (unfold len; rewrite length_app; cbn [List.length]; lia).
  change (0 <=? -1) with false. cbn [andb].
  assert (H : (- len (l ++ [x]) <=? -1) && (-1 <? 0) = true)
    by (apply andb_true_iff; split; [apply Z.leb_le; lia | reflexivity]).
  rewrite H, Hlen.
  replace (Z.to_nat (-1 + (Z.of_nat (List.length l) + 1)))
    with (List.length l) by lia.
  rewrite nth_error_app2 by lia. rewrite Nat.sub_diag. reflexivity.
Qed.

Lemma index_assign_same {A} (l l' : list A) (i : Z) (old x : A) :
  index l i = Some old ->
  assign l i x = Ok l' ->
  exists n, nth_error l n = Some old /\ l' = set_nth l n x.
Proof.
  unfold index, assign. intros Hidx Hset.
  destruct ((0 <=? i) && (i <? len l)).
  - injection Hset as <-. eauto.
  - destruct ((- len l <=? i) && (i <? 0)); [|discriminate].
    injection Hset as <-. eauto.
Qed.

Lemma remarked_refl (a : string) : remarked a a.
Proof. left. reflexivity. Qed.

Lemma remarked_trans (a b c : string) :
  remarked a b -> remarked b c -> remarked a c.
Proof.
  intros [->| ->] [->| ->]; try (left; reflexivity); try (right; reflexivity).
Qed.

Lemma Forall2_remarked_set_nth (l : list string) (n : nat) (old : string) :
  nth_error l n = Some old ->
  Forall2 remarked l (set_nth l n ("-" ++ tail old)%string).
Proof.
  revert n. induction l as [|y l IH]; intros n H.
  - destruct n; discriminate.
  - destruct n as [|n]; cbn [nth_error set_nth] in *.
    + injection H as ->. constructor; [right; reflexivity|].
      clear IH. induction l; constructor; [apply remarked_refl | assumption].
    + constructor; [apply remarked_refl | exact (IH n H)].
Qed.

Lemma Forall2_remarked_trans (l1 l2 l3 : list string) :
  Forall2 remarked l1 l2 -> Forall2 remarked l2 l3 -> Forall2 remarked l1 l3.
Proof.
  intros H12. revert l3. induction H12 as [|a b l1 l2 Hab _ IH]; intros l3 H23.
  - inversion H23. constructor.
  - inversion H23 as [|b' c l2' l3' Hbc Hrest]; subst.
    constructor; [exact (remarked_trans a b c Hab Hbc) | exact (IH _ Hrest)].
Qed.

Lemma Forall2_remarked_refl (l : list string) : Forall2 remarked l l.
Proof. induction l; constructor; [apply remarked_refl | assumption]. Qed.

Lemma mark_step_remarked (st st' : Z * list string) (line : string) :
  mark_step st line = Ok st' -> Forall2 remarked (snd st) (snd st').
Proof.
  destruct st as [last_line revised]. cbn [snd]. unfold mark_step.
  destruct (negb (startswith line "-")).
  - intros H. injection H as <-. apply Forall2_remarked_refl.
  - intros H. apply bind_ok in H as ([dlineno d] & _ & H).
    apply bind_ok in H as (old & Hold & H).
    apply bind_ok in H as (revised' & Hassign & H).
    injection H as <-. cbn [snd].
    assert (Hidx : index revised (dlineno + last_line - 1) = Some old).
    { destruct (index revised (dlineno + last_line - 1)); [|discriminate].
      injection Hold as ->. reflexivity. }
    destruct (index_assign_same _ _ _ _ _ Hidx Hassign) as (n & Hn & ->).
    apply Forall2_remarked_set_nth. exact Hn.
Qed.

Lemma mark_loop_remarked (l : list string) :
  forall (z : Z) (r : list string) (z' : Z) (r' : list string),
    foldM mark_step l (z, r) = Ok (z', r') -> Forall2 remarked r r'.
Proof.
  induction l as [|x l IH]; intros z r z' r' H.
  - injection H as _ <-. apply Forall2_remarked_refl.
  - cbn [foldM] in H. apply bind_ok in H as ([z1 r1] & Hstep & Hrest).
    apply (Forall2_remarked_trans r r1 r').
    + exact (mark_step_remarked (z, r) (z1, r1) x Hstep).
    + exact (IH z1 r1 z' r' Hrest).
Qed.

Lemma force_phase_inv (tmp_lines target_file_lines : list string)
  (lineno i : Z) (revised out : list string) :
  force_phase tmp_lines target_file_lines lineno i revised = Ok out ->
  exists marked,
    Forall2 remarked revised marked
    /\ ((out = marked
         /\ exists last, index marked (-1) = Some last
                         /\ is_context last = true)
        \/ exists new_line,
             index target_file_lines (lineno - 1 + i) = Some new_line
             /\ out = marked ++ [forced_repair new_line]).
Proof.
  unfold force_phase. intros H.
  apply bind_ok in H as ([last_line marked] & Hmark & H).
  exists marked. split.
  - exact (mark_loop_remarked _ _ _ _ _ Hmark).
  - apply bind_ok in H as (last & Hlast & H).
    assert (Hidx : index marked (-1) = Some last).
    { destruct (index marked (-1)); [|discriminate].
      injection Hlast as ->. reflexivity. }
    destruct (startswith last " ") eqn:Hctx; cbn [negb] in H.
    + injection H as <-. left. split; [reflexivity|]. eauto.
    + apply bind_ok in H as (new_line & Hnew & H). injection H as <-.
      right. exists new_line. split; [|reflexivity].
      destruct (index target_file_lines (lineno - 1 + i)); [|discriminate].
      injection Hnew as ->. reflexivity.
Qed.

(** The forced rewrite never ends a hunk on a changed line: the text
    it returns is the header followed by the body that [revise_body]
    builds, and the last line of that body is a context line. *)
Theorem forced_rewrite_ends_on_context
  (lines target_file_lines : list string) (text : string) (fixed : bool) :
  revise_hunk true lines target_file_lines = Ok (text, fixed) ->
  exists h header last,
    text = render h
    /\ revise_body true lines target_file_lines = Ok (header, body h)
    /\ index (body h) (-1) = Some last
    /\ is_context last = true.
Proof.
  intros Hrun.
  destruct (revise_hunk_inv _ _ _ _ _ Hrun)
    as (h & header & _ & _ & Htext & Hbody & _).
  pose proof Hbody as Hpinned.
  unfold revise_body in Hbody.
  apply bind_ok in Hbody as (lines' & _ & H).
  destruct (extract_context (map fix_prefix (slice_from lines' 1)))
    as [[[contexts num_context] add_lines] num_add].
  apply bind_ok in H as ([lineno d] & _ & H).
  apply bind_ok in H as ([i rewritten] & _ & H).
  apply bind_ok in H as (out & Hforce & H).
  apply bind_ok in H as (header' & _ & H). injection H as _ Hb.
  destruct (force_phase_inv _ _ _ _ _ _ Hforce)
    as (marked & _ & [(-> & last & Hlast & Hctx) | (new_line & _ & ->)]).
  - exists h, header, last.
    split; [exact Htext|]. split; [exact Hpinned|].
    rewrite <- Hb. split; assumption.
  - exists h, header, (forced_repair new_line).
    split; [exact Htext|]. split; [exact Hpinned|].
    rewrite <- Hb. split; [apply index_last_snoc|].
    unfold forced_repair, is_context. cbn [String.append].
    apply startswith_char.
Qed.

Lemma forced_rewrite_ends_on_context_witness :
  exists h header last,
    "@@ -1,3 +1,3 @@
 int a;
-int b;
+int x;
 int c;" = render h
    /\ revise_body true
         ["@@ -1,2 +1,2 @@"; " int a;"; "-int b;"; "+int x;"]
         ["int a;"; "int b;"; "int c;"]
       = Ok (header, body h)
    /\ index (body h) (-1) = Some last
    /\ is_context last = true.
Proof.
  apply (forced_rewrite_ends_on_context
           ["@@ -1,2 +1,2 @@"; " int a;"; "-int b;"; "+int x;"]
           ["int a;"; "int b;"; "int c;"] _ false).
  vm_compute. reflexivity.
Defined.

Section ForcedRewrite.

Variable target_file_lines : list string.
Variable lineno : Z.

Lemma rewrite_step_forced (i : Z) (acc : list string) (line : string)
  (st' : Z * list string) :
  rewrite_step true target_file_lines lineno (i, acc) line = Ok st' ->
  if is_old line
  then exists new_line,
         index target_file_lines (lineno - 1 + i) = Some new_line
         /\ st' = (i + 1, acc ++ [forced_repair new_line])
  else st' = (i, acc ++ [replace_apos_s line]).
Proof.
  unfold rewrite_step.
  change (startswith line " " || startswith line "-") with (is_old line).
  destruct (is_old line).
  - intros H. apply bind_ok in H as (new_line & Hnew & H).
    exists new_line. split.
    + destruct (index target_file_lines (lineno - 1 + i)); [|discriminate].
      injection Hnew as ->. reflexivity.
    + injection H as <-. reflexivity.
  - intros H. injection H as <-. reflexivity.
Qed.

(** The rewrite loop in force mode: every old line becomes a context
    line with the text of the file line that faces it. *)
Lemma rewrite_loop_forced (l : list string) :
  forall (i0 : Z) (acc : list string) (i : Z) (out : list string),
    foldM (rewrite_step true target_file_lines lineno) l (i0, acc)
    = Ok (i, out) ->
    exists added,
      out = acc ++ added
      /\ List.length added = List.length l
      /\ forall k line,
           nth_error l k = Some line ->
           is_old line = true ->
           exists new_line,
             index target_file_lines
                   (lineno - 1 + (i0 + Z.of_nat (count is_old (firstn k l))))
             = Some new_line
             /\ nth_error added k = Some (forced_repair new_line).
Proof.
  induction l as [|x l IH]; intros i0 acc i out H.
  - injection H as <- <-. exists []. split; [symmetry; apply app_nil_r|].
    split; [reflexivity|]. intros k line Hk. destruct k; discriminate.
  - cbn [foldM] in H. apply bind_ok in H as ([i1 acc1] & Hstep & Hrest).
    destruct (IH i1 acc1 i out Hrest) as (added & -> & Hlen & Hlines).
    apply rewrite_step_forced in Hstep.
    destruct (is_old x) eqn:Hx.
    + destruct Hstep as (new_x & Hnew & E). injection E as -> ->.
      exists (forced_repair new_x :: added).
      split; [rewrite <- app_assoc; reflexivity|].
      split; [cbn [List.length]; lia|].
      intros [|k] line Hk Hold; cbn [nth_error] in Hk.
      * injection Hk as <-. exists new_x. split; [|reflexivity].
        unfold count. cbn [firstn filter List.length].
        rewrite Z.add_0_r. exact Hnew.
      * destruct (Hlines k line Hk Hold) as (new_line & Hidx & Hout).
        exists new_line. split; [|exact Hout].
        unfold count in *. cbn [firstn filter]. rewrite Hx.
        cbn [List.length]. rewrite <- Hidx. f_equal. lia.
    + injection Hstep as -> ->.
      exists (replace_apos_s x :: added).
      split; [rewrite <- app_assoc; reflexivity|].
      split; [cbn [List.length]; lia|].
      intros [|k] line Hk Hold; cbn [nth_error] in Hk.
      * injection Hk as <-. rewrite Hx in Hold. discriminate.
      * destruct (Hlines k line Hk Hold) as (new_line & Hidx & Hout).
        exists new_line. split; [|exact Hout].
        unfold count in *. cbn [firstn filter]. rewrite Hx. exact Hidx.
Qed.

End ForcedRewrite.

Lemma Forall2_nth_error {A B} (R : A -> B -> Prop) (l : list A) (l' : list B)
  (k : nat) (a : A) :
  Forall2 R l l' -> nth_error l k = Some a ->
  exists b, nth_error l' k = Some b /\ R a b.
Proof.
  intros H. revert k. induction H as [|x y l l' Hxy _ IH]; intros k Hk.
  - destruct k; discriminate.
  - destruct k as [|k]; cbn [nth_error] in *.
    + injection Hk as <-. eauto.
    + exact (IH k Hk).
Qed.

(** In force mode every context or removed line of the hunk comes out,
    at its place, with the text of the real file's line that faces it,
    as a context line or as a removed line; the body has the lines of
    the hunk and at most one more. *)
Theorem forced_rewrite_takes_file_text
  (lines target_file_lines : list string) (text : string) (fixed : bool) :
  revise_hunk true lines target_file_lines = Ok (text, fixed) ->
  exists h lines' lineno d,
    text = render h
    /\ strip_trailer lines = Ok lines'
    /\ find_most_similar_block
         (fst (extract_lines (body_lines lines'))) target_file_lines
         (len (fst (extract_lines (body_lines lines')))) false
       = Ok (lineno, d)
    /\ (List.length (body_lines lines') <= List.length (body h)
        <= List.length (body_lines lines') + 1)%nat
    /\ forall k line,
         nth_error (body_lines lines') k = Some line ->
         is_old line = true ->
         exists new_line out,
           index target_file_lines (facing lineno (body_lines lines') k)
           = Some new_line
           /\ nth_error (body h) k = Some out
           /\ (out = (" " ++ strip_nl new_line)%string
               \/ out = ("-" ++ strip_nl new_line)%string).
Proof.
  intros Hrun.
  destruct (revise_hunk_inv _ _ _ _ _ Hrun)
    as (h & header & _ & _ & Htext & Hbody & _).
  unfold revise_body in Hbody.
  apply bind_ok in Hbody as (lines' & Htrail & H).
  fold (body_lines lines') in H. unfold extract_context in H.
  destruct (extract_lines (body_lines lines')) as [contexts add_lines] eqn:Ectx.
  apply bind_ok in H as ([lineno d] & Halign & H).
  apply bind_ok in H as ([i rewritten] & Hloop & H).
  apply bind_ok in H as (out & Hforce & H).
  apply bind_ok in H as (header' & _ & H). injection H as _ Hb.
  exists h, lines', lineno, d. split; [exact Htext|]. split; [exact Htrail|].
  rewrite <- Hb, Ectx. cbn [fst]. split; [exact Halign|].
  destruct (rewrite_loop_forced target_file_lines lineno _ _ _ _ _ Hloop)
    as (added & E & Hlen & Hlines).
  cbn [app] in E. subst added.
  destruct (force_phase_inv _ _ _ _ _ _ Hforce) as (marked & Hmarked & Hout).
  assert (Hsame : List.length marked = List.length rewritten)
    by (symmetry; exact (Forall2_length Hmarked)).
  assert (Hnth : forall k, (k < List.length marked)%nat ->
                           nth_error out k = nth_error marked k).
  { intros k Hk. destruct Hout as [(-> & _) | (new_line & _ & ->)];
      [reflexivity | apply nth_error_app1; exact Hk]. }
  split.
  - destruct Hout as [(-> & _) | (new_line & _ & ->)];
      [|rewrite length_app; cbn [List.length]]; lia.
  - intros k line Hk Hold.
    destruct (Hlines k line Hk Hold) as (new_line & Hidx & Hrew).
    destruct (Forall2_nth_error remarked _ _ k _ Hmarked Hrew)
      as (b & Hb' & Hrel).
    exists new_line, b. split; [exact Hidx|]. split.
    + rewrite Hnth; [exact Hb'|].
      apply nth_error_Some. rewrite Hb'. discriminate.
    + destruct Hrel as [->| ->]; [left | right]; reflexivity.
Qed.

Lemma forced_rewrite_takes_file_text_witness :
  let lines := ["@@ -1,2 +1,2 @@"; " int a;"; "-int b;"; "+int x;"] in
  let target := ["int a;"; "int b;"; "int c;"] in
  exists h lines' lineno d,
    "@@ -1,3 +1,3 @@
 int a;
-int b;
+int x;
 int c;" = render h
    /\ strip_trailer lines = Ok lines'
    /\ find_most_similar_block
         (fst (extract_lines (body_lines lines'))) target
         (len (fst (extract_lines (body_lines lines')))) false
       = Ok (lineno, d)
    /\ (List.length (body_lines lines') <= List.length (body h)
        <= List.length (body_lines lines') + 1)%nat
    /\ forall k line,
         nth_error (body_lines lines') k = Some line ->
         is_old line = true ->
         exists new_line out,
           index target (facing lineno (body_lines lines') k) = Some new_line
           /\ nth_error (body h) k = Some out
           /\ (out = (" " ++ strip_nl new_line)%string
               \/ out = ("-" ++ strip_nl new_line)%string).
Proof.
  intros lines target.
  apply (forced_rewrite_takes_file_text lines target _ false).
  vm_compute. reflexivity.
Defined.

(* ================================================================== *)
(** * More on [revise_patch] *)
(* ================================================================== *)

Lemma revise_body_header (revise_context : bool)
  (lines target_file_lines : list string) (header : string)
  (revised : list string) :
  revise_body revise_context lines target_file_lines = Ok (header, revised) ->
  exists lines', strip_trailer lines = Ok lines'
                 /\ index lines' 0 = Some header.
Proof.
  unfold revise_body. intros H.
  apply bind_ok in H as (lines' & Htrail & H).
  destruct (extract_context (map fix_prefix (slice_from lines' 1)))
    as [[[contexts num_context] add_lines] num_add].
  apply bind_ok in H as ([lineno d] & _ & H).
  apply bind_ok in H as ([i rewritten] & _ & H).
  apply bind_ok in H as (out & _ & H).
  apply bind_ok in H as (header' & Hheader & H). injection H as <- _.
  exists lines'. split; [exact Htrail|].
  destruct (index lines' 0); [|discriminate].
  injection Hheader as ->. reflexivity.
Qed.

(** A hunk whose header line does not hold the four numbers (for
    instance [@@ -1 +1 @@], where the counts are left out) makes
    [revise_hunk] raise, in either mode and whatever the file holds. *)
Theorem header_without_counts_raises (revise_context : bool)
  (lines lines' target_file_lines : list string) (header : string) (e : exn) :
  strip_trailer lines = Ok lines' ->
  index lines' 0 = Some header ->
  find_header header = Raise e ->
  exists e', revise_hunk revise_context lines target_file_lines = Raise e'.
Proof.
  intros Htrail Hheader Hbad. unfold revise_hunk, revise_hunk_parts.
  destruct (revise_body revise_context lines target_file_lines)
    as [[header' revised]|e'] eqn:Hbody; [|cbn [bind]; eauto].
  destruct (revise_body_header _ _ _ _ _ Hbody) as (lines2 & Htrail2 & Hh2).
  rewrite Htrail in Htrail2. injection Htrail2 as <-.
  rewrite Hheader in Hh2. injection Hh2 as <-.
  cbn [bind]. rewrite Hbad. cbn [bind]. eauto.
Qed.

Lemma header_without_counts_raises_witness :
  exists e',
    revise_hunk false ["@@ -1 +1 @@"; "-int a;"; "+int b;"] ["int a;"]
    = Raise e'.
Proof.
  apply (header_without_counts_raises false
           ["@@ -1 +1 @@"; "-int a;"; "+int b;"]
           ["@@ -1 +1 @@"; "-int a;"; "+int b;"] ["int a;"]
           "@@ -1 +1 @@" IndexError); vm_compute; reflexivity.
Defined.

Lemma blocks_from_none (lines : list string) :
  (forall line, In line lines -> block_start line = false) ->
  blocks_from None lines = [].
Proof.
  induction lines as [|x lines IH]; intros H; [reflexivity|].
  cbn [blocks_from]. rewrite (H x (or_introl eq_refl)). cbn [option_map].
  apply IH. intros line Hl. apply H. right. exact Hl.
Qed.

(** A text without any line that opens a file block is not given back:
    [revise_patch] returns a single newline, with the flag false. *)
Theorem patch_without_block_is_emptied
  (read_file : string -> option string) (revise_context : bool)
  (patch : string) :
  (forall line, In line (splitlines patch) -> block_start line = false) ->
  revise_patch read_file revise_context patch
  = (String nl EmptyString, false).
Proof.
  intros H. unfold revise_patch.
  rewrite revise_patch_try_blocks. unfold blocks_of.
  rewrite (blocks_from_none _ H). reflexivity.
Qed.

Lemma patch_without_block_is_emptied_witness :
  revise_patch (fun _ => None) false
"@@ -1,1 +1,1 @@
-int a;
+int b;
"
  = (String nl EmptyString, false).
Proof.
  apply (patch_without_block_is_emptied (fun _ => None) false).
  intros line Hl. vm_compute in Hl.
  repeat (destruct Hl as [<-|Hl]; [reflexivity|]). destruct Hl.
Defined.

(* ================================================================== *)
(** * More on [split_patch] *)
(* ================================================================== *)

Lemma range2_seq (a n : nat) :
  range2 (Z.of_nat a) (Z.of_nat a + Z.of_nat n) = map Z.of_nat (seq a n).
Proof.
  unfold range2.
  replace (Z.to_nat (Z.of_nat a + Z.of_nat n - Z.of_nat a)) with n by lia.
  assert (H : forall s, map (fun k => Z.of_nat a + Z.of_nat k) (seq s n)
                        = map Z.of_nat (seq (a + s) n)).
  { induction n as [|n IH]; intros s; [reflexivity|].
    cbn [seq map]. rewrite IH. f_equal; [lia|].
    rewrite Nat.add_succ_r. reflexivity. }
  rewrite H, Nat.add_0_r. reflexivity.
Qed.

Lemma groups_from_length (start : string -> bool) (lines : list string) :
  forall cur,
    List.length (groups_from start cur lines)
    = ((match cur with Some _ => 1 | None => 0 end) + count start lines)%nat.
Proof.
  unfold count.
  induction lines as [|x lines IH]; intros cur; cbn [groups_from filter].
  - destruct cur; reflexivity.
  - destruct (start x).
    + rewrite length_app, IH. destruct cur; cbn [List.length]; lia.
    + rewrite IH. destruct cur; reflexivity.
Qed.

Lemma groups_from_concat_open (start : string -> bool) (lines : list string) :
  forall g, List.concat (groups_from start (Some g) lines) = g ++ lines.
Proof.
  induction lines as [|x lines IH]; intros g; cbn [groups_from].
  - cbn. rewrite !app_nil_r. reflexivity.
  - destruct (start x).
    + cbn [app List.concat]. rewrite IH. reflexivity.
    + cbn [option_map]. rewrite IH, <- app_assoc. reflexivity.
Qed.

Lemma groups_from_concat (start : string -> bool) (lines : list string) :
  List.concat (groups_from start None lines) = from_first start lines.
Proof.
  induction lines as [|x lines IH]; cbn [groups_from from_first];
    [reflexivity|].
  destruct (start x).
  - cbn [app]. apply groups_from_concat_open.
  - exact IH.
Qed.

Section SplitBlock.

Variables file_path_line_a file_path_line_b : string.

Let step := split_block_step file_path_line_a file_path_line_b.
Let unit_for := unit_of file_path_line_a file_path_line_b.
Let close := close_hunks file_path_line_a file_path_line_b.

(** The hunk loop of [split_block], from any line on, yields one unit
    per group of lines that opens on [@@]. *)
Lemma split_block_loop (todo : list string) :
  forall (done : list string) (last : Z) (out : list string),
    last = -1 \/ 0 <= last <= len done ->
    close (done ++ todo)
          (fold_left (step (done ++ todo))
                     (map Z.of_nat (seq (List.length done) (List.length todo)))
                     (last, out))
    = out ++ map unit_for (groups_from hunk_start (open_block last done) todo).
Proof.
  induction todo as [|x rest IH]; intros done last out Hlast.
  - cbn [List.length seq map fold_left]. rewrite app_nil_r.
    unfold close, close_hunks, open_block. cbn [fst snd].
    destruct (Z.eqb_spec last (-1)) as [E|E]; cbn [negb groups_from map].
    + symmetry. apply app_nil_r.
    + rewrite slice_from_skipn by lia. reflexivity.
  - cbn [List.length seq map fold_left].
    assert (Hlines : done ++ x :: rest = (done ++ [x]) ++ rest)
      by (rewrite <- app_assoc; reflexivity).
    assert (Hlen : S (List.length done) = List.length (done ++ [x]))
      by (rewrite length_app; cbn; lia).
    assert (Hlen' : len (done ++ [x]) = Z.of_nat (List.length done) + 1)
      by (unfold len; rewrite length_app; cbn; lia).
    assert (Hld : len done = Z.of_nat (List.length done)) by reflexivity.
    assert (Hstep : step (done ++ x :: rest) (last, out)
                         (Z.of_nat (List.length done))
                    = if hunk_start x
                      then (Z.of_nat (List.length done),
                            if negb (last =? -1)
                            then out ++ [unit_for (skipn (Z.to_nat last) done)]
                            else out)
                      else (last, out)).
    { unfold step, split_block_step. rewrite index_middle.
      change (startswith x "@@") with (hunk_start x).
      destruct (hunk_start x); [|reflexivity].
      destruct (Z.eqb_spec last (-1)) as [E|E]; cbn [negb]; [reflexivity|].
      change (Z.of_nat (List.length done)) with (len done) at 2.
      rewrite slice_done by lia. reflexivity. }
    rewrite Hstep. clear Hstep.
    destruct (hunk_start x) eqn:Hx.
    + rewrite Hlines, Hlen, IH by lia.
      rewrite open_block_marker. unfold open_block.
      destruct (Z.eqb_spec last (-1)) as [E|E]; cbn [negb groups_from];
        rewrite Hx; cbn [app map]; [reflexivity|].
      rewrite <- app_assoc. reflexivity.
    + rewrite Hlines, Hlen, IH by lia.
      rewrite open_block_snoc by exact Hlast.
      cbn [groups_from]. rewrite Hx. reflexivity.
Qed.

End SplitBlock.

Lemma split_block_groups (a b : string) (rest : list string) :
  split_block (a :: b :: rest)
  = Ok (map (unit_of a b) (groups_from hunk_start None rest)).
Proof.
  unfold split_block.
  assert (H0 : index (a :: b :: rest) 0 = Some a)
    by (rewrite index_nonneg by lia; reflexivity).
  assert (H1 : index (a :: b :: rest) 1 = Some b)
    by (rewrite index_nonneg by lia; reflexivity).
  rewrite H0, H1. cbn [of_option bind]. clear H0 H1.
  assert (Hrange : range2 2 (len (a :: b :: rest))
                   = map Z.of_nat (seq 2 (List.length rest))).
  { rewrite <- (range2_seq 2 (List.length rest)). unfold len.
    cbn [List.length]. f_equal. lia. }
  rewrite Hrange.
  pose proof (split_block_loop a b rest [a; b] (-1) []
                (or_introl eq_refl)) as H.
  cbn [app List.length] in H. unfold close_hunks in H.
  change (open_block (-1) [a; b]) with (@None (list string)) in H.
  destruct (fold_left _ _ _) as [last out].
  cbn [fst snd] in H. rewrite <- H.
  destruct (negb (last =? -1)); reflexivity.
Qed.

(** [split_block] needs the two header lines of the file: with fewer
    than two lines it raises.  Otherwise it yields one unit per line
    that starts with [@@] after the header; a unit is the two header
    lines followed by the lines of its hunk, and the hunks together are
    the lines of the block from the first [@@] on, so that the lines
    between the header and the first hunk are in no unit. *)
Theorem split_block_units (lines : list string) :
  match lines with
  | file_path_line_a :: file_path_line_b :: rest =>
      split_block lines
      = Ok (map (unit_of file_path_line_a file_path_line_b)
                (groups_from hunk_start None rest))
      /\ List.length (groups_from hunk_start None rest) = count hunk_start rest
      /\ List.concat (groups_from hunk_start None rest)
         = from_first hunk_start rest
  | _ => split_block lines = Raise IndexError
  end.
Proof.
  destruct lines as [|a [|b rest]]; [reflexivity | reflexivity |].
  split; [|split].
  - apply split_block_groups.
  - rewrite groups_from_length. reflexivity.
  - apply groups_from_concat.
Qed.

Lemma split_rest_cons (flag_commit : bool) (lines : list string)
  (n : Z) (idxs : list Z) (st : string * Z) (ys : list string) :
  split_rest flag_commit lines (n :: idxs) st ys
  = match split_step flag_commit lines st n ys with
    | (ys', Ok st') => split_rest flag_commit lines idxs st' ys'
    | (ys', Raise e) => (ys', Raise e)
    end.
Proof.
  unfold split_rest. cbn [gfold]. unfold gbind.
  destruct (split_step flag_commit lines st n ys) as [ys' [st'|e]];
    reflexivity.
Qed.

Lemma a_marker_is_not_dev_null (x : string) :
  startswith x "--- a/" = true -> startswith x "--- /dev/null" = false.
Proof.
  unfold startswith.
  destruct x as [|c1 [|c2 [|c3 [|c4 [|c5 x]]]]]; cbn [String.prefix];
    try discriminate;
    repeat match goal with
           | |- context [ascii_dec ?a ?b] =>
               destruct (ascii_dec a b); try discriminate; try reflexivity
           end.
  subst. discriminate.
Qed.

Lemma index_after_middle {A} (done rest : list A) (x : A) :
  index (done ++ x :: rest) (Z.of_nat (List.length done) + 1) = hd_error rest.
Proof.
  rewrite index_nonneg by lia.
  replace (Z.to_nat (Z.of_nat (List.length done) + 1))
    with (List.length done + 1)%nat by lia.
  rewrite nth_error_app2 by lia.
  replace (List.length done + 1 - List.length done)%nat with 1%nat by lia.
  destruct rest; reflexivity.
Qed.

Section SplitLines.

(** One line of the loop of [split_patch] without a commit message. *)
Lemma split_step_plain (done rest : list string) (x : string) (last : Z)
  (ys : list string) :
  last = -1 \/ last = -2 \/ 0 <= last <= len done ->
  split_step false (done ++ x :: rest) ("", last)
             (Z.of_nat (List.length done)) ys
  = (if startswith x "--- a/" then
       gbind (yield_open (kept_block last done))
         (fun _ => gret ("", if blacklisted x then -2
                             else Z.of_nat (List.length done)))
     else if startswith x "--- /dev/null" then
       gbind (yield_open (kept_block last done))
         (fun _ =>
            gbind (glift (of_option (hd_error rest)))
              (fun name => gret ("", if blacklisted name then -2
                                     else Z.of_nat (List.length done))))
     else gret ("", last)) ys.
Proof.
  intros Hlast.
  assert (Hyield : forall back look,
            marker_step false (done ++ x :: rest) back look ("", last)
                        (Z.of_nat (List.length done)) ys
            = gbind (yield_open (kept_block last done))
                (fun _ =>
                   gbind (glift (of_option
                            (index (done ++ x :: rest)
                                   (Z.of_nat (List.length done) + look))))
                     (fun name =>
                        gret ("", if blacklisted name then -2
                                  else Z.of_nat (List.length done)))) ys).
  { intros back look. unfold marker_step, kept_block.
    rewrite andb_false_r.
    destruct (Z.leb_spec 0 last) as [Hge|Hlt]; [|reflexivity].
    change (Z.of_nat (List.length done)) with (len done) at 1.
    rewrite slice_done by lia. reflexivity. }
  unfold split_step. unfold gbind at 1. rewrite index_middle.
  unfold glift at 1. cbn [of_option].
  destruct (startswith x "--- a/") eqn:Ha.
  - rewrite (a_marker_is_not_dev_null x Ha).
    unfold gbind at 1. rewrite Hyield. rewrite Z.add_0_r, index_middle.
    unfold gbind, glift, gret. cbn [of_option].
    destruct (yield_open (kept_block last done) ys) as [ys' [u|e]]; reflexivity.
  - unfold gbind at 1. unfold gret at 1.
    destruct (startswith x "--- /dev/null") eqn:Hd; [|reflexivity].
    rewrite Hyield. rewrite index_after_middle. reflexivity.
Qed.

(** The loop of [split_patch] without a commit message, from any line
    on, is the recursion on the lines that are left. *)
Lemma split_rest_lines (todo : list string) :
  forall (done : list string) (last : Z) (ys : list string),
    last = -1 \/ last = -2 \/ 0 <= last <= len done ->
    split_rest false (done ++ todo)
               (map Z.of_nat (seq (List.length done) (List.length todo)))
               ("", last) ys
    = split_lines (kept_block last done) todo ys.
Proof.
  induction todo as [|x rest IH]; intros done last ys Hlast.
  - cbn [List.length seq map split_lines]. rewrite app_nil_r.
    unfold split_rest, gbind. cbn [gfold]. unfold gret at 1.
    unfold kept_block, yield_open.
    destruct (Z.leb_spec 0 last) as [Hge|Hlt]; [|reflexivity].
    rewrite slice_from_skipn by lia. reflexivity.
  - cbn [List.length seq map]. rewrite split_rest_cons.
    rewrite split_step_plain by exact Hlast.
    assert (Hlines : done ++ x :: rest = (done ++ [x]) ++ rest)
      by (rewrite <- app_assoc; reflexivity).
    assert (Hlen : S (List.length done) = List.length (done ++ [x]))
      by (rewrite length_app; cbn; lia).
    assert (Hlen' : len (done ++ [x]) = Z.of_nat (List.length done) + 1)
      by (unfold len; rewrite length_app; cbn; lia).
    assert (Hld : len done = Z.of_nat (List.length done)) by reflexivity.
    assert (Hnew : forall name,
              kept_block (if blacklisted name then -2
                          else Z.of_nat (List.length done)) (done ++ [x])
              = if blacklisted name then None else Some [x]).
    { intros name. unfold kept_block. destruct (blacklisted name);
        [reflexivity|].
      destruct (Z.leb_spec 0 (Z.of_nat (List.length done))) as [_|H]; [|lia].
      rewrite Nat2Z.id, skipn_app, Nat.sub_diag, skipn_all. reflexivity. }
    cbn [split_lines].
    destruct (startswith x "--- a/") eqn:Ha.
    + unfold gbind. unfold gret at 1.
      destruct (yield_open (kept_block last done) ys) as [ys' [u|e]];
        [|reflexivity].
      rewrite Hlines, Hlen, IH by (destruct (blacklisted x); lia).
      rewrite Hnew. reflexivity.
    + destruct (startswith x "--- /dev/null") eqn:Hd.
      * unfold gbind. unfold glift, gret at 1.
        destruct (yield_open (kept_block last done) ys) as [ys' [u|e]];
          [|reflexivity].
        destruct (hd_error rest) as [name|]; cbn [of_option]; [|reflexivity].
        rewrite Hlines, Hlen, IH by (destruct (blacklisted name); lia).
        rewrite Hnew. reflexivity.
      * unfold gret at 1. rewrite Hlines, Hlen, IH by lia.
        f_equal. unfold kept_block.
        destruct (Z.leb_spec 0 last) as [Hge|Hlt]; [|reflexivity].
        cbn [option_map]. f_equal. rewrite skipn_app.
        replace (Z.to_nat last - List.length done)%nat with 0%nat by lia.
        reflexivity.
Qed.

End SplitLines.

(** Without a commit message, [split_patch] goes through the file
    blocks of the patch in order: a block of the denylist yields
    nothing, any other block yields the units of [split_block], and the
    first block for which [split_block] raises, or a last line
    [--- /dev/null] with no line after it, ends the sequence. *)
Theorem split_patch_by_file_blocks (patch : string) :
  split_patch_try false patch [] = split_lines None (splitlines patch) []
  /\ units (split_patch false patch)
     = fst (split_lines None (splitlines patch) []).
Proof.
  assert (H : split_patch_try false patch []
              = split_lines None (splitlines patch) []).
  { pose proof (split_rest_lines (splitlines patch) [] (-1) []
                  (or_introl eq_refl)) as H.
    cbn [app List.length] in H.
    change (kept_block (-1) []) with (@None (list string)) in H.
    etransitivity; [|exact H].
    unfold split_patch_try, split_rest, range, len.
    rewrite Nat2Z.id. reflexivity. }
  split; [exact H|].
  unfold split_patch. rewrite H.
  destruct (split_lines None (splitlines patch) []) as [ys [u|e]]; reflexivity.
Qed.

Section OneFile.

Variable flag_commit : bool.

Lemma split_step_other (lines : list string) (st : string * Z) (n : Z)
  (x : string) (ys : list string) :
  index lines n = Some x ->
  block_start x = false ->
  split_step flag_commit lines st n ys = (ys, Ok st).
Proof.
  intros Hx Hm. unfold block_start in Hm.
  apply orb_false_iff in Hm. destruct Hm as [Ha Hd].
  unfold split_step, gbind, glift. rewrite Hx. cbn [of_option].
  rewrite Ha, Hd. reflexivity.
Qed.

(** Lines that open no file block leave the state of the loop of
    [split_patch] as it is and yield nothing. *)
Lemma split_loop_others (todo : list string) :
  forall (done post : list string) (st : string * Z) (ys : list string),
    Forall (fun x => block_start x = false) todo ->
    gfold (split_step flag_commit (done ++ todo ++ post))
          (map Z.of_nat (seq (List.length done) (List.length todo))) st ys
    = (ys, Ok st).
Proof.
  induction todo as [|x todo IH]; intros done post st ys H; [reflexivity|].
  inversion H as [|? ? Hx Htodo]; subst.
  cbn [List.length seq map gfold]. unfold gbind.
  change (done ++ (x :: todo) ++ post) with (done ++ x :: todo ++ post).
  rewrite (split_step_other _ st _ x ys (index_middle _ _ _) Hx).
  assert (Hlines : done ++ x :: todo ++ post = (done ++ [x]) ++ todo ++ post)
    by (rewrite <- app_assoc; reflexivity).
  assert (Hlen : S (List.length done) = List.length (done ++ [x]))
    by (rewrite length_app; cbn; lia).
  rewrite Hlines, Hlen. apply IH. exact Htodo.
Qed.

Lemma split_patch_one_marker (pre post : list string) (m : string)
  (ys : list string) :
  startswith m "--- a/" = true ->
  Forall (fun x => block_start x = false) pre ->
  Forall (fun x => block_start x = false) post ->
  split_rest flag_commit (pre ++ m :: post)
             (range (len (pre ++ m :: post))) ("", -1) ys
  = (if blacklisted m then gret tt
     else yield_block (message_of flag_commit pre) (m :: post)) ys.
Proof.
  intros Ha Hpre Hpost.
  assert (Hrange : range (len (pre ++ m :: post))
                   = map Z.of_nat (seq 0 (List.length pre))
                     ++ Z.of_nat (List.length pre)
                        :: map Z.of_nat (seq (S (List.length pre))
                                             (List.length post))).
  { unfold range, len. rewrite Nat2Z.id, length_app. cbn [List.length].
    rewrite seq_app, map_app. cbn [seq map Nat.add]. reflexivity. }
  rewrite Hrange. unfold split_rest. unfold gbind at 1.
  rewrite gfold_app. unfold gbind at 1.
  pose proof (split_loop_others pre [] (m :: post) ("", -1) ys Hpre) as H1.
  cbn [app List.length] in H1. rewrite H1. clear H1.
  cbn [gfold]. unfold gbind at 1.
  assert (Hstep : split_step flag_commit (pre ++ m :: post) ("", -1)
                             (Z.of_nat (List.length pre)) ys
                  = (ys, Ok (message_of flag_commit pre,
                             if blacklisted m then -2
                             else Z.of_nat (List.length pre)))).
  { unfold split_step. unfold gbind at 1, glift at 1.
    rewrite index_middle. cbn [of_option]. rewrite Ha.
    rewrite (a_marker_is_not_dev_null m Ha).
    unfold marker_step, gbind, glift, gret.
    change (0 <=? -1) with false. cbn iota.
    rewrite Z.add_0_r, index_middle. cbn [of_option].
    change (-1 =? -1) with true. cbn [andb].
    do 2 f_equal. f_equal. unfold message_of.
    destruct flag_commit; [|reflexivity].
    f_equal. unfold slice_to, clamp, len. rewrite length_app.
    cbn [List.length].
    destruct (Z.ltb_spec (Z.max (Z.of_nat (List.length pre) - 2) 0) 0);
      [lia|].
    rewrite Z.min_l by lia.
    replace (Z.to_nat (Z.max (Z.of_nat (List.length pre) - 2) 0))
      with (List.length pre - 2)%nat by lia.
    rewrite firstn_app.
    replace (List.length pre - 2 - List.length pre)%nat with 0%nat by lia.
    cbn [firstn]. apply app_nil_r. }
  rewrite Hstep. clear Hstep.
  assert (Hlines : pre ++ m :: post = (pre ++ [m]) ++ post ++ [])
    by (rewrite <- app_assoc, app_nil_r; reflexivity).
  assert (Hlen : S (List.length pre) = List.length (pre ++ [m]))
    by (rewrite length_app; cbn; lia).
  rewrite Hlines at 1. rewrite Hlen.
  rewrite (split_loop_others post (pre ++ [m]) [] _ ys Hpost).
  destruct (blacklisted m); [reflexivity|].
  destruct (Z.leb_spec 0 (Z.of_nat (List.length pre))) as [_|H]; [|lia].
  rewrite slice_from_skipn by (unfold len; rewrite length_app; lia).
  rewrite Nat2Z.id, skipn_app, Nat.sub_diag, skipn_all. reflexivity.
Qed.

(** A patch that changes one file: the lines above the line [--- a/...]
    and the lines below it open no other file block.  When that line
    ends in an entry of the denylist, [split_patch] yields nothing and
    logs nothing.  Otherwise, when no line follows it, [split_patch]
    yields nothing and logs that it failed; when a line follows it,
    [split_patch] yields one unit per hunk, in order, each with the
    message in front (put there without a line break), and logs
    nothing. *)
Theorem one_file_patch_units (patch : string) (pre post : list string)
  (file_path_line_a : string) :
  splitlines patch = pre ++ file_path_line_a :: post ->
  startswith file_path_line_a "--- a/" = true ->
  Forall (fun x => block_start x = false) pre ->
  Forall (fun x => block_start x = false) post ->
  split_patch flag_commit patch
  = if blacklisted file_path_line_a then mk_generated [] (Ok tt) []
    else
      match post with
      | [] => mk_generated [] (Ok tt) ["Failed to split patch"]
      | file_path_line_b :: rest =>
          mk_generated
            (map (fun hunk_lines =>
                    (message_of flag_commit pre
                     ++ unit_of file_path_line_a file_path_line_b hunk_lines)
                    %string)
                 (groups_from hunk_start None rest))
            (Ok tt) []
      end.
Proof.
  intros Hlines Ha Hpre Hpost.
  unfold split_patch.
  change (split_patch_try flag_commit patch [])
    with (split_rest flag_commit (splitlines patch)
                     (range (len (splitlines patch))) ("", -1) []).
  rewrite Hlines.
  rewrite (split_patch_one_marker pre _ _ [] Ha Hpre Hpost).
  destruct (blacklisted file_path_line_a); [reflexivity|].
  destruct post as [|file_path_line_b rest]; [reflexivity|].
  unfold yield_block, gbind, glift, yield_all.
  rewrite split_block_groups. cbn [app]. rewrite map_map. reflexivity.
Qed.

(** A text without any line that opens a file block yields nothing, and
    nothing is logged. *)
Theorem patch_without_block_yields_nothing (patch : string) :
  Forall (fun x => block_start x = false) (splitlines patch) ->
  split_patch flag_commit patch = mk_generated [] (Ok tt) [].
Proof.
  intros H. unfold split_patch, split_patch_try.
  pose proof (split_loop_others (splitlines patch) [] [] ("", -1) [] H) as E.
  cbn [app List.length] in E. rewrite app_nil_r in E.
  unfold gbind, range, len. rewrite Nat2Z.id, E. reflexivity.
Qed.

End OneFile.

Lemma one_file_patch_units_witness :
  split_patch true
"Fix the bound

diff --git a/f.c b/f.c
index 1..2 100644
--- a/f.c
+++ b/f.c
@@ -1,2 +1,2 @@
-int a;
+int b;
 int c;
@@ -9,1 +9,1 @@
-int x;
+int y;
"
  = mk_generated
      [ "Fix the bound
--- a/f.c
+++ b/f.c
@@ -1,2 +1,2 @@
-int a;
+int b;
 int c;";
        "Fix the bound
--- a/f.c
+++ b/f.c
@@ -9,1 +9,1 @@
-int x;
+int y;" ]
      (Ok tt) [].
Proof.
  rewrite (one_file_patch_units true _
             ["Fix the bound"; ""; "diff --git a/f.c b/f.c";
              "index 1..2 100644"]
             ["+++ b/f.c";
              "@@ -1,2 +1,2 @@"; "-int a;"; "+int b;"; " int c;";
              "@@ -9,1 +9,1 @@"; "-int x;"; "+int y;"]
             "--- a/f.c").
  - vm_compute. reflexivity.
  - vm_compute. reflexivity.
  - vm_compute. reflexivity.
  - repeat (constructor; [vm_compute; reflexivity|]). constructor.
  - repeat (constructor; [vm_compute; reflexivity|]). constructor.
Defined.

Lemma patch_without_block_yields_nothing_witness :
  split_patch false
"@@ -1,1 +1,1 @@
-int a;
+int b;
"
  = mk_generated [] (Ok tt) [].
Proof.
  apply (patch_without_block_yields_nothing false).
  vm_compute.
  repeat (constructor; [reflexivity|]). constructor.
Defined.

(* ================================================================== *)
(** * More on [find_most_similar_files] *)
(* ================================================================== *)

Lemma insert_by_distance_filter (d : nat) (x : nat * string)
  (l : list (nat * string)) :
  filter (fun y => Nat.eqb (fst y) d) (insert_by_distance x l)
  = filter (fun y => Nat.eqb (fst y) d) (x :: l).
Proof.
  induction l as [|y l IH]; cbn [insert_by_distance]; [reflexivity|].
  destruct (Nat.leb_spec (fst x) (fst y)) as [Hle|Hgt]; [reflexivity|].
  cbn [filter] in *. rewrite IH.
  destruct (Nat.eqb_spec (fst x) d) as [Ex|Ex];
    destruct (Nat.eqb_spec (fst y) d) as [Ey|Ey]; try reflexivity.
  exfalso. lia.
Qed.

(** The sort is stable: it keeps the order of the entries of one
    distance. *)
Lemma sort_by_distance_filter (d : nat) (l : list (nat * string)) :
  filter (fun y => Nat.eqb (fst y) d) (sort_by_distance l)
  = filter (fun y => Nat.eqb (fst y) d) l.
Proof.
  induction l as [|x l IH]; [reflexivity|].
  cbn [sort_by_distance fold_right]. fold (sort_by_distance l).
  rewrite insert_by_distance_filter. cbn [filter]. rewrite IH. reflexivity.
Qed.

Lemma StronglySorted_firstn {A} (R : A -> A -> Prop) (n : nat) (l : list A) :
  StronglySorted R l -> StronglySorted R (firstn n l).
Proof.
  intros H. revert n. induction H as [|x l Hl IH Hx]; intros n.
  - rewrite firstn_nil. constructor.
  - destruct n as [|n]; cbn [firstn]; constructor; [apply IH|].
    rewrite Forall_forall in *. intros y Hy. apply Hx.
    apply (in_firstn_in n). exact Hy.
Qed.

Section NearestInOrder.

Variable target_filename : string.

Let keyed (x : nat * string) : Prop :=
  fst x = name_distance target_filename (snd x).

Lemma sorted_map_snd (l : list (nat * string)) :
  Forall keyed l -> StronglySorted nearer l ->
  StronglySorted (not_nearer target_filename) (map snd l).
Proof.
  intros Hk Hs. induction Hs as [|x l Hl IH Hx]; cbn [map]; constructor.
  - apply IH. inversion Hk; assumption.
  - inversion Hk as [|? ? Kx Kl]; subst.
    rewrite Forall_forall in *. intros q Hq.
    apply in_map_iff in Hq as (y & <- & Hy).
    unfold not_nearer. rewrite <- Kx, <- (Kl y Hy). apply (Hx y Hy).
Qed.

Lemma at_distance_map_snd (d : nat) (l : list (nat * string)) :
  Forall keyed l ->
  at_distance target_filename d (map snd l)
  = map snd (filter (fun y => Nat.eqb (fst y) d) l).
Proof.
  intros Hk. induction Hk as [|x l Kx Kl IH]; [reflexivity|].
  cbn [map filter at_distance]. fold (at_distance target_filename d (map snd l)).
  rewrite IH, <- Kx. destruct (Nat.eqb (fst x) d); reflexivity.
Qed.

(** [find_most_similar_files] gives five files of the repository, or
    all of them when there are fewer, the nearest to the missing name
    first.  No file it leaves out is nearer than a file it gives, and
    among the files of one distance it gives those that the walk of the
    repository met first, in the order of the walk. *)
Theorem similar_files_nearest_first (walk : list string) :
  let found := find_most_similar_files target_filename walk in
  List.length found = Nat.min 5 (List.length walk)
  /\ (forall p, In p found -> In p walk)
  /\ StronglySorted (not_nearer target_filename) found
  /\ (forall p q, In p found -> In q walk -> ~ In q found ->
                  not_nearer target_filename p q)
  /\ (forall d, exists later,
        at_distance target_filename d walk
        = at_distance target_filename d found ++ later).
Proof.
  cbn zeta.
  destruct (find_most_similar_files_nearest target_filename walk)
    as (Hlen & Hin & Hnear).
  split; [exact Hlen|]. split; [exact Hin|].
  unfold find_most_similar_files in *.
  set (similarity_list :=
         map (fun relative_path =>
                (Levenshtein.distance target_filename (basename relative_path),
                 relative_path)) walk) in *.
  set (sorted := sort_by_distance similarity_list) in *.
  assert (Hsim : Forall keyed similarity_list).
  { unfold similarity_list. apply Forall_forall. intros x Hx.
    apply in_map_iff in Hx as (p & <- & _). reflexivity. }
  assert (Hkeyed : Forall keyed sorted).
  { apply Forall_forall. intros x Hx. rewrite Forall_forall in Hsim.
    apply Hsim. eapply Permutation_in; [apply sort_by_distance_perm|exact Hx]. }
  assert (Hwalk : map snd similarity_list = walk).
  { unfold similarity_list. rewrite map_map. cbn [snd]. apply map_id. }
  split; [|split].
  - apply sorted_map_snd.
    + apply Forall_forall. intros x Hx. rewrite Forall_forall in Hkeyed.
      apply Hkeyed. apply (in_firstn_in 5). exact Hx.
    + apply StronglySorted_firstn. apply sort_by_distance_sorted.
  - exact Hnear.
  - intros d.
    exists (at_distance target_filename d (map snd (skipn 5 sorted))).
    unfold at_distance. rewrite <- filter_app, <- map_app, firstn_skipn.
    fold (at_distance target_filename d (map snd sorted)).
    fold (at_distance target_filename d walk).
    rewrite (at_distance_map_snd d sorted Hkeyed).
    unfold sorted. rewrite sort_by_distance_filter.
    rewrite <- (at_distance_map_snd d similarity_list Hsim), Hwalk.
    reflexivity.
Qed.

End NearestInOrder.

(* ================================================================== *)
(** * More on [_apply_hunk] and [_validate] *)
(* ================================================================== *)

Lemma records_nothing (self : Project) : records [] self self.
Proof.
  unfold records. destruct self. cbn. rewrite app_nil_r, orb_false_r.
  reflexivity.
Qed.

Lemma records_more (extra extra' : list string) (self self1 self2 : Project) :
  records extra self self1 -> records extra' self1 self2 ->
  records (extra ++ extra') self self2.
Proof.
  unfold records. intros -> ->. destruct self. cbn.
  rewrite <- app_assoc, length_app.
  destruct extra; destruct extra'; cbn; rewrite ?orb_true_r, ?orb_false_r;
    reflexivity.
Qed.

Section ApplyHunkFrame.

Variable git_diff_renamed : string -> string -> string -> string.
Variable locate_symbol : string -> string -> option (list (string * Z)).
Variable walk : list string.
Variable read_file : string -> string -> option string.
Variable git_apply : string -> string -> option string.
Variable repr_paths : list string -> string.
Variable _apply_error_handling : string -> string -> result (string * string).

Lemma try_paths_records
  (apply_hunk : Project -> string -> string -> bool -> result (string * Project))
  (ref old_patch missing : string) (all_paths : list string) :
  (forall self patch rc ret self',
      apply_hunk self ref patch rc = Ok (ret, self') ->
      exists extra, records extra self self') ->
  forall (file_paths : list string) (self : Project) (ret0 ret : string)
         (self' : Project),
    try_paths repr_paths apply_hunk self ref old_patch missing all_paths
              file_paths ret0 = Ok (ret, self') ->
    exists extra, records extra self self'.
Proof.
  intros Hrec. induction file_paths as [|file_path rest IH];
    intros self ret0 ret self' H; cbn [try_paths] in H.
  - injection H as _ <-. exists []. apply records_nothing.
  - destruct (apply_hunk self ref (replace missing file_path old_patch) false)
      as [[apply_ret self1]|e] eqn:Ha; cbn [bind] in H; [|discriminate].
    destruct (Hrec _ _ _ _ _ Ha) as (extra1 & H1).
    destruct (contains "successfully" apply_ret).
    + injection H as _ <-. exists extra1. exact H1.
    + destruct (IH _ _ _ _ H) as (extra2 & H2).
      exists (extra1 ++ extra2). exact (records_more _ _ _ _ _ H1 H2).
Qed.

Lemma apply_hunk_records (depth : nat) :
  forall (self : Project) (ref patch : string) (revise_context : bool)
         (ret : string) (self' : Project),
    _apply_hunk git_diff_renamed locate_symbol walk read_file git_apply
                repr_paths _apply_error_handling depth self ref patch
                revise_context = Ok (ret, self') ->
    exists extra, records extra self self'.
Proof.
  induction depth as [|d IH]; intros self ref patch rc ret self' H;
    cbn [_apply_hunk] in H; [discriminate|].
  unfold apply_hunk_body in H.
  destruct (revise_patch (read_file ref) rc patch) as [revised_patch fixed].
  destruct (git_apply ref revised_patch) as [stderr|].
  - destruct (contains "No such file" stderr).
    + unfold _apply_file_move_handling in H.
      destruct (find_after "--- a/" revised_patch) as [missing|e];
        cbn [bind] in H; [|discriminate].
      destruct (candidate_paths git_diff_renamed locate_symbol walk self ref
                                revised_patch missing) as [file_paths|e];
        cbn [bind] in H; [|discriminate].
      eapply try_paths_records; [|exact H].
      intros s p c r s' Hs. exact (IH _ _ _ _ _ _ Hs).
    + destruct (contains "corrupt patch" stderr).
      * injection H as _ <-. exists []. apply records_nothing.
      * destruct (_apply_error_handling ref revised_patch) as [[block differ]|e];
          cbn [bind] in H; [|discriminate].
        injection H as _ <-. exists []. apply records_nothing.
  - injection H as _ <-. exists [revised_patch].
    unfold records. destruct self. cbn. rewrite orb_true_r. reflexivity.
Qed.

(** What a call of [_apply_hunk] that returns does to the ten fields of
    the record.  It keeps the patches recorded before and may add
    patches after them; [round_succeeded] is set afterwards exactly
    when it was set before or a patch was added.  The error message,
    the two refs, the counter of context mismatches and the flags
    [all_hunks_applied_succeeded], [compile_succeeded],
    [testcase_succeeded] and [poc_succeeded] are as they were.  The
    cache [symbol_map], which [_locate_symbol] may fill on the way, is
    not a field of the record and the statement says nothing of it. *)
Theorem apply_hunk_only_records_patches (depth : nat)
  (self : Project) (ref patch : string) (revise_context : bool)
  (ret : string) (self' : Project) :
  _apply_hunk git_diff_renamed locate_symbol walk read_file git_apply
              repr_paths _apply_error_handling depth self ref patch
              revise_context = Ok (ret, self') ->
  exists extra,
    succeeded_patches self' = succeeded_patches self ++ extra
    /\ round_succeeded self'
       = round_succeeded self || negb (Nat.eqb (List.length extra) 0)
    /\ err_msg self' = err_msg self
    /\ new_patch_parent self' = new_patch_parent self
    /\ target_release self' = target_release self
    /\ context_mismatch_times self' = context_mismatch_times self
    /\ all_hunks_applied_succeeded self' = all_hunks_applied_succeeded self
    /\ compile_succeeded self' = compile_succeeded self
    /\ testcase_succeeded self' = testcase_succeeded self
    /\ poc_succeeded self' = poc_succeeded self.
Proof.
  intros H.
  destruct (apply_hunk_records depth self ref patch revise_context ret self' H)
    as (extra & ->).
  exists extra. repeat split.
Qed.

End ApplyHunkFrame.

Lemma apply_hunk_only_records_patches_witness :
  let self' :=
    set_round_succeeded true
      (set_succeeded_patches
         [replace "src/f.c" "lib/f.c" patch_on_moved_file] new_project) in
  exists extra,
    succeeded_patches self' = succeeded_patches new_project ++ extra
    /\ round_succeeded self'
       = round_succeeded new_project || negb (Nat.eqb (List.length extra) 0)
    /\ err_msg self' = err_msg new_project
    /\ new_patch_parent self' = new_patch_parent new_project
    /\ target_release self' = target_release new_project
    /\ context_mismatch_times self' = context_mismatch_times new_project
    /\ all_hunks_applied_succeeded self'
       = all_hunks_applied_succeeded new_project
    /\ compile_succeeded self' = compile_succeeded new_project
    /\ testcase_succeeded self' = testcase_succeeded new_project
    /\ poc_succeeded self' = poc_succeeded new_project.
Proof.
  cbn zeta.
  apply (apply_hunk_only_records_patches
           moved_git_diff (fun _ _ => None) [] moved_read_file
           moved_git_apply (fun _ => "") (fun _ _ => Ok ("", ""))
           2 new_project "v1" patch_on_moved_file false
           (moved_to "src/f.c" "lib/f.c")).
  vm_compute. reflexivity.
Defined.

Lemma String_append_assoc (a b c : string) :
  ((a ++ b) ++ c = a ++ (b ++ c))%string.
Proof.
  induction a as [|x a IH]; cbn [String.append]; [|rewrite IH]; reflexivity.
Qed.

Lemma context_mismatch_is_counted (rest : string) :
  contains "CONTEXT MISMATCH" (context_mismatch ++ rest) = true.
Proof.
  assert (E : context_mismatch
              = ("This patch does not apply because of "
                 ++ ("CONTEXT MISMATCH"
                     ++ (". Context are patch lines that already exist in the file, that is, lines starting with ` ` and `-`. You should modify the error patch according to the context of older version."
                         ++ NL)))%string) by reflexivity.
  rewrite E, !String_append_assoc.
  apply contains_after, contains_prefix, prefix_app.
Qed.

Section HunkPhase.

Variable git_diff_renamed : string -> string -> string -> string.
Variable locate_symbol : string -> string -> option (list (string * Z)).
Variable walk : list string.
Variable read_file : string -> string -> option string.
Variable git_apply : string -> string -> option string.
Variable repr_paths : list string -> string.
Variable _apply_error_handling : string -> string -> result (string * string).
Variable _compile_patch :
  Project -> string -> string -> bool -> result (string * Project).
Variable test_sh : option completed.
Variable poc_sh : option completed.

Let validate :=
  _validate git_diff_renamed locate_symbol walk read_file git_apply repr_paths
            _apply_error_handling _compile_patch test_sh poc_sh.

(** What [_validate] counts as a context mismatch while the hunks are
    being applied.  The patch is revised first, with all its context
    lines rewritten once the counter has reached two.  A revised patch
    that [git apply] accepts is recorded and sets [round_succeeded]; a
    patch it calls corrupt changes nothing; both leave the counter as it
    is.  Any other refusal, the missing file apart, is answered by the
    diagnostic of the mismatch and adds one to the counter. *)
Theorem validate_counts_context_mismatch (depth : nat) (self : Project)
  (ref patch : string) :
  all_hunks_applied_succeeded self = false ->
  contains "need not ported" patch = false ->
  let revised_patch :=
    fst (revise_patch (read_file ref) (2 <=? context_mismatch_times self)
                      patch) in
  match git_apply ref revised_patch with
  | None =>
      validate (S depth) self ref patch
      = Ok (applied,
            set_round_succeeded true
              (set_succeeded_patches
                 (succeeded_patches self ++ [revised_patch]) self))
  | Some stderr =>
      if contains "No such file" stderr then True
      else if contains "corrupt patch" stderr then
        validate (S depth) self ref patch = Ok (corrupt_patch, self)
      else
        match _apply_error_handling ref revised_patch with
        | Ok (block, differ) =>
            validate (S depth) self ref patch
            = Ok ((context_mismatch ++ block
                   ++ "Besides, here is detailed info about how the context differs between the patch and the old version."
                   ++ NL ++ differ)%string, bump self)
        | Raise e => validate (S depth) self ref patch = Raise e
        end
  end.
Proof.
  intros Hall Hport. cbn zeta.
  unfold validate, _validate. rewrite Hall, Hport.
  cbn [_apply_hunk]. unfold apply_hunk_body.
  destruct (revise_patch (read_file ref) (2 <=? context_mismatch_times self)
                         patch) as [revised_patch fixed].
  cbn [fst].
  destruct (git_apply ref revised_patch) as [stderr|].
  - destruct (contains "No such file" stderr); [exact I|].
    destruct (contains "corrupt patch" stderr).
    + cbn [bind]. reflexivity.
    + destruct (_apply_error_handling ref revised_patch) as [[block differ]|e];
        cbn [bind]; [|reflexivity].
      rewrite context_mismatch_is_counted. reflexivity.
  - cbn [bind]. reflexivity.
Qed.

(** A patch that goes through the three stages in one call: the compile
    stage sets its flag, [test.sh] is missing or exits with zero, and
    [poc.sh] is missing or ends without the error message in its
    output.  The answer is the three reports in order; the project ends
    with the three flags set and with the patch as its only recorded
    patch.  A further call runs no stage and answers with the empty
    text. *)
Theorem validated_in_one_call (depth : nat) (self : Project)
  (ref patch : string) (compile_ret : string) (compiled : Project) :
  all_hunks_applied_succeeded self = true ->
  compile_succeeded self = false ->
  _compile_patch self ref patch (1 <=? context_mismatch_times self)
  = Ok (compile_ret, compiled) ->
  all_hunks_applied_succeeded compiled = true ->
  compile_succeeded compiled = true ->
  testcase_succeeded compiled = false ->
  poc_succeeded compiled = false ->
  test_passes test_sh ->
  poc_passes (err_msg compiled) poc_sh ->
  validate depth self ref patch
  = Ok ((compile_ret ++ testcase_pass ++ poc_pass)%string,
        validated patch (bump compiled))
  /\ forall ref' patch',
       validate depth (validated patch (bump compiled)) ref' patch'
       = Ok ("", validated patch (bump compiled)).
Proof.
  intros Hall Hc Hcomp Hall' Hc' Ht' Hp' Htest Hpoc.
  assert (Htc : _run_testcase test_sh (bump compiled)
                = (testcase_pass, set_testcase_succeeded true (bump compiled))).
  { destruct test_sh as [[|returncode out]|]; cbn in Htest;
      [destruct Htest| |reflexivity].
    subst returncode. reflexivity. }
  assert (Hpc : _run_poc poc_sh (set_testcase_succeeded true (bump compiled))
                         patch
                = (poc_pass, validated patch (bump compiled))).
  { destruct poc_sh as [[|returncode out]|]; cbn in Hpoc;
      [destruct Hpoc| |reflexivity].
    unfold _run_poc.
    change (err_msg (set_testcase_succeeded true (bump compiled)))
      with (err_msg compiled).
    rewrite Hpoc. reflexivity. }
  split.
  - unfold validate, _validate. rewrite Hall, Hc. cbn [negb].
    rewrite Hcomp. cbn [bind]. fold (bump compiled).
    change (compile_succeeded (bump compiled)) with (compile_succeeded compiled).
    change (testcase_succeeded (bump compiled))
      with (testcase_succeeded compiled).
    rewrite Hc', Ht'. cbn [andb negb]. rewrite Htc.
    change (compile_succeeded (set_testcase_succeeded true (bump compiled)))
      with (compile_succeeded compiled).
    change (testcase_succeeded (set_testcase_succeeded true (bump compiled)))
      with true.
    change (poc_succeeded (set_testcase_succeeded true (bump compiled)))
      with (poc_succeeded compiled).
    rewrite Hc', Hp'. cbn [andb negb]. rewrite Hpc.
    rewrite String_append_assoc. reflexivity.
  - intros ref' patch'. unfold validate, _validate, validated, bump.
    clear Htc Hpc Hcomp Hpoc.
    destruct compiled; cbn in *; subst. reflexivity.
Qed.

(** The PoC stage of [_validate], entered with the compiled and tested
    flags set.  The return code of [poc.sh] plays no part: the run
    fails exactly when its output holds the error message of the
    project.  A failure clears the compiled and the tested flag, so
    that the next call starts again at the compile stage; a run that
    times out is answered by the sentence of the testcase stage and
    changes nothing, so that the next call enters the PoC stage
    again. *)
Theorem poc_stage (depth : nat) (self : Project) (ref patch : string) :
  all_hunks_applied_succeeded self = true ->
  compile_succeeded self = true ->
  testcase_succeeded self = true ->
  poc_succeeded self = false ->
  validate depth self ref patch
  = Ok (match poc_sh with
        | None => (poc_pass, validated patch self)
        | Some TimeoutExpired => (testcase_timeout, self)
        | Some (Exited _ poc_result) =>
            if contains (err_msg self) poc_result
            then (poc_failed poc_result,
                  set_testcase_succeeded false
                    (set_compile_succeeded false self))
            else (poc_pass, validated patch self)
        end).
Proof.
  intros Hall Hc Ht Hp. unfold validate, _validate.
  rewrite Hall, Hc. cbn [negb bind]. rewrite Hc, Ht. cbn [andb negb].
  rewrite Hc, Ht, Hp. cbn [andb negb].
  assert (Hsame : forall s, validated patch s
                            = set_testcase_succeeded true (validated patch s))
    by reflexivity.
  destruct poc_sh as [[|returncode poc_result]|]; cbn [_run_poc].
  - reflexivity.
  - destruct (contains (err_msg self) poc_result); cbn [String.append].
    + reflexivity.
    + destruct self; cbn in *; subst; reflexivity.
  - destruct self; cbn in *; subst; reflexivity.
Qed.

End HunkPhase.

Lemma validate_counts_context_mismatch_witness :
  _validate moved_git_diff (fun _ _ => None) [] moved_read_file
            (fun _ _ => Some "error: patch failed: lib/f.c:1")
            (fun _ => "") (fun _ _ => Ok ("block", "differ"))
            compile_in_counting_tree None None 1 new_project "v1"
            patch_on_moved_file
  = Ok ((context_mismatch ++ "block"
         ++ "Besides, here is detailed info about how the context differs between the patch and the old version."
         ++ NL ++ "differ")%string, bump new_project).
Proof.
  apply (validate_counts_context_mismatch
           moved_git_diff (fun _ _ => None) [] moved_read_file
           (fun _ _ => Some "error: patch failed: lib/f.c:1")
           (fun _ => "") (fun _ _ => Ok ("block", "differ"))
           compile_in_counting_tree None None 0 new_project "v1"
           patch_on_moved_file).
  - reflexivity.
  - vm_compute. reflexivity.
Defined.

Lemma validated_in_one_call_witness :
  let self :=
    mk_project "no err_msg" "new~1" "v1" [] 0 false true false false false in
  let compiled := set_compile_succeeded true self in
  _validate moved_git_diff (fun _ _ => None) [] moved_read_file
            moved_git_apply (fun _ => "") (fun _ _ => Ok ("", ""))
            compile_in_counting_tree
            (Some (Exited 0 "ok")) (Some (Exited 1 "clean"))
            1 self "v1" patch_on_moved_file
  = Ok ((compile_pass ++ testcase_pass ++ poc_pass)%string,
        validated patch_on_moved_file (bump compiled))
  /\ forall ref' patch',
       _validate moved_git_diff (fun _ _ => None) [] moved_read_file
                 moved_git_apply (fun _ => "") (fun _ _ => Ok ("", ""))
                 compile_in_counting_tree
            (Some (Exited 0 "ok")) (Some (Exited 1 "clean"))
                 1 (validated patch_on_moved_file (bump compiled)) ref' patch'
       = Ok ("", validated patch_on_moved_file (bump compiled)).
Proof.
  cbn zeta.
  apply (validated_in_one_call
           moved_git_diff (fun _ _ => None) [] moved_read_file
           moved_git_apply (fun _ => "") (fun _ _ => Ok ("", ""))
           compile_in_counting_tree
            (Some (Exited 0 "ok")) (Some (Exited 1 "clean"))
           1
           (mk_project "no err_msg" "new~1" "v1" [] 0
                       false true false false false)
           "v1" patch_on_moved_file compile_pass);
    try reflexivity.
Defined.

Lemma poc_stage_witness :
  let self :=
    mk_project "KASAN" "new~1" "v1" [] 1 false true true true false in
  _validate moved_git_diff (fun _ _ => None) [] moved_read_file
            moved_git_apply (fun _ => "") (fun _ _ => Ok ("", ""))
            compile_in_counting_tree None
            (Some (Exited 0 "BUG: KASAN: use-after-free"))
            1 self "v1" patch_on_moved_file
  = Ok (poc_failed "BUG: KASAN: use-after-free",
        set_testcase_succeeded false (set_compile_succeeded false self)).
Proof.
  cbn zeta.
  apply (poc_stage
           moved_git_diff (fun _ _ => None) [] moved_read_file
           moved_git_apply (fun _ => "") (fun _ _ => Ok ("", ""))
           compile_in_counting_tree None
            (Some (Exited 0 "BUG: KASAN: use-after-free"))
           1
           (mk_project "KASAN" "new~1" "v1" [] 1 false true true true false)
           "v1" patch_on_moved_file); reflexivity.
Defined.

(* ================================================================== *)
(** * [_viewcode] *)
(* ================================================================== *)

Lemma skipn_nth_error {A} (l : list A) (a : nat) (x : A) :
  nth_error l a = Some x -> skipn a l = x :: skipn (S a) l.
Proof.
  revert l. induction a as [|a IH]; intros [|y l] H; try discriminate.
  - injection H as ->. reflexivity.
  - cbn [nth_error] in H. cbn [skipn]. rewrite (IH l H). reflexivity.
Qed.

Lemma seq_offset (a n : nat) :
  forall s, seq (a + s) n = map (fun k => (a + k)%nat) (seq s n).
Proof.
  induction n as [|n IH]; intros s; [reflexivity|].
  cbn [seq map]. rewrite <- IH, Nat.add_succ_r. reflexivity.
Qed.

Lemma range2_split (a m b : Z) :
  a <= m <= b -> range2 a b = range2 a m ++ range2 m b.
Proof.
  intros H. unfold range2.
  assert (E : Z.to_nat (b - a) = (Z.to_nat (m - a) + Z.to_nat (b - m))%nat)
    by lia.
  rewrite E, seq_app, map_app. f_equal. cbn [Nat.add].
  rewrite <- (Nat.add_0_r (Z.to_nat (m - a))) at 1.
  rewrite seq_offset, map_map. apply map_ext. intros k. lia.
Qed.

Section ViewLoop.

Variable lines : list string.

(** The loop over line numbers of the file, from the start. *)
Lemma view_loop_forward (n : nat) :
  forall (a : nat) (ret : list string),
    (a + n <= List.length lines)%nat ->
    foldM (view_step lines) (map Z.of_nat (seq a n)) ret
    = Ok (ret ++ firstn n (skipn a lines)).
Proof.
  induction n as [|n IH]; intros a ret H.
  - cbn. rewrite app_nil_r. reflexivity.
  - cbn [seq map foldM]. unfold view_step at 1.
    rewrite index_nonneg by lia. rewrite Nat2Z.id.
    destruct (nth_error lines a) as [x|] eqn:Hx;
      [|apply nth_error_None in Hx; lia].
    cbn [of_option bind]. rewrite IH by lia.
    rewrite (skipn_nth_error _ _ _ Hx). cbn [firstn].
    rewrite <- app_assoc. reflexivity.
Qed.

(** The loop over negative indices, which count from the end. *)
Lemma view_loop_backward (n : nat) :
  forall (a : nat) (ret : list string),
    (a + n <= List.length lines)%nat ->
    foldM (view_step lines)
          (map (fun m => Z.of_nat m - len lines) (seq a n)) ret
    = Ok (ret ++ firstn n (skipn a lines)).
Proof.
  induction n as [|n IH]; intros a ret H.
  - cbn. rewrite app_nil_r. reflexivity.
  - cbn [seq map foldM]. unfold view_step at 1. unfold index, len.
    destruct (Z.leb_spec 0 (Z.of_nat a - Z.of_nat (List.length lines)));
      [lia|].
    cbn [andb].
    destruct (Z.leb_spec (- Z.of_nat (List.length lines))
                         (Z.of_nat a - Z.of_nat (List.length lines))); [|lia].
    destruct (Z.ltb_spec (Z.of_nat a - Z.of_nat (List.length lines)) 0);
      [|lia].
    cbn [andb].
    replace (Z.to_nat (Z.of_nat a - Z.of_nat (List.length lines)
                       + Z.of_nat (List.length lines))) with a by lia.
    destruct (nth_error lines a) as [x|] eqn:Hx;
      [|apply nth_error_None in Hx; lia].
    cbn [of_option bind]. fold (len lines). rewrite IH by lia.
    rewrite (skipn_nth_error _ _ _ Hx). cbn [firstn].
    rewrite <- app_assoc. reflexivity.
Qed.

Lemma view_loop_window (first last : Z) (ret : list string) :
  1 <= first -> last <= len lines ->
  foldM (view_step lines) (range2 (first - 1) last) ret
  = Ok (ret ++ firstn (Z.to_nat (last - first + 1))
                      (skipn (Z.to_nat (first - 1)) lines)).
Proof.
  intros Hf Hl. unfold len in Hl.
  destruct (Z_lt_le_dec last (first - 1)) as [Hempty|Hne].
  - unfold range2.
    replace (Z.to_nat (last - (first - 1))) with 0%nat by lia.
    replace (Z.to_nat (last - first + 1)) with 0%nat by lia.
    cbn. rewrite app_nil_r. reflexivity.
  - pose proof (range2_seq (Z.to_nat (first - 1))
                           (Z.to_nat (last - first + 1))) as E.
    replace (Z.of_nat (Z.to_nat (first - 1))) with (first - 1) in E by lia.
    replace (first - 1 + Z.of_nat (Z.to_nat (last - first + 1)))
      with last in E by lia.
    rewrite E. apply view_loop_forward. lia.
Qed.

Lemma view_loop_wrap (first last : Z) (ret : list string) :
  - len lines <= first - 1 -> first <= 0 -> 0 <= last <= len lines ->
  foldM (view_step lines) (range2 (first - 1) last) ret
  = Ok (ret ++ skipn (Z.to_nat (len lines + first - 1)) lines
            ++ firstn (Z.to_nat last) lines).
Proof.
  intros Hlow Hf Hl. unfold len in *.
  rewrite (range2_split (first - 1) 0 last) by lia.
  rewrite foldM_app.
  assert (E1 : range2 (first - 1) 0
               = map (fun m => Z.of_nat m - len lines)
                     (seq (Z.to_nat (Z.of_nat (List.length lines) + first - 1))
                          (Z.to_nat (1 - first)))).
  { unfold range2, len.
    replace (Z.to_nat (0 - (first - 1))) with (Z.to_nat (1 - first)) by lia.
    rewrite <- (Nat.add_0_r
                  (Z.to_nat (Z.of_nat (List.length lines) + first - 1))).
    rewrite seq_offset, map_map. apply map_ext. intros k. lia. }
  rewrite E1, view_loop_backward by lia. cbn [bind].
  pose proof (range2_seq 0 (Z.to_nat last)) as E2.
  cbn [Z.of_nat Z.add] in E2.
  replace (Z.of_nat (Z.to_nat last)) with last in E2 by lia.
  rewrite E2, view_loop_forward by lia. cbn [skipn].
  rewrite <- app_assoc. do 2 f_equal.
  rewrite firstn_all2 by (rewrite length_skipn; lia). reflexivity.
Qed.

Lemma view_loop_raises (first last : Z) (ret : list string) :
  first - 1 < - len lines -> first - 1 < last ->
  foldM (view_step lines) (range2 (first - 1) last) ret = Raise IndexError.
Proof.
  intros Hlow Hne. unfold range2.
  destruct (Z.to_nat (last - (first - 1))) as [|n] eqn:E; [lia|].
  cbn [seq map foldM]. unfold view_step at 1. unfold index.
  destruct (Z.leb_spec 0 (first - 1 + Z.of_nat 0)); [unfold len in *; lia|].
  cbn [andb].
  destruct (Z.leb_spec (- len lines) (first - 1 + Z.of_nat 0)); [lia|].
  reflexivity.
Qed.

End ViewLoop.

Section ViewCode.

Variable tree_file : string -> string -> option string.

Lemma viewcode_loop (ref path content : string) (startline endline : Z) :
  tree_file ref path = Some content ->
  let lines := split nl content in
  let total := len lines in
  _viewcode tree_file ref path startline endline
  = ret <- foldM (view_step lines)
                 (range2 (first_shown total startline endline - 1)
                         (last_shown total endline))
                 [viewcode_head total startline endline] ;;
    Ok (join_nl ret ++ viewcode_advice)%string.
Proof.
  intros Hfile. cbn zeta. unfold _viewcode. rewrite Hfile.
  unfold first_shown, last_shown, viewcode_head, first_shown.
  destruct (Z.ltb_spec (len (split nl content)) endline) as [H|H].
  - rewrite Z.min_r by lia. reflexivity.
  - rewrite Z.min_l by lia. reflexivity.
Qed.

(** [_viewcode] on a file of the tree.  A window that ends past the
    last line is moved back by the excess, so that it ends on the last
    line and keeps its length; the first sentence of the answer then
    gives the number of lines of the file and the bounds as moved.
    When the window starts at line 1 or later, the answer shows the
    lines of the file from the first to the last line of the window,
    and none when the window ends before it starts. *)
Theorem viewcode_shows_the_window (ref path content : string)
  (startline endline : Z) :
  tree_file ref path = Some content ->
  let lines := split nl content in
  let total := len lines in
  let first := first_shown total startline endline in
  let last := last_shown total endline in
  1 <= first ->
  _viewcode tree_file ref path startline endline
  = Ok (viewcode_answer
          (viewcode_head total startline endline)
          (firstn (Z.to_nat (last - first + 1))
                  (skipn (Z.to_nat (first - 1)) lines))).
Proof.
  intros Hfile lines total first last Hfirst.
  rewrite (viewcode_loop _ _ _ _ _ Hfile). fold lines total first last.
  rewrite view_loop_window;
    [reflexivity | exact Hfirst | unfold last, last_shown, total; lia].
Qed.

(** A window that starts before line 1 and ends at line 0 or later.
    The lines before line 1 are taken from the end of the file: the
    answer shows the last [1 - first] lines of the file and then its
    first lines up to the end of the window.  When the window starts
    more than the length of the file before line 1, [_viewcode]
    raises. *)
Theorem viewcode_wraps_before_line_one (ref path content : string)
  (startline endline : Z) :
  tree_file ref path = Some content ->
  let lines := split nl content in
  let total := len lines in
  let first := first_shown total startline endline in
  let last := last_shown total endline in
  first <= 0 -> 0 <= endline ->
  _viewcode tree_file ref path startline endline
  = if - total <=? first - 1
    then Ok (viewcode_answer
               (viewcode_head total startline endline)
               (skipn (Z.to_nat (total + first - 1)) lines
                ++ firstn (Z.to_nat last) lines))
    else Raise IndexError.
Proof.
  intros Hfile lines total first last Hfirst Hend.
  rewrite (viewcode_loop _ _ _ _ _ Hfile). fold lines total first last.
  assert (Hlast : 0 <= last <= len lines).
  { unfold last, last_shown, total, len. lia. }
  destruct (Z.leb_spec (- total) (first - 1)) as [Hlow|Hlow].
  - rewrite view_loop_wrap by (unfold total in *; lia). reflexivity.
  - rewrite view_loop_raises by (unfold total in *; lia). reflexivity.
Qed.

End ViewCode.

Lemma viewcode_shows_the_window_witness :
  _viewcode (fun _ _ => Some "int a;
int b;
int c;
int d;") "v1" "f.c" 3 6
  = Ok "This file only has 4 lines. Here are lines 1 through 4.

int a;
int b;
int c;
int d;
Based on the previous information, think carefully do you see the target code? You may want to keep checking if you don't.
".
Proof.
  rewrite (viewcode_shows_the_window (fun _ _ => Some "int a;
int b;
int c;
int d;") "v1" "f.c" _ 3 6 eq_refl).
  - vm_compute. reflexivity.
  - vm_compute. discriminate.
Defined.

Lemma viewcode_wraps_before_line_one_witness :
  _viewcode (fun _ _ => Some "int a;
int b;
int c;
int d;") "v1" "f.c" 0 2
  = Ok "Here are lines 0 through 2.

int d;
int a;
int b;
Based on the previous information, think carefully do you see the target code? You may want to keep checking if you don't.
".
Proof.
  rewrite (viewcode_wraps_before_line_one (fun _ _ => Some "int a;
int b;
int c;
int d;") "v1" "f.c" _ 0 2 eq_refl).
  - vm_compute. reflexivity.
  - vm_compute. discriminate.
  - lia.
Defined.

(* ================================================================== *)
(** * [_locate_similar_symbol] *)
(* ================================================================== *)

Lemma similar_loop (symbol : string) (keys : list string) :
  forall n, (n <= List.length keys)%nat ->
    nearest_so_far symbol keys n
      (fold_left (similar_step symbol) (firstn n keys) (None, Inf)).
Proof.
  induction n as [|n IH]; intros Hn.
  - left. split; reflexivity.
  - destruct (nth_error keys n) as [x|] eqn:Hx;
      [|apply nth_error_None in Hx; lia].
    assert (E : firstn (S n) keys = firstn n keys ++ [x]).
    { rewrite <- (firstn_skipn n keys) at 1.
      rewrite (skipn_nth_error _ _ _ Hx).
      rewrite firstn_app, firstn_firstn, Nat.min_r by lia.
      rewrite length_firstn, Nat.min_l by lia.
      replace (S n - n)%nat with 1%nat by lia. reflexivity. }
    rewrite E, fold_left_app. cbn [fold_left].
    specialize (IH ltac:(lia)).
    destruct IH as [(-> & ->)|(i & key & Hi & Hkey & -> & Hmin & Hfirst)].
    + cbn [firstn fold_left similar_step dist_ltb].
      right. exists 0%nat, x. split; [lia|]. split; [exact Hx|].
      split; [reflexivity|]. split.
      * intros j other Hj Ho. assert (j = 0%nat) by lia. subst j.
        rewrite Hx in Ho. injection Ho as <-. lia.
      * intros j other Hj. lia.
    + unfold similar_step, dist_ltb.
      destruct (Nat.ltb_spec (Levenshtein.distance symbol x)
                             (Levenshtein.distance symbol key)) as [Hlt|Hge].
      * right. exists n, x. split; [lia|]. split; [exact Hx|].
        split; [reflexivity|]. split.
        -- intros j other Hj Ho. destruct (Nat.eq_dec j n) as [->|Hne].
           ++ rewrite Hx in Ho. injection Ho as <-. lia.
           ++ specialize (Hmin j other ltac:(lia) Ho). lia.
        -- intros j other Hj Ho. specialize (Hmin j other ltac:(lia) Ho). lia.
      * right. exists i, key. split; [lia|]. split; [exact Hkey|].
        split; [reflexivity|]. split; [|exact Hfirst].
        intros j other Hj Ho. destruct (Nat.eq_dec j n) as [->|Hne].
        -- rewrite Hx in Ho. injection Ho as <-. exact Hge.
        -- apply (Hmin j other ltac:(lia) Ho).
Qed.

Lemma get_of_key (symbols : symbol_index) (i : nat) (key : string) :
  nth_error (map fst symbols) i = Some key ->
  exists places, get symbols key = Some places /\ In (key, places) symbols.
Proof.
  revert i. induction symbols as [|[symbol_i places] rest IH]; intros i H.
  - destruct i; discriminate.
  - cbn [get]. destruct (String.eqb_spec symbol_i key) as [->|Hne].
    + exists places. split; [reflexivity | left; reflexivity].
    + destruct i as [|i]; cbn in H; [congruence|].
      destruct (IH i H) as (p & Hp & Hin).
      exists p. split; [exact Hp | right; exact Hin].
Qed.

(** [_locate_similar_symbol] on the index of a ref.  With an empty
    index, or none, it gives no symbol and no places.  Otherwise it
    gives a symbol of the index and the places of that symbol; no
    symbol of the index is nearer to the one asked for, and every
    symbol that comes before it in the index is farther. *)
Theorem locate_similar_symbol_nearest
  (symbol_map : string -> option symbol_index) (ref symbol : string) :
  let symbols := match symbol_map ref with
                 | Some symbols => symbols
                 | None => []
                 end in
  let keys := map fst symbols in
  match symbols with
  | [] => _locate_similar_symbol symbol_map ref symbol = (None, None)
  | _ :: _ =>
      exists i key places,
        _locate_similar_symbol symbol_map ref symbol
        = (Some places, Some key)
        /\ nth_error keys i = Some key
        /\ In (key, places) symbols
        /\ (forall other, In other keys ->
              (Levenshtein.distance symbol key
               <= Levenshtein.distance symbol other)%nat)
        /\ (forall j other, (j < i)%nat -> nth_error keys j = Some other ->
              (Levenshtein.distance symbol key
               < Levenshtein.distance symbol other)%nat)
  end.
Proof.
  cbn zeta. unfold _locate_similar_symbol.
  destruct (match symbol_map ref with Some s => s | None => [] end)
    as [|entry rest] eqn:Hsym; [reflexivity|].
  set (symbols := entry :: rest) in *.
  pose proof (similar_loop symbol (map fst symbols)
                (List.length (map fst symbols)) (le_n _)) as H.
  rewrite firstn_all in H.
  destruct H as [(Hz & _)|(i & key & Hi & Hkey & Hst & Hmin & Hfirst)];
    [discriminate|].
  rewrite Hst.
  destruct (get_of_key symbols i key Hkey) as (places & Hget & Hin).
  exists i, key, places. rewrite Hget.
  split; [reflexivity|]. split; [exact Hkey|]. split; [exact Hin|].
  split; [|exact Hfirst].
  intros other Ho. apply In_nth_error in Ho as (j & Hj).
  apply (Hmin j other); [|exact Hj].
  apply nth_error_Some. rewrite Hj. discriminate.
Qed.

(* ================================================================== *)
(** * [_compile_patch] *)
(* ================================================================== *)

Section CompileStageFacts.

Variable worktree : Type.
Variable checkout : string -> worktree.
Variable tree_read : worktree -> string -> option string.
Variable tree_apply : worktree -> string -> option worktree.
Variable build_sh : worktree -> option completed.
Variable _apply_error_handling : string -> string -> result (string * string).

Let units_applied := apply_all tree_read tree_apply.
Let compile := _compile_patch worktree checkout tree_read tree_apply build_sh
                              _apply_error_handling.

Lemma apply_units_refused (revise_context : bool) (pp : string)
  (post : list string) :
  forall (pre : list string) (tree tree1 : worktree) (idx : nat),
    units_applied revise_context tree pre = Some tree1 ->
    tree_apply tree1 (fst (revise_patch (tree_read tree1) revise_context pp))
    = None ->
    apply_units worktree tree_read tree_apply revise_context tree idx
                (pre ++ pp :: post)
    = inr ((idx + List.length pre)%nat,
           fst (revise_patch (tree_read tree1) revise_context pp)).
Proof.
  induction pre as [|p pre IH]; intros tree tree1 idx Hpre Hpp;
    cbn [app apply_units List.length].
  - injection Hpre as ->.
    destruct (revise_patch (tree_read tree1) revise_context pp)
      as [revised_patch fixed].
    cbn [fst] in *. rewrite Hpp, Nat.add_0_r. reflexivity.
  - unfold units_applied in Hpre. cbn [apply_all] in Hpre.
    destruct (revise_patch (tree_read tree) revise_context p)
      as [revised_patch fixed].
    cbn [fst] in Hpre.
    destruct (tree_apply tree revised_patch) as [tree'|]; [|discriminate].
    rewrite (IH tree' tree1 (S idx) Hpre Hpp).
    do 2 f_equal. lia.
Qed.

Lemma apply_units_all (revise_context : bool) :
  forall (pps : list string) (tree tree1 : worktree) (idx : nat),
    apply_units worktree tree_read tree_apply revise_context tree idx pps
    = inl tree1 ->
    units_applied revise_context tree pps = Some tree1.
Proof.
  induction pps as [|p pps IH]; intros tree tree1 idx H;
    cbn [apply_units] in H; unfold units_applied; cbn [apply_all].
  - injection H as ->. reflexivity.
  - destruct (revise_patch (tree_read tree) revise_context p)
      as [revised_patch fixed].
    cbn [fst].
    destruct (tree_apply tree revised_patch) as [tree'|]; [|discriminate].
    exact (IH _ _ _ H).
Qed.

(** The compile stage applies the units of the complete patch in
    order, each on the tree that the units before it leave.  It stops
    at the first unit that [git apply] refuses: the build is not run,
    the project is left as it is, and the answer names the number of
    that unit, counted from zero, with the diagnostic of its revised
    text. *)
Theorem compile_stops_at_first_refusal (self : Project)
  (ref complete_patch : string) (revise_context : bool)
  (pre post : list string) (pp : string) (tree : worktree) :
  units (split_patch false complete_patch) = pre ++ pp :: post ->
  units_applied revise_context (checkout ref) pre = Some tree ->
  let revised_patch :=
    fst (revise_patch (tree_read tree) revise_context pp) in
  tree_apply tree revised_patch = None ->
  compile self ref complete_patch revise_context
  = match _apply_error_handling ref revised_patch with
    | Ok (block, differ) =>
        Ok (apply_failure (List.length pre) block differ, self)
    | Raise e => Raise e
    end.
Proof.
  intros Hunits Hpre revised_patch Hpp.
  unfold compile, _compile_patch. rewrite Hunits.
  rewrite (apply_units_refused revise_context pp post pre _ tree 0 Hpre Hpp).
  cbn [Nat.add]. fold revised_patch.
  destruct (_apply_error_handling ref revised_patch) as [[block differ]|e];
    reflexivity.
Qed.

(** A compile stage that returns changes one field of the project at
    most: it sets the compiled flag, and it does so only when every
    unit of the patch was applied and the build passed; its answer is
    then the sentence of success. *)
Theorem compile_sets_one_flag (self : Project) (ref complete_patch : string)
  (revise_context : bool) (ret : string) (self' : Project) :
  compile self ref complete_patch revise_context = Ok (ret, self') ->
  (self' = self /\ ret <> compile_pass)
  \/ (self' = set_compile_succeeded true self
      /\ ret = compile_pass
      /\ exists tree,
           units_applied revise_context (checkout ref)
                         (units (split_patch false complete_patch))
           = Some tree
           /\ build_passes (build_sh tree)).
Proof.
  unfold compile, _compile_patch. intros H.
  destruct (apply_units worktree tree_read tree_apply revise_context
                        (checkout ref) 0
                        (units (split_patch false complete_patch)))
    as [tree|[idx revised_patch]] eqn:Happ.
  - apply apply_units_all in Happ.
    destruct (build_sh tree) as [[|returncode compile_result]|] eqn:Hbuild.
    + discriminate.
    + destruct (Z.eqb_spec returncode 0) as [->|Hne]; cbn [negb] in H.
      * injection H as <- <-. right.
        split; [reflexivity|]. split; [reflexivity|].
        exists tree. split; [exact Happ|]. right.
        exists compile_result. exact Hbuild.
      * injection H as <- <-. left. split; [reflexivity|].
        unfold compile_failed, compile_pass. discriminate.
    + injection H as <- <-. right.
      split; [reflexivity|]. split; [reflexivity|].
      exists tree. split; [exact Happ|]. left. exact Hbuild.
  - destruct (_apply_error_handling ref revised_patch) as [[block differ]|e];
      cbn [bind] in H; [|discriminate].
    injection H as <- <-. left. split; [reflexivity|].
    unfold apply_failure, compile_pass. discriminate.
Qed.

End CompileStageFacts.

Lemma compile_stops_at_first_refusal_witness :
  _compile_patch nat (fun _ => 0%nat) (fun _ _ => None) counting_apply
                 (fun _ => None) (fun _ _ => Ok ("block", "differ"))
                 new_project "v1" patch_on_two_files false
  = Ok (apply_failure 1 "block" "differ", new_project).
Proof.
  rewrite (compile_stops_at_first_refusal
             nat (fun _ => 0%nat) (fun _ _ => None) counting_apply
             (fun _ => None) (fun _ _ => Ok ("block", "differ"))
             new_project "v1" patch_on_two_files false
             ["--- a/good.c
+++ b/good.c
@@ -1,1 +1,1 @@
-int a;
+int b;"] []
             "--- a/bad.c
+++ b/bad.c
@@ -1,1 +1,1 @@
-int x;
+int y;" 1%nat).
  - reflexivity.
  - vm_compute. reflexivity.
  - vm_compute. reflexivity.
  - vm_compute. reflexivity.
Defined.

Lemma compile_sets_one_flag_witness :
  (set_compile_succeeded true new_project = new_project
   /\ compile_pass <> compile_pass)
  \/ (set_compile_succeeded true new_project
      = set_compile_succeeded true new_project
      /\ compile_pass = compile_pass
      /\ exists tree,
           apply_all (fun (_ : nat) (_ : string) => @None string)
                     (fun tree _ => Some (S tree)) false 0%nat
                     (units (split_patch false patch_on_two_files))
           = Some tree
           /\ build_passes (@None completed)).
Proof.
  apply (compile_sets_one_flag
           nat (fun _ => 0%nat) (fun _ _ => None) (fun tree _ => Some (S tree))
           (fun _ => None) (fun _ _ => Ok ("block", "differ"))
           new_project "v1" patch_on_two_files false).
  vm_compute. reflexivity.
Defined.

(* ================================================================== *)
(** * More on [revise_block] *)
(* ================================================================== *)

Section BlockByHunks.

Variable read_file : string -> option string.
Variable revise_context : bool.
Variable file_content : list string.

(** The hunk loop of [revise_block], from any line on, revises one
    group of lines per line that opens on [@@]. *)
Lemma revise_block_loop (todo : list string) :
  forall (done : list string) (last : Z) (fixed_lines : list string)
         (fixed : bool),
    last = -1 \/ 0 <= last <= len done ->
    (st <- foldM (block_step revise_context (done ++ todo) file_content)
                 (map Z.of_nat (seq (List.length done) (List.length todo)))
                 (last, fixed_lines, fixed) ;;
     close_block revise_context (done ++ todo) file_content st)
    = revise_hunks revise_context file_content
        (groups_from hunk_start (open_block last done) todo)
        fixed_lines fixed.
Proof.
  induction todo as [|x rest IH]; intros done last fixed_lines fixed Hlast.
  - cbn [List.length seq map foldM bind]. rewrite app_nil_r.
    unfold close_block, open_block.
    destruct (Z.eqb_spec last (-1)) as [E|E];
      cbn [negb groups_from revise_hunks]; [reflexivity|].
    rewrite slice_from_skipn by lia.
    destruct (revise_hunk revise_context (skipn (Z.to_nat last) done)
                          file_content) as [[revised hunk_fixed]|e];
      reflexivity.
  - cbn [List.length seq map foldM].
    assert (Hlines : done ++ x :: rest = (done ++ [x]) ++ rest)
      by (rewrite <- app_assoc; reflexivity).
    assert (Hlen : S (List.length done) = List.length (done ++ [x]))
      by (rewrite length_app; cbn; lia).
    assert (Hlen' : len (done ++ [x]) = Z.of_nat (List.length done) + 1)
      by (unfold len; rewrite length_app; cbn; lia).
    assert (Hld : len done = Z.of_nat (List.length done)) by reflexivity.
    unfold block_step at 1. rewrite index_middle. cbn [of_option bind].
    change (startswith x "@@") with (hunk_start x).
    cbn [groups_from].
    destruct (hunk_start x) eqn:Hx.
    + unfold open_block at 1.
      destruct (Z.eqb_spec last (-1)) as [E|E]; cbn [negb app].
      * cbn [bind]. rewrite Hlines, Hlen, IH by lia.
        rewrite open_block_marker. reflexivity.
      * change (Z.of_nat (List.length done)) with (len done) at 1.
        rewrite slice_done by lia. cbn [revise_hunks].
        destruct (revise_hunk revise_context (skipn (Z.to_nat last) done)
                              file_content) as [[revised hunk_fixed]|e];
          cbn [bind]; [|reflexivity].
        rewrite Hlines, Hlen, IH by lia.
        rewrite open_block_marker. reflexivity.
    + cbn [bind]. rewrite Hlines, Hlen, IH by lia.
      rewrite open_block_snoc by exact Hlast. reflexivity.
Qed.

End BlockByHunks.

Lemma header_path_of (marker : string) (lines : list string) (k : Z)
  (line : string) :
  index lines k = Some line ->
  header_path marker lines k = Ok (header_of marker line).
Proof.
  intros H. unfold header_path, header_of. rewrite H. cbn [of_option bind].
  destruct (find_after marker line); reflexivity.
Qed.

(** [revise_block] on a block of two header lines and the lines after
    them.  When the two paths differ and neither is [--- /dev/null] it
    raises; when the file cannot be read it gives the block back with a
    false flag.  Otherwise it gives the two header lines with their
    paths in normal form, and then one text per line that opens on
    [@@], revised against the file in order; the lines between the
    header and the first [@@] are left out, the flag is set when a path
    was not in normal form or a hunk sets it, and the first hunk that
    raises ends the repair. *)
Theorem revise_block_by_hunks (read_file : string -> option string)
  (revise_context : bool) (line_a line_b : string) (rest : list string) :
  let '(file_path_a, fixed_file_path_a) := header_of "--- a/" line_a in
  let '(file_path_b, fixed_file_path_b) := header_of "+++ b/" line_b in
  revise_block read_file revise_context (line_a :: line_b :: rest)
  = if negb (paths_agree file_path_a fixed_file_path_a
                         file_path_b fixed_file_path_b)
    then Raise AssertionError
    else
      match read_file file_path_a with
      | None => Ok (line_a :: line_b :: rest, false)
      | Some content =>
          revise_hunks revise_context
            (map rstrip_nl (splitlines content))
            (groups_from hunk_start None rest)
            [ remove_dashes_after "a" ("--- a/" ++ fixed_file_path_a)%string;
              remove_dashes_after "b" ("+++ b/" ++ fixed_file_path_b)%string ]
            (negb (String.eqb file_path_a fixed_file_path_a)
             || negb (String.eqb file_path_b fixed_file_path_b))
      end.
Proof.
  destruct (header_of "--- a/" line_a) as [pa fa] eqn:Ha.
  destruct (header_of "+++ b/" line_b) as [pb fb] eqn:Hb.
  unfold revise_block.
  rewrite (header_path_of "--- a/" (line_a :: line_b :: rest) 0 line_a)
    by (rewrite index_nonneg by lia; reflexivity).
  rewrite (header_path_of "+++ b/" (line_a :: line_b :: rest) 1 line_b)
    by (rewrite index_nonneg by lia; reflexivity).
  rewrite Ha, Hb. cbn [bind]. unfold paths_agree.
  destruct (negb _); [reflexivity|].
  destruct (read_file pa) as [content|]; [|reflexivity].
  assert (Hrange : range2 2 (len (line_a :: line_b :: rest))
                   = map Z.of_nat (seq 2 (List.length rest))).
  { rewrite <- (range2_seq 2 (List.length rest)). unfold len.
    cbn [List.length]. f_equal. lia. }
  rewrite Hrange.
  pose proof (revise_block_loop revise_context
                (map rstrip_nl (splitlines content)) rest [line_a; line_b]
                (-1)
                [ remove_dashes_after "a" ("--- a/" ++ fa)%string;
                  remove_dashes_after "b" ("+++ b/" ++ fb)%string ]
                (negb (String.eqb pa fa) || negb (String.eqb pb fb))
                (or_introl eq_refl)) as H.
  cbn [app List.length] in H.
  change (open_block (-1) [line_a; line_b]) with (@None (list string)) in H.
  rewrite <- H. clear H.
  destruct (foldM _ _ _) as [[[last fixed_lines] block_fixed]|e];
    reflexivity.
Qed.

(* ================================================================== *)
(** * A hunk that only adds lines *)
(* ================================================================== *)

(** An empty block aligns on line 1 of any file, with distance 0. *)
Lemma empty_pattern_alignment (main : list string) :
  find_most_similar_block [] main 0 false = Ok (1, Fin 0).
Proof.
  destruct (scan_earliest_best [] main) as (b & (Hb & _ & Hfirst) & Hscan).
  { unfold windows. cbn [List.length]. lia. }
  assert (Hzero : forall k, window_distance [] main k = 0%nat)
    by (intros k; reflexivity).
  assert (b = 0%nat).
  { destruct b as [|b]; [reflexivity|].
    specialize (Hfirst 0%nat ltac:(lia)). rewrite !Hzero in Hfirst. lia. }
  subst b. rewrite Hzero in Hscan.
  apply (find_most_similar_block_plain [] main 1 1 (Fin 0)).
  - exact Hscan.
  - reflexivity.
Qed.

Lemma added_is_not_old (line : string) :
  is_added line = true -> is_old line = false /\ is_removed line = false.
Proof.
  destruct line as [|c s]; [discriminate|].
  rewrite is_added_cons, is_old_cons. unfold is_removed.
  rewrite startswith_char. intros H. apply Ascii.eqb_eq in H. subst c.
  split; reflexivity.
Qed.

Lemma replace_apos_s_added (line : string) :
  is_added line = true -> is_added (replace_apos_s line) = true.
Proof.
  destruct line as [|c s]; [discriminate|].
  rewrite is_added_cons. intros H. apply Ascii.eqb_eq in H. subst c.
  rewrite replace_apos_s_other by discriminate.
  rewrite is_added_cons. reflexivity.
Qed.

Section AddedOnly.

Variable revise_context : bool.
Variable target_file_lines : list string.
Variable lineno : Z.

Lemma rewrite_loop_added (tmp_lines : list string) :
  Forall (fun line => is_added line = true) tmp_lines ->
  forall (i : Z) (acc : list string),
    foldM (rewrite_step revise_context target_file_lines lineno) tmp_lines
          (i, acc)
    = Ok (i, acc ++ map replace_apos_s tmp_lines).
Proof.
  induction 1 as [|line tmp_lines Hline _ IH]; intros i acc.
  - cbn. rewrite app_nil_r. reflexivity.
  - cbn [foldM map]. unfold rewrite_step at 1.
    change (startswith line " " || startswith line "-") with (is_old line).
    rewrite (proj1 (added_is_not_old line Hline)). cbn [bind].
    rewrite IH, <- app_assoc. reflexivity.
Qed.

Lemma mark_loop_added (tmp_lines : list string) (st : Z * list string) :
  Forall (fun line => is_added line = true) tmp_lines ->
  foldM mark_step tmp_lines st = Ok st.
Proof.
  induction 1 as [|line tmp_lines Hline _ IH]; [reflexivity|].
  cbn [foldM]. unfold mark_step at 1. destruct st as [last_line revised].
  change (startswith line "-") with (is_removed line).
  rewrite (proj2 (added_is_not_old line Hline)). cbn [negb bind]. exact IH.
Qed.

End AddedOnly.

Lemma filter_added_old (l : list string) :
  Forall (fun line => is_added line = true) l ->
  filter is_old l = [] /\ filter is_added l = l.
Proof.
  induction 1 as [|line l Hline _ [IH1 IH2]]; [split; reflexivity|].
  cbn [filter]. rewrite Hline, (proj1 (added_is_not_old line Hline)), IH1, IH2.
  split; reflexivity.
Qed.

Lemma count_not_added (l : list string) :
  Forall (fun line => is_added line = true) l ->
  count_not (fun line => startswith line "+") l = 0%nat
  /\ count_not (fun line => startswith line "-") l = List.length l.
Proof.
  unfold count_not.
  induction 1 as [|line l Hline _ [IH1 IH2]]; [split; reflexivity|].
  cbn [filter]. change (startswith line "+") with (is_added line).
  change (startswith line "-") with (is_removed line).
  rewrite Hline, (proj2 (added_is_not_old line Hline)). cbn [negb List.length].
  rewrite IH1, IH2. split; reflexivity.
Qed.

Lemma count_not_app (p : string -> bool) (l l' : list string) :
  count_not p (l ++ l') = (count_not p l + count_not p l')%nat.
Proof. unfold count_not. rewrite filter_app, length_app. reflexivity. Qed.

(** A hunk whose body only adds lines is aligned on line 1 of the
    file, whatever its header says, since it has no line to look for.
    Whitespace-only repair gives the added lines back, with the idiom
    ['s ] replaced, under a header that counts no old line.  The forced
    rewrite adds the first line of the file after them as a context
    line, and raises when the file is empty. *)
Theorem hunk_of_added_lines (lines lines' target_file_lines : list string)
  (header c0 c1 c2 c3 c4 : string) :
  strip_trailer lines = Ok lines' ->
  index lines' 0 = Some header ->
  find_header header = Ok (c0, c1, c2, c3, c4) ->
  body_lines lines' <> [] ->
  Forall (fun line => is_added line = true) (body_lines lines') ->
  let added := map replace_apos_s (body_lines lines') in
  revise_hunk false lines target_file_lines
  = Ok (render (mk_hunk c0 0 c2 (List.length added) c4 added),
        negb (String.eqb c0 c2))
  /\ revise_hunk true lines target_file_lines
     = match target_file_lines with
       | [] => Raise IndexError
       | first :: _ =>
           Ok (render (mk_hunk c0 1 c2 (List.length added + 1) c4
                               (added ++ [(" " ++ strip_nl first)%string])),
               negb (String.eqb c0 c2))
       end.
Proof.
  intros Hstrip Hheader Hfind Hne Hadded added.
  assert (Hadded' : Forall (fun line => is_added line = true) added).
  { unfold added. apply Forall_forall. intros x Hx.
    apply in_map_iff in Hx as (line & <- & Hline).
    rewrite Forall_forall in Hadded.
    apply replace_apos_s_added, Hadded, Hline. }
  destruct (count_not_added added Hadded') as [Hold Hnew].
  destruct (filter_added_old _ Hadded) as [Fold Fadd].
  assert (Hbody : forall revise_context,
            revise_body revise_context lines target_file_lines
            = revised <-
                (if revise_context
                 then force_phase (body_lines lines') target_file_lines 1 0
                                  added
                 else Ok added) ;;
              Ok (header, revised)).
  { intros revise_context. unfold revise_body. rewrite Hstrip. cbn [bind].
    fold (body_lines lines'). unfold extract_context.
    rewrite extract_lines_filter, Fold. cbn [map len List.length Z.of_nat].
    rewrite empty_pattern_alignment. cbn [bind].
    rewrite (rewrite_loop_added revise_context target_file_lines 1 _ Hadded).
    cbn [bind app]. fold added. rewrite Hheader. reflexivity. }
  split.
  - unfold revise_hunk, revise_hunk_parts. rewrite Hbody. cbn [bind].
    rewrite Hfind. cbn [bind]. rewrite Hold, Hnew. reflexivity.
  - unfold revise_hunk, revise_hunk_parts. rewrite Hbody.
    unfold force_phase. rewrite (mark_loop_added _ _ Hadded). cbn [bind].
    assert (Hlast : exists init last,
              added = init ++ [last] /\ is_added last = true).
    { destruct (exists_last (l := added)) as (init & last & E).
      - unfold added. intros E. apply map_eq_nil in E. contradiction.
      - exists init, last. split; [exact E|].
        rewrite Forall_forall in Hadded'. apply Hadded'.
        rewrite E. apply in_or_app. right. left. reflexivity. }
    destruct Hlast as (init & last & E & Hl).
    rewrite E at 1. rewrite index_last_snoc. cbn [of_option bind].
    change (startswith last " ") with (is_context last).
    assert (Hctx : is_context last = false).
    { pose proof (proj1 (added_is_not_old last Hl)) as H.
      unfold is_old in H. apply orb_false_iff in H. exact (proj1 H). }
    rewrite Hctx. cbn [negb].
    change (1 - 1 + 0) with 0.
    destruct target_file_lines as [|first rest]; [reflexivity|].
    rewrite index_nonneg by lia. cbn [Z.to_nat nth_error of_option bind].
    rewrite Hfind. cbn [bind].
    rewrite !count_not_app, Hold, Hnew. reflexivity.
Qed.

Lemma hunk_of_added_lines_witness :
  revise_hunk false ["@@ -40,0 +41,2 @@ int f(void)"; "+int x;"; "+int y;"]
              ["#include <a.h>"; "int a;"]
  = Ok ("@@ -40,0 +41,2 @@ int f(void)
+int x;
+int y;", true)
  /\ revise_hunk true ["@@ -40,0 +41,2 @@ int f(void)"; "+int x;"; "+int y;"]
                 ["#include <a.h>"; "int a;"]
     = Ok ("@@ -40,1 +41,3 @@ int f(void)
+int x;
+int y;
 #include <a.h>", true).
Proof.
  apply (hunk_of_added_lines
           ["@@ -40,0 +41,2 @@ int f(void)"; "+int x;"; "+int y;"]
           ["@@ -40,0 +41,2 @@ int f(void)"; "+int x;"; "+int y;"]
           ["#include <a.h>"; "int a;"]
           "@@ -40,0 +41,2 @@ int f(void)" "40" "0" "41" "2" " int f(void)").
  - reflexivity.
  - reflexivity.
  - vm_compute. reflexivity.
  - vm_compute. discriminate.
  - vm_compute. repeat constructor.
Defined.
